(** * apple-mcp: the AppleScript result parser and the domain mappers

    A shallow embedding of [src/utils/notes.ts] (which also carries the
    calendar and reminders utilities) and [src/utils/mail.ts] (which also
    carries the search over the README), and the verification of the
    properties the specification states about them, followed by further
    properties of the same code.

    Conventions of the embedding.

    - A JavaScript string is a [string]; each [ascii] stands for one code
      unit in the range 0..255.
    - The parser's cursor [(this.input, this.index)] is represented by the
      unread suffix [input.slice(index)]: every method of the parser reads
      the input only at or after [index].
    - A thrown exception is a [Throw] result; [x <- e ;; k] sequences two
      computations and propagates a throw, as JavaScript does.
    - An object built by the parser is an association list, updated in
      place by [result[key] = value]; the mappers only ever read
      properties by name.  JavaScript's prototype machinery (a key named
      [__proto__], an own property shadowing [toString]) is outside the
      model.
    - The built-ins whose behaviour is numeric or implementation-defined
      ([Number], [String] on a number, [Date.parse], the clock) are the
      methods of a [JsRuntime]; general theorems hold for every runtime,
      and [Ref.runtime] is a small executable one used to run examples. *)

From Stdlib Require Import String Ascii List ZArith NArith Bool Lia.
From Stdlib Require Import Sorted Permutation DecimalString.
Import ListNotations.

Open Scope list_scope.
Open Scope string_scope.

(* ================================================================= *)
(** ** Exceptions and results *)

Inductive exn : Type :=
| Error (message : string)        (* [throw new Error(message)] *)
| RangeError (message : string)   (* raised by [Date.prototype.toISOString] *)
| OutOfFuel.                      (* recursion budget of the model; never surfaces, see [parse_terminates] *)

Inductive result (A : Type) : Type :=
| Ok (a : A)
| Throw (e : exn).

Arguments Ok {A} a.
Arguments Throw {A} e.

Definition bind {A B : Type} (m : result A) (k : A -> result B) : result B :=
  match m with
  | Ok a => k a
  | Throw e => Throw e
  end.

Notation "x <- m ;; k" := (bind m (fun x => k))
  (at level 61, m at next level, right associativity).
Notation "' p <- m ;; k" := (bind m (fun x => match x with p => k end))
  (at level 61, p pattern, m at next level, right associativity).

(** [error instanceof Error ? error.message : String(error)] in a [catch]
    clause, for the exceptions this code throws. *)
Definition exnMessage (e : exn) : string :=
  match e with
  | Error message | RangeError message => message
  | OutOfFuel => EmptyString
  end.

(* ================================================================= *)
(** ** Characters and strings *)

Definition DQUOTE : ascii := Eval cbv in ascii_of_nat 34.
Definition BACKSLASH : ascii := Eval cbv in ascii_of_nat 92.
Definition LF : ascii := Eval cbv in ascii_of_nat 10.
Definition CR : ascii := Eval cbv in ascii_of_nat 13.
Definition TAB : ascii := Eval cbv in ascii_of_nat 9.

Definition str1 (c : ascii) : string := String c EmptyString.

(** [quoted s] is [s] between two double quotes, as it is written in the
    bridge's output. *)
Definition quoted (s : string) : string := String DQUOTE (s ++ str1 DQUOTE).

(** [/\s/.test(char)] on a code unit below 256. *)
Definition isSpace (c : ascii) : bool :=
  match N_of_ascii c with
  | 9 | 10 | 11 | 12 | 13 | 32 | 160 => true
  | _ => false
  end%N.

Definition inRange (lo hi : N) (c : ascii) : bool :=
  ((lo <=? N_of_ascii c) && (N_of_ascii c <=? hi))%N.

(** [/[0-9]/.test(char)] *)
Definition isDigitChar (c : ascii) : bool := inRange 48 57 c.

(** [/[A-Za-z0-9_]/.test(char)] *)
Definition isKeyChar (c : ascii) : bool :=
  inRange 65 90 c || inRange 97 122 c || inRange 48 57 c || Ascii.eqb c "_".

Fixpoint dropString (n : nat) (s : string) : string :=
  match n, s with
  | O, _ => s
  | S n', String _ s' => dropString n' s'
  | S _, EmptyString => EmptyString
  end.

(** The longest prefix of [s] whose characters satisfy [p], and the rest. *)
Fixpoint span (p : ascii -> bool) (s : string) : string * string :=
  match s with
  | EmptyString => (EmptyString, EmptyString)
  | String c s' =>
      if p c then let '(w, r) := span p s' in (String c w, r)
      else (EmptyString, s)
  end.

Fixpoint allDigits (s : string) : bool :=
  match s with
  | EmptyString => true
  | String c s' => inRange 48 57 c && allDigits s'
  end.

(** The text after [c], when [s] starts with [c]; in the parser,
    [if (this.peek() === c) this.index += 1]. *)
Definition accept (c : ascii) (s : string) : option string :=
  match s with
  | String c' s' => if Ascii.eqb c' c then Some s' else None
  | EmptyString => None
  end.

Definition isEmpty (s : string) : bool :=
  match s with EmptyString => true | _ => false end.

Fixpoint allSpace (s : string) : bool :=
  match s with
  | EmptyString => true
  | String c s' => isSpace c && allSpace s'
  end.

(** [String.prototype.trimStart], [trimEnd] and [trim]. *)
Fixpoint trimStart (s : string) : string :=
  match s with
  | EmptyString => EmptyString
  | String c s' => if isSpace c then trimStart s' else s
  end.

Fixpoint trimEnd (s : string) : string :=
  match s with
  | EmptyString => EmptyString
  | String c s' => if allSpace s then EmptyString else String c (trimEnd s')
  end.

Definition trim (s : string) : string := trimStart (trimEnd s).

(** [String.prototype.toLowerCase] on code units below 256. *)
Definition lowerChar (c : ascii) : ascii :=
  let n := N_of_ascii c in
  if inRange 65 90 c then ascii_of_N (n + 32)
  else if inRange 192 222 c && negb (n =? 215)%N then ascii_of_N (n + 32)
  else c.

Fixpoint toLowerCase (s : string) : string :=
  match s with
  | EmptyString => EmptyString
  | String c s' => String (lowerChar c) (toLowerCase s')
  end.

(** [Array.prototype.join]. *)
Fixpoint join (sep : string) (l : list string) : string :=
  match l with
  | [] => EmptyString
  | [x] => x
  | x :: l' => x ++ sep ++ join sep l'
  end.

(** Keyed stores that remember insertion order (an object's own
    properties, a [Map]).  Writing an existing key keeps its place and
    replaces its value; a new key goes to the end. *)
Fixpoint assocGet {V : Type} (key : string) (entries : list (string * V)) : option V :=
  match entries with
  | [] => None
  | (k, v) :: rest => if String.eqb k key then Some v else assocGet key rest
  end.

Fixpoint assocSet {V : Type} (key : string) (v : V) (entries : list (string * V))
  : list (string * V) :=
  match entries with
  | [] => [(key, v)]
  | (k, w) :: rest =>
      if String.eqb k key then (k, v) :: rest else (k, w) :: assocSet key v rest
  end.

(** [text.includes(search)] *)
Fixpoint includesText (text search : string) : bool :=
  String.prefix search text
  || match text with
     | EmptyString => false
     | String _ text' => includesText text' search
     end.

(** [p] holds of every character of [s]; of some character of [s]
    ([/[...]/.test(s)]). *)
Fixpoint allChars (p : ascii -> bool) (s : string) : bool :=
  match s with
  | EmptyString => true
  | String c s' => p c && allChars p s'
  end.

Fixpoint existsChar (p : ascii -> bool) (s : string) : bool :=
  match s with
  | EmptyString => false
  | String c s' => p c || existsChar p s'
  end.

(** [s.replace(/[^...]/g, empty)]: the characters of the class [keep]
    stay. *)
Fixpoint filterString (keep : ascii -> bool) (s : string) : string :=
  match s with
  | EmptyString => EmptyString
  | String c s' => if keep c then String c (filterString keep s') else filterString keep s'
  end.

(** [s.replace(/C+/g, by)] for a character class [C]: every maximal run
    of characters of the class becomes [by].  [inRun] tells that the
    character before [s] belongs to a run already replaced. *)
Fixpoint replaceRuns (class : ascii -> bool) (by_ : string) (inRun : bool) (s : string)
  : string :=
  match s with
  | EmptyString => EmptyString
  | String c s' =>
      if class c then
        if inRun then replaceRuns class by_ true s'
        else by_ ++ replaceRuns class by_ true s'
      else String c (replaceRuns class by_ false s')
  end.

(** [s.split(/\s+/)]: the pieces between the maximal runs of whitespace,
    an empty piece standing before a leading run and after a trailing
    one; the empty text gives one empty piece.  [piece] is the piece
    being read, [inRun] tells that the character before [s] is
    whitespace. *)
Fixpoint splitOnSpace (inRun : bool) (piece : string) (s : string) : list string :=
  match s with
  | EmptyString => [piece]
  | String c s' =>
      if isSpace c then
        if inRun then splitOnSpace true piece s'
        else piece :: splitOnSpace true EmptyString s'
      else splitOnSpace false (piece ++ str1 c) s'
  end.

(** [JSON.stringify(text)] on a string (QuoteJSONString of ECMA-262):
    the quote and the backslash are escaped, the control characters are
    written with their short escape or as four hexadecimal digits. *)
Definition hexDigit (n : N) : ascii :=
  if (n <? 10)%N then ascii_of_N (48 + n) else ascii_of_N (87 + n).

Definition jsonEscape (c : ascii) : string :=
  let n := N_of_ascii c in
  if Ascii.eqb c DQUOTE then String BACKSLASH (str1 DQUOTE)
  else if Ascii.eqb c BACKSLASH then String BACKSLASH (str1 BACKSLASH)
  else if (n =? 8)%N then String BACKSLASH "b"
  else if (n =? 9)%N then String BACKSLASH "t"
  else if (n =? 10)%N then String BACKSLASH "n"
  else if (n =? 12)%N then String BACKSLASH "f"
  else if (n =? 13)%N then String BACKSLASH "r"
  else if (n <? 32)%N then
    String BACKSLASH ("u00" ++ String (hexDigit (n / 16)) (str1 (hexDigit (n mod 16))))
  else str1 c.

Fixpoint jsonQuoteBody (s : string) : string :=
  match s with
  | EmptyString => EmptyString
  | String c s' => jsonEscape c ++ jsonQuoteBody s'
  end.

Definition JSON_stringify (s : string) : string := quoted (jsonQuoteBody s).

(* ================================================================= *)
(** ** The JavaScript runtime *)

(** The time value of a [Date]: [None] is NaN (an Invalid Date), [Some t]
    is [t] milliseconds since the epoch. *)
Definition timeValue : Type := option Z.

Class JsRuntime : Type := {
  number : Type;
  (** [Number(text)] *)
  Number_of_string : string -> number;
  (** [String(n)] *)
  String_of_number : number -> string;
  (** [Number.isFinite(n)] *)
  Number_isFinite : number -> bool;
  (** [Number.isNaN(n)] *)
  Number_isNaN : number -> bool;
  (** [n !== 0] *)
  Number_nonzero : number -> bool;
  (** the time value of [new Date(n * 1000)] *)
  Date_ofSeconds : number -> timeValue;
  (** [Date.parse(text)] *)
  Date_parse : string -> timeValue;
  (** the text of [new Date(t).toISOString()] for a valid time [t] *)
  Date_isoText : Z -> string;
  (** the time value of [new Date()] *)
  Date_now : Z;
}.

(** [date.toISOString()] throws a RangeError on an Invalid Date. *)
Definition toISOString `{JsRuntime} (t : timeValue) : result string :=
  match t with
  | Some ms => Ok (Date_isoText ms)
  | None => Throw (RangeError "Invalid time value")
  end.

(* ================================================================= *)
(** ** Values *)

(** [type AppleScriptValue] (notes.ts:61-65). *)
#[local] Set Warnings "-register-all".
Inductive AppleScriptValue `{JsRuntime} : Type :=
| VNull
| VBool (b : bool)
| VNumber (n : number)
| VString (s : string)
| VList (items : list AppleScriptValue)
| VRecord (fields : list (string * AppleScriptValue)).

(** A property read [record.key]: [None] is [undefined]. *)
Definition getField `{JsRuntime} (key : string) (fields : list (string * AppleScriptValue))
  : option AppleScriptValue := assocGet key fields.

(** The assignment [result[key] = value]. *)
Definition setField `{JsRuntime} (key : string) (v : AppleScriptValue)
  (fields : list (string * AppleScriptValue)) : list (string * AppleScriptValue) :=
  assocSet key v fields.

(* ================================================================= *)
(** ** The parser: [class AppleScriptSourceParser] (notes.ts:67-342) *)

Module Parser.
Section WithRuntime.
Context `{RT : JsRuntime}.

Definition state (A : Type) : Type := result (A * string).

(** [peek()] (notes.ts:327) *)
Definition peek (s : string) : option ascii :=
  match s with
  | EmptyString => None
  | String c _ => Some c
  end.

(** [isDigit(char)] and [isWhitespaceChar(char)] (notes.ts:335-341): false
    on [undefined]. *)
Definition isDigit (c : option ascii) : bool :=
  match c with Some c => isDigitChar c | None => false end.

Definition isWhitespaceChar (c : option ascii) : bool :=
  match c with Some c => isSpace c | None => false end.

(** [startsWith(value)] (notes.ts:331) *)
Definition startsWith (value s : string) : bool := String.prefix value s.

(** [skipWhitespace()] (notes.ts:293) *)
Fixpoint skipWhitespace (s : string) : string :=
  match s with
  | EmptyString => EmptyString
  | String c s' => if isWhitespaceChar (Some c) then skipWhitespace s' else s
  end.

(** [consume(expected?)] (notes.ts:315) *)
Definition consume (expected : option ascii) (s : string) : state ascii :=
  match s with
  | EmptyString => Throw (Error "Unexpected end of AppleScript result")
  | String c s' =>
      match expected with
      | Some e =>
          if Ascii.eqb c e then Ok (c, s')
          else Throw (Error ("Expected " ++ quoted (str1 e) ++ " but found "
                               ++ quoted (str1 c) ++ " in AppleScript result"))
      | None => Ok (c, s')
      end
  end.

(** The [switch] of [parseString] (notes.ts:234-252). *)
Definition unescapeChar (next : ascii) : ascii :=
  if Ascii.eqb next DQUOTE then DQUOTE
  else if Ascii.eqb next BACKSLASH then BACKSLASH
  else if Ascii.eqb next "n" then LF
  else if Ascii.eqb next "r" then CR
  else if Ascii.eqb next "t" then TAB
  else next.

(** The [while] loop of [parseString] (notes.ts:227-256); [acc] is
    [result]. *)
Fixpoint parseStringLoop (acc : string) (s : string) : state string :=
  match s with
  | EmptyString => Throw (Error "Unterminated string literal in AppleScript result")
  | String c s' =>
      if Ascii.eqb c DQUOTE then Ok (acc, s')
      else if Ascii.eqb c BACKSLASH then
        match s' with
        | EmptyString => Throw (Error "Unexpected end of AppleScript result")
        | String next s'' => parseStringLoop (acc ++ str1 (unescapeChar next)) s''
        end
      else parseStringLoop (acc ++ str1 c) s'
  end.

(** [parseString()] (notes.ts:224) *)
Definition parseString (s : string) : state string :=
  '(_, s1) <- consume (Some DQUOTE) s ;;
  parseStringLoop EmptyString s1.

(** [parseNumber()] (notes.ts:260) *)
Definition parseNumber (s : string) : state number :=
  let '(sign, s1) :=
    match accept "-" s with
    | Some s' => ("-", s')
    | None => (EmptyString, s)
    end in
  let '(whole, s2) := span isDigitChar s1 in
  let '(fraction, s3) :=
    match accept "." s2 with
    | Some s' => let '(digits, r) := span isDigitChar s' in ("." ++ digits, r)
    | None => (EmptyString, s2)
    end in
  Ok (Number_of_string (sign ++ whole ++ fraction), s3).

(** [parseBareword()] (notes.ts:278) *)
Definition isBarewordChar (c : ascii) : bool :=
  negb (Ascii.eqb c "," || Ascii.eqb c "}" || isWhitespaceChar (Some c)).

Definition parseBareword (s : string) : state string :=
  let '(word, rest) := span isBarewordChar s in
  if isEmpty word then Throw (Error "Unable to parse AppleScript value")
  else Ok (word, rest).

(** [parseKey()] (notes.ts:201) *)
Definition parseKey (s : string) : state string :=
  let s := skipWhitespace s in
  match peek s with
  | None => Throw (Error "Unexpected end while parsing key")
  | Some c =>
      if Ascii.eqb c DQUOTE then parseString s
      else
        let '(key, rest) := span isKeyChar s in
        if isEmpty key then Throw (Error "Invalid record key in AppleScript result")
        else Ok (key, rest)
  end.

(** [skipStringFrom(position)] (notes.ts:299); the argument is the text
    after the opening quote, the result the text after the closing one. *)
Fixpoint skipStringLoop (s : string) : result string :=
  match s with
  | EmptyString => Throw (Error "Unterminated string literal detected while scanning")
  | String c s' =>
      if Ascii.eqb c BACKSLASH then
        match s' with
        | EmptyString => Throw (Error "Unterminated string literal detected while scanning")
        | String _ s'' => skipStringLoop s''
        end
      else if Ascii.eqb c DQUOTE then Ok s'
      else skipStringLoop s'
  end.

Definition skipStringFrom (s : string) : result string :=
  skipStringLoop (dropString 1 s).

(** The loop of [isRecordCollection()] (notes.ts:167-197): [s] is the text
    from [position] on. *)
Fixpoint scanCollection (fuel : nat) (depth : nat) (s : string) : result bool :=
  match fuel with
  | O => Throw OutOfFuel
  | S fuel' =>
      match s with
      | EmptyString => Ok false
      | String c s' =>
          if isWhitespaceChar (Some c) then scanCollection fuel' depth s'
          else if Ascii.eqb c DQUOTE then
            s1 <- skipStringFrom s ;; scanCollection fuel' depth s1
          else if Ascii.eqb c "{" then scanCollection fuel' (depth + 1) s'
          else if Ascii.eqb c "}" then
            if Nat.eqb depth 0 then Ok false
            else scanCollection fuel' (depth - 1) s'
          else if Nat.eqb depth 0 && Ascii.eqb c ":" then Ok true
          else if Nat.eqb depth 0 && Ascii.eqb c "," then Ok false
          else scanCollection fuel' depth s'
      end
  end.

(** The loop run from [position] at nesting depth [depth]; the text left
    bounds the number of its iterations. *)
Definition scanFrom (depth : nat) (s : string) : result bool :=
  scanCollection (S (String.length s)) depth s.

(** [isRecordCollection()] (notes.ts:164) *)
Definition isRecordCollection (s : string) : result bool := scanFrom 0 s.

(** The grammar proper.  [classify] is the call [this.isRecordCollection()]
    made by [parseCollection]; [parseValue] below instantiates it with
    [isRecordCollection]. *)
Section Grammar.
Variable classify : string -> result bool.

Section Loops.
Variable parseValue : string -> state AppleScriptValue.

(** The list loop of [parseCollection] (notes.ts:148-158). *)
Fixpoint parseItems (fuel : nat) (items : list AppleScriptValue) (s : string)
  : state (list AppleScriptValue) :=
  match fuel with
  | O => Throw OutOfFuel
  | S fuel' =>
      '(value, s1) <- parseValue s ;;
      let items := (items ++ [value])%list in
      let s2 := skipWhitespace s1 in
      match accept "," s2 with
      | Some s3 => parseItems fuel' items s3
      | None => Ok (items, s2)
      end
  end.

(** The record loop of [parseCollection] (notes.ts:128-141). *)
Fixpoint parseFields (fuel : nat) (record : list (string * AppleScriptValue))
  (s : string) : state (list (string * AppleScriptValue)) :=
  match fuel with
  | O => Throw OutOfFuel
  | S fuel' =>
      '(key, s1) <- parseKey s ;;
      let s2 := skipWhitespace s1 in
      '(_, s3) <- consume (Some ":"%char) s2 ;;
      '(value, s4) <- parseValue s3 ;;
      let record := setField key value record in
      let s5 := skipWhitespace s4 in
      match accept "," s5 with
      | Some s6 => parseFields fuel' record s6
      | None => Ok (record, s5)
      end
  end.

(** [parseCollection()] (notes.ts:116); the empty collection is answered
    at notes.ts:119-122, before [isRecordCollection] is called. *)
Definition parseCollection (fuel : nat) (s : string) : state AppleScriptValue :=
  '(_, s1) <- consume (Some "{"%char) s ;;
  let s2 := skipWhitespace s1 in
  match accept "}" s2 with
  | Some s3 => Ok (VList [], s3)
  | None =>
      isRecord <- classify s2 ;;
      if isRecord : bool then
        '(record, s3) <- parseFields fuel [] s2 ;;
        let s4 := skipWhitespace s3 in
        '(_, s5) <- consume (Some "}"%char) s4 ;;
        Ok (VRecord record, s5)
      else
        '(items, s3) <- parseItems fuel [] s2 ;;
        let s4 := skipWhitespace s3 in
        '(_, s5) <- consume (Some "}"%char) s4 ;;
        Ok (VList items, s5)
  end.

End Loops.

(** [parseValue()] (notes.ts:82) *)
Fixpoint parseValueWith (fuel : nat) (s : string) : state AppleScriptValue :=
  match fuel with
  | O => Throw OutOfFuel
  | S fuel' =>
      let s := skipWhitespace s in
      match peek s with
      | None => Throw (Error "Unexpected end of AppleScript result")
      | Some char =>
          if Ascii.eqb char "{" then parseCollection (parseValueWith fuel') fuel' s
          else if Ascii.eqb char DQUOTE then
            '(text, rest) <- parseString s ;; Ok (VString text, rest)
          else if startsWith "missing value" s then
            Ok (VNull, dropString (String.length "missing value") s)
          else if startsWith "true" s then
            Ok (VBool true, dropString (String.length "true") s)
          else if startsWith "false" s then
            Ok (VBool false, dropString (String.length "false") s)
          else if Ascii.eqb char "-" || isDigit (Some char) then
            '(n, rest) <- parseNumber s ;; Ok (VNumber n, rest)
          else
            '(word, rest) <- parseBareword s ;; Ok (VString word, rest)
      end
  end.

(** [parse()] (notes.ts:72) *)
Definition parseWith (input : string) : result AppleScriptValue :=
  let s := skipWhitespace input in
  '(value, rest) <- parseValueWith (S (String.length s)) s ;;
  let rest := skipWhitespace rest in
  if isEmpty rest then Ok value
  else Throw (Error "Unexpected trailing content in AppleScript result").

End Grammar.

Definition parseValue : nat -> string -> state AppleScriptValue :=
  parseValueWith isRecordCollection.

Definition parse : string -> result AppleScriptValue :=
  parseWith isRecordCollection.

End WithRuntime.
End Parser.

(** [trimmed.replace(pattern, empty)] (notes.ts:363), the pattern being:
    start of the text, the two characters [=>], any run of whitespace. *)
Definition stripPrefix (trimmed : string) : string :=
  match accept "=" trimmed with
  | Some after =>
      match accept ">" after with
      | Some rest => trimStart rest
      | None => trimmed
      end
  | None => trimmed
  end.

(** [parseAppleScriptResult(raw)] (notes.ts:344); [None] is [undefined].
    A value of the embedding is null, an array, an object, a string, a
    number or a boolean, so [typeof raw !== "string"] is left with the
    numbers and the booleans. *)
Definition parseAppleScriptResult `{JsRuntime} (raw : option AppleScriptValue)
  : result AppleScriptValue :=
  match raw with
  | None | Some VNull => Ok VNull
  | Some (VList items) => Ok (VList items)
  | Some (VRecord fields) => Ok (VRecord fields)
  | Some (VString text) =>
      let trimmed := trim text in
      if isEmpty trimmed then Ok VNull
      else Parser.parse (stripPrefix trimmed)
  | Some _ => Throw (Error "Unsupported AppleScript return type")
  end.

(* ================================================================= *)
(** ** JavaScript conversions on values *)

Section Conversions.
Context `{RT : JsRuntime}.

(** [String(value)]: an array joins the texts of its elements with commas
    (null elements give the empty text), any other object is
    [[object Object]]. *)
Fixpoint ToString (v : AppleScriptValue) : string :=
  match v with
  | VNull => "null"
  | VBool b => if b then "true" else "false"
  | VNumber n => String_of_number n
  | VString s => s
  | VList items =>
      join ","
        (map (fun item => match item with VNull => EmptyString | _ => ToString item end)
             items)
  | VRecord _ => "[object Object]"
  end.

(** Truthiness of a value, as tested by [!value], [a && b], [a || b]. *)
Definition truthy (value : option AppleScriptValue) : bool :=
  match value with
  | None | Some VNull => false
  | Some (VBool b) => b
  | Some (VNumber n) => Number_nonzero n && negb (Number_isNaN n)
  | Some (VString s) => negb (isEmpty s)
  | Some (VList _) | Some (VRecord _) => true
  end.

(** [typeof value === "object"]: null, the arrays and the other objects. *)
Definition typeofObject (value : AppleScriptValue) : bool :=
  match value with
  | VNull | VList _ | VRecord _ => true
  | _ => false
  end.

(** [Array.isArray(value)] *)
Definition isArray (value : AppleScriptValue) : bool :=
  match value with VList _ => true | _ => false end.

(** [item !== null && typeof item === "object"], the filter of every
    mapper. *)
Definition isObjectItem (item : AppleScriptValue) : bool :=
  match item with VNull => false | _ => typeofObject item end.

(** A property read [record.key] on a value that passed [isObjectItem]:
    an array has none of the properties the mappers read. *)
Definition prop (record : AppleScriptValue) (key : string) : option AppleScriptValue :=
  match record with
  | VRecord fields => getField key fields
  | _ => None
  end.

(** [a ?? b] *)
Definition nullish (a b : option AppleScriptValue) : option AppleScriptValue :=
  match a with
  | None | Some VNull => b
  | _ => a
  end.

(** [text || undefined], [text || null] *)
Definition nonEmpty (text : string) : option string :=
  if isEmpty text then None else Some text.

(** [text || fallback] for a text that may be undefined. *)
Definition orElse (text : option string) (fallback : string) : string :=
  match text with
  | Some t => if isEmpty t then fallback else t
  | None => fallback
  end.

(** [coerceString(value, fallback)] (notes.ts:392, 927, 1627 and
    mail.ts:117, 697: five identical copies). *)
Definition coerceString (value : option AppleScriptValue) (fallback : string) : string :=
  match value with
  | Some (VString s) => s
  | None | Some VNull => fallback
  | Some v => ToString v
  end.

Definition includes (x : string) (l : list string) : bool :=
  existsb (String.eqb x) l.

(** [toNumber(value)] (notes.ts:421, 956) and [coerceNumber(value)]
    (notes.ts:1656), which differ only in writing the missing answer
    [null] or [undefined]. *)
Definition toNumber (value : option AppleScriptValue) : option number :=
  match value with
  | Some (VNumber n) => if Number_isFinite n then Some n else None
  | Some (VString s) =>
      if negb (isEmpty (trim s)) then
        let parsed := Number_of_string s in
        if negb (Number_isNaN parsed) then Some parsed else None
      else None
  | _ => None
  end.

(** [parseDateInput(value)] (notes.ts:442, 977); [value] is [None] when
    undefined, and the answer is the time of the date, [None] for
    [null]. *)
Definition parseDateInput (value : option string) : option Z :=
  match value with
  | None => None
  | Some text => if isEmpty text then None else Date_parse text
  end.

End Conversions.

(* ================================================================= *)
(** ** [Array.prototype.sort] *)

(** The sort is stable, and with a consistent comparator its result is
    the one stable sorted arrangement; a stable insertion sort stands for
    it.  A comparator answer NaN ([None]) counts as +0.  With an
    inconsistent comparator the order is implementation-defined, and
    nothing is stated about it. *)
Section Sort.
Context {A : Type}.
Variable compareFn : A -> A -> option Z.

Definition sortCompare (x y : A) : Z :=
  match compareFn x y with
  | Some v => v
  | None => 0%Z
  end.

Fixpoint insertSorted (x : A) (sorted : list A) : list A :=
  match sorted with
  | [] => [x]
  | y :: rest =>
      if (sortCompare x y <=? 0)%Z then x :: y :: rest
      else y :: insertSorted x rest
  end.

Fixpoint sort (l : list A) : list A :=
  match l with
  | [] => []
  | x :: rest => insertSorted x (sort rest)
  end.

End Sort.

(** [array.slice(0, n)] *)
Definition sliceTo {A : Type} (n : Z) (l : list A) : list A := firstn (Z.to_nat n) l.

(* ================================================================= *)
(** ** Notes (notes.ts:1-833) *)

Module Notes.

Record Note : Type := {
  name : string;
  content : string;
  creationDate : option timeValue;      (* a [Date], by its time value *)
  modificationDate : option timeValue;
  folderName : option string;
  id : option string;
}.

Definition MAX_NOTES : Z := 50.

Section WithRuntime.
Context `{RT : JsRuntime}.

(** [toDateFromUnix(value)] (notes.ts:434) *)
Definition toDateFromUnix (value : option AppleScriptValue) : option timeValue :=
  match toNumber value with
  | None => None
  | Some unixSeconds => Some (Date_ofSeconds unixSeconds)
  end.

(** The records gathered by [mapNoteRecords] (notes.ts:454-464). *)
Definition noteRecords (raw : AppleScriptValue) : list AppleScriptValue :=
  match raw with
  | VList items => filter isObjectItem items
  | _ => if truthy (Some raw) && typeofObject raw then [raw] else []
  end.

(** The callback of [records.map] (notes.ts:466-482). *)
Definition toNote (record : AppleScriptValue) : Note :=
  let name := coerceString (prop record "name") "Untitled Note" in
  let content := coerceString (prop record "content") EmptyString in
  let folderName := coerceString (prop record "folderName") EmptyString in
  let id := coerceString (prop record "id") EmptyString in
  let creationDate := toDateFromUnix (prop record "creationDate") in
  let modificationDate := toDateFromUnix (prop record "modificationDate") in
  {| name := name;
     content := content;
     folderName := nonEmpty folderName;
     id := nonEmpty id;
     creationDate := creationDate;
     modificationDate := modificationDate |}.

(** [a.modificationDate?.getTime() ?? a.creationDate?.getTime() ?? 0]
    (notes.ts:485); [None] is NaN. *)
Definition noteTime (a : Note) : timeValue :=
  match modificationDate a with
  | Some time => time
  | None =>
      match creationDate a with
      | Some time => time
      | None => Some 0%Z
      end
  end.

(** The comparator [bTime - aTime] (notes.ts:484-488). *)
Definition compareNotes (a b : Note) : option Z :=
  match noteTime b, noteTime a with
  | Some bTime, Some aTime => Some (bTime - aTime)%Z
  | _, _ => None
  end.

(** [mapNoteRecords(raw)] (notes.ts:453) *)
Definition mapNoteRecords (raw : AppleScriptValue) : list Note :=
  sort compareNotes (map toNote (noteRecords raw)).

(** [fetchNotes], from the script's answer on (notes.ts:634-646).
    [limit] and [sanitizedFolder] are [None] when undefined. *)
Definition maxNotes (limit : option Z) : Z :=
  Z.max 1 (Z.min (match limit with Some l => l | None => MAX_NOTES end) MAX_NOTES).

Definition fetchNotesResult (limit : option Z) (sanitizedFolder : option string)
  (rawResult : AppleScriptValue) : result (list Note) :=
  _ <- (if truthy (Some rawResult) && typeofObject rawResult && negb (isArray rawResult)
        then
          let status := coerceString (prop rawResult "status") EmptyString in
          if String.eqb status "error" then
            let reason := coerceString (prop rawResult "reason") EmptyString in
            if String.eqb reason "folder_not_found" then
              Throw (Error ("Could not find a Notes folder named "
                              ++ quoted (match sanitizedFolder with
                                         | Some folder => folder
                                         | None => "undefined"
                                         end) ++ "."))
            else Throw (Error (if isEmpty reason then "Notes operation failed." else reason))
          else Ok tt
        else Ok tt) ;;
  let notes := mapNoteRecords rawResult in
  Ok (sliceTo (maxNotes limit) notes).

(** [fetchNotes] (notes.ts:548) from the text the bridge answers on:
    the text goes through [runAppleScriptParsed] (notes.ts:368), which
    hands it to [parseAppleScriptResult]. *)
Definition fetchNotes (limit : option Z) (folderName : option string) (answer : string)
  : result (list Note) :=
  rawResult <- parseAppleScriptResult (Some (VString answer)) ;;
  fetchNotesResult limit (option_map trim folderName) rawResult.

(** The callback of [notes.filter] in [getNotesByDateRange]
    (notes.ts:800-812); [fromMs] and [toMs] are [None] when undefined,
    and a comparison with NaN is false. *)
Definition inDateRange (fromMs toMs : option Z) (note : Note) : bool :=
  let reference :=
    match creationDate note with
    | Some date => Some date
    | None => modificationDate note
    end in
  match reference with
  | None => true
  | Some timestamp =>
      if match fromMs, timestamp with
         | Some lo, Some t => (t <? lo)%Z
         | _, _ => false
         end then false
      else if match toMs, timestamp with
              | Some hi, Some t => (hi <? t)%Z
              | _, _ => false
              end then false
      else true
  end.

(** The [try] block of [getNotesByDateRange] (notes.ts:787), from the
    bridge's text on; what it throws is what the [catch] clause turns
    into [{ success: false, message }].  [limit] is [None] when
    undefined. *)
Definition getNotesByDateRange (folderName : string) (fromDate toDate : option string)
  (limit : option Z) (answer : string) : result (list Note) :=
  notes <- fetchNotes (Some MAX_NOTES) (Some folderName) answer ;;
  let fromMs := parseDateInput fromDate in
  let toMs := parseDateInput toDate in
  let filtered := filter (inDateRange fromMs toMs) notes in
  let limit := match limit with Some l => l | None => 20%Z end in
  Ok (sliceTo (Z.max 1 (Z.min limit MAX_NOTES)) filtered).

(** [coerceBoolean(value, fallback)], the copy of the notes
    (notes.ts:402). *)
Definition coerceBoolean (value : option AppleScriptValue) (fallback : bool) : bool :=
  match value with
  | Some (VBool b) => b
  | Some (VNumber n) => Number_nonzero n
  | Some (VString s) =>
      let normalized := toLowerCase s in
      if includes normalized ["true"; "yes"; "1"] then true
      else if includes normalized ["false"; "no"; "0"] then false
      else fallback
  | _ => fallback
  end.

(** [type CreateNoteResult] (notes.ts:383): [Created] is the object with
    [success: true], [NotCreated] the one with [success: false]. *)
Inductive CreateNoteResult : Type :=
| Created (note : option Note) (folderName : string) (usedDefaultFolder : bool)
| NotCreated (message : string).

(** [createNote(title, body, folderName)] (notes.ts:662), from the
    bridge's text on.  The body only goes into the temporary file the
    script reads; the access check and the writing and removing of that
    file are taken to succeed. *)
Definition createNote (title folderName : string) (answer : string) : CreateNoteResult :=
  let trimmedTitle := trim title in
  if isEmpty trimmedTitle then NotCreated "Note title cannot be empty"
  else
    let sanitizedFolder := trim folderName in
    match parseAppleScriptResult (Some (VString answer)) with
    | Throw e => NotCreated ("Failed to create note: " ++ exnMessage e)
    | Ok rawResult =>
        if negb (truthy (Some rawResult)) || negb (typeofObject rawResult)
           || isArray rawResult
        then NotCreated "Failed to create note: no response from Notes."
        else
          let status := coerceString (prop rawResult "status") EmptyString in
          if negb (String.eqb status "success") then
            let reason := coerceString (prop rawResult "reason") EmptyString in
            NotCreated (if isEmpty reason then "Failed to create note." else reason)
          else
            let mappedNotes :=
              match prop rawResult "noteRecord" with
              | Some noteRecord => mapNoteRecords noteRecord
              | None => []
              end in
            let createdNote := hd_error mappedNotes in
            let folderUsed :=
              orElse match createdNote with
                     | Some {| folderName := folder |} => folder
                     | None => None
                     end
                (orElse (Some sanitizedFolder) "Notes") in
            let usedDefaultFolder := coerceBoolean (prop rawResult "usedDefault") false in
            Created createdNote folderUsed usedDefaultFolder
    end.

End WithRuntime.
End Notes.

(* ================================================================= *)
(** ** Calendar (notes.ts:834-1500) *)

Module Calendar.

(** [interface CalendarEvent] (notes.ts:836); [None] is [null]. *)
Record CalendarEvent : Type := {
  id : string;
  title : string;
  location : option string;
  notes : option string;
  startDate : option string;
  endDate : option string;
  calendarName : string;
  isAllDay : bool;
  url : option string;
}.

Definition MAX_EVENTS : Z := 50.

(** [Number.MAX_SAFE_INTEGER] *)
Definition MAX_SAFE_INTEGER : Z := 9007199254740991.

Section WithRuntime.
Context `{RT : JsRuntime}.

(** [coerceBoolean(value, fallback)] (notes.ts:402, 937) *)
Definition coerceBoolean (value : option AppleScriptValue) (fallback : bool) : bool :=
  match value with
  | Some (VBool b) => b
  | Some (VNumber n) => Number_nonzero n
  | Some (VString s) =>
      let normalized := toLowerCase s in
      if includes normalized ["true"; "yes"; "1"] then true
      else if includes normalized ["false"; "no"; "0"] then false
      else fallback
  | _ => fallback
  end.

(** [toIsoFromUnix(value)] (notes.ts:969) *)
Definition toIsoFromUnix (value : option AppleScriptValue) : result (option string) :=
  match toNumber value with
  | None => Ok None
  | Some unixSeconds =>
      text <- toISOString (Date_ofSeconds unixSeconds) ;;
      Ok (Some text)
  end.

(** [getEventSortKey(event)] (notes.ts:1023) *)
Definition parsedDate (field : option string) : option Z :=
  match field with
  | Some text => if isEmpty text then None else Date_parse text
  | None => None
  end.

Definition getEventSortKey (event : CalendarEvent) : Z :=
  match parsedDate (startDate event) with
  | Some parsed => parsed
  | None =>
      match parsedDate (endDate event) with
      | Some parsed => parsed
      | None => MAX_SAFE_INTEGER
      end
  end.

(** The comparator [getEventSortKey(a) - getEventSortKey(b)]
    (notes.ts:1076). *)
Definition compareEvents (a b : CalendarEvent) : option Z :=
  Some (getEventSortKey a - getEventSortKey b)%Z.

(** The records kept by [mapEventRecords] (notes.ts:1040-1042). *)
Definition eventRecords (raw : AppleScriptValue) : list AppleScriptValue :=
  match raw with
  | VList items => filter isObjectItem items
  | _ => []
  end.

(** The body of the loop up to the event object (notes.ts:1048-1066): the
    raw identifier and the event. *)
Definition toEvent (record : AppleScriptValue) : result (string * CalendarEvent) :=
  let id := coerceString (prop record "id") EmptyString in
  let title := coerceString (prop record "title") "Untitled Event" in
  let location := coerceString (prop record "location") EmptyString in
  let notes := coerceString (prop record "notes") EmptyString in
  let calendarName := coerceString (prop record "calendarName") "Unknown Calendar" in
  let url := coerceString (prop record "url") EmptyString in
  startDate <- toIsoFromUnix (prop record "startDate") ;;
  endDate <- toIsoFromUnix (prop record "endDate") ;;
  Ok (id,
      {| id := if isEmpty id
               then title ++ "-"
                      ++ match startDate with Some text => text | None => "unknown" end
                      ++ "-" ++ calendarName
               else id;
         title := title;
         location := nonEmpty location;
         notes := nonEmpty notes;
         startDate := startDate;
         endDate := endDate;
         calendarName := calendarName;
         isAllDay := coerceBoolean (prop record "isAllDay") false;
         url := nonEmpty url |}).

(** The loop of [mapEventRecords] (notes.ts:1047-1073), threading the
    [Map] [deduped] and the array [fallback]. *)
Fixpoint eventLoop (records : list AppleScriptValue)
  (deduped : list (string * CalendarEvent)) (fallback : list CalendarEvent)
  : result (list (string * CalendarEvent) * list CalendarEvent) :=
  match records with
  | [] => Ok (deduped, fallback)
  | record :: rest =>
      '(id, event) <- toEvent record ;;
      if negb (isEmpty id) then eventLoop rest (assocSet id event deduped) fallback
      else eventLoop rest deduped (fallback ++ [event])%list
  end.

(** [mapEventRecords(raw)] (notes.ts:1039) *)
Definition mapEventRecords (raw : AppleScriptValue) : result (list CalendarEvent) :=
  '(deduped, fallback) <- eventLoop (eventRecords raw) [] [] ;;
  let ordered := (map snd deduped ++ fallback)%list in
  Ok (sort compareEvents ordered).

(** [fetchEvents], from the script's answer on (notes.ts:1241-1269).
    [rawResult] is whatever [runAppleScript] answered, a string included:
    the guard and the mapper are written for any value.  [startMs] and
    [endMs] are [fromDate.getTime()] and [toDate.getTime()]; a comparison
    with NaN is false. *)
Definition maxEvents (limit : Z) : Z := Z.max 1 (Z.min limit MAX_EVENTS).

Definition inRangeEvent (startMs endMs : timeValue) (event : CalendarEvent) : bool :=
  let start := parsedDate (startDate event) in
  let end_ := parsedDate (endDate event) in
  let effectiveStart := match start with None => end_ | Some _ => start end in
  let effectiveEnd := match end_ with None => effectiveStart | Some _ => end_ end in
  match effectiveStart, effectiveEnd with
  | None, None => true
  | Some es, Some ee =>
      match startMs, endMs with
      | Some lo, Some hi => (lo <=? ee)%Z && (es <=? hi)%Z
      | _, _ => false
      end
  | _, _ => false
  end.

Definition fetchEventsResult (limit : Z) (startMs endMs : timeValue)
  (rawResult : AppleScriptValue) : result (list CalendarEvent) :=
  _ <- (if truthy (Some rawResult) && typeofObject rawResult && negb (isArray rawResult)
        then
          let status := coerceString (prop rawResult "status") EmptyString in
          if String.eqb status "error" then
            let reason := coerceString (prop rawResult "reason") EmptyString in
            if String.eqb reason "calendar_not_found" then
              Throw (Error "Could not find a calendar matching the requested name.")
            else Throw (Error (if isEmpty reason then "Calendar operation failed." else reason))
          else Ok tt
        else Ok tt) ;;
  events <- mapEventRecords rawResult ;;
  let filtered := filter (inRangeEvent startMs endMs) events in
  Ok (sliceTo (maxEvents limit) filtered).

(** [ONE_DAY_MS] (notes.ts:855) *)
Definition ONE_DAY_MS : Z := 24 * 60 * 60 * 1000.

(** The time value of [new Date(t)] for an integral number [t]
    (TimeClip): NaN beyond 8.64e15 milliseconds from the epoch. *)
Definition timeClip (t : Z) : timeValue :=
  if (Z.abs t <=? 8640000000000000)%Z then Some t else None.

(** The object [{ start, end }] that [ensureDateRange] returns; [start]
    is never an Invalid Date. *)
Record DateRange : Type := { start : Z; end_ : timeValue }.

(** [ensureDateRange(start, end, fallbackDays)] (notes.ts:988).  The
    dates it is given come from [parseDateInput]: [None] is [null],
    [Some t] a valid date of time [t]. *)
Definition ensureDateRange (start end_ : option Z) (fallbackDays : Z) : DateRange :=
  let startDate := match start with Some t => t | None => Date_now end in
  let defaultEnd := timeClip (startDate + fallbackDays * ONE_DAY_MS) in
  let endCandidate := match end_ with Some t => Some t | None => defaultEnd end in
  if match endCandidate with
     | Some t => (t <=? startDate)%Z
     | None => false
     end
  then {| start := startDate;
          end_ := timeClip (startDate + Z.max 1 fallbackDays * ONE_DAY_MS) |}
  else {| start := startDate; end_ := endCandidate |}.

(** [getEvents(limit, fromDate, toDate)] (notes.ts:1272) and
    [searchEvents(searchText, limit, fromDate, toDate)] (notes.ts:1288),
    from the script's answer on; an argument is [None] when undefined. *)
Definition getEvents (limit : option Z) (fromDate toDate : option string)
  (rawResult : AppleScriptValue) : result (list CalendarEvent) :=
  let parsedFrom := parseDateInput fromDate in
  let parsedTo := parseDateInput toDate in
  let range := ensureDateRange parsedFrom parsedTo 7 in
  fetchEventsResult (Z.max 1 (match limit with Some l => l | None => 10%Z end))
    (Some (start range)) (end_ range) rawResult.

Definition searchEvents (searchText : string) (limit : option Z)
  (fromDate toDate : option string) (rawResult : AppleScriptValue)
  : result (list CalendarEvent) :=
  let trimmed := trim searchText in
  if isEmpty trimmed then Ok []
  else
    let parsedFrom := parseDateInput fromDate in
    let parsedTo := parseDateInput toDate in
    let range := ensureDateRange parsedFrom parsedTo 30 in
    fetchEventsResult (Z.max 1 (match limit with Some l => l | None => 10%Z end))
      (Some (start range)) (end_ range) rawResult.

End WithRuntime.
End Calendar.

(* ================================================================= *)
(** ** Reminders (notes.ts:1501-2134) *)

Module Reminders.

(** [interface Reminder] (notes.ts:1518) *)
Record Reminder `{JsRuntime} : Type := {
  name : string;
  id : string;
  body : string;
  completed : bool;
  dueDate : option string;
  listName : string;
  completionDate : option string;
  creationDate : option string;
  modificationDate : option string;
  remindMeDate : option string;
  priority : option number;
}.

Section WithRuntime.
Context `{RT : JsRuntime}.

(** [coerceBoolean(value, fallback)] (notes.ts:1637, mail.ts:98, 678) *)
Definition coerceBoolean (value : option AppleScriptValue) (fallback : bool) : bool :=
  match value with
  | Some (VBool b) => b
  | Some (VString s) =>
      let normalized := toLowerCase s in
      if String.eqb normalized "true" || String.eqb normalized "yes" then true
      else if String.eqb normalized "false" || String.eqb normalized "no" then false
      else fallback
  | Some (VNumber n) => Number_nonzero n
  | _ => fallback
  end.

(** [coerceNumber(value)] (notes.ts:1656) *)
Definition coerceNumber (value : option AppleScriptValue) : option number :=
  toNumber value.

(** [toIsoString(value)] (notes.ts:1669).  No value of the embedding is a
    [Date], and [Date.parse] answers a valid time or NaN, so the final
    [toISOString] cannot throw. *)
Definition toIsoString (value : option AppleScriptValue) : option string :=
  if negb (truthy value) then None
  else
    let asString := coerceString value EmptyString in
    if isEmpty asString then None
    else
      match Date_parse asString with
      | None => None
      | Some parsed => Some (Date_isoText parsed)
      end.

(** The callback of [.map] (notes.ts:1695-1721). *)
Definition toReminder (fallbackListName : option string) (record : AppleScriptValue)
  : Reminder :=
  {| name := coerceString (prop record "name") "Untitled Reminder";
     id := coerceString (prop record "id") EmptyString;
     body := coerceString (prop record "body") EmptyString;
     completed := coerceBoolean (prop record "completed") false;
     dueDate := toIsoString (prop record "dueDate");
     listName :=
       coerceString (prop record "listName")
         (match fallbackListName with
          | Some text => if isEmpty text then "Reminders" else text
          | None => "Reminders"
          end);
     completionDate := toIsoString (prop record "completionDate");
     creationDate := toIsoString (prop record "creationDate");
     modificationDate := toIsoString (prop record "modificationDate");
     remindMeDate := toIsoString (prop record "remindMeDate");
     priority := coerceNumber (prop record "priority") |}.

(** [mapReminderRecords(raw, fallbackListName)] (notes.ts:1687); a value
    that is not an array is first wrapped into one. *)
Definition mapReminderRecords (raw : AppleScriptValue) (fallbackListName : option string)
  : list Reminder :=
  let items :=
    match raw with
    | VList items => items
    | _ => if truthy (Some raw) && typeofObject raw then [raw] else []
    end in
  filter (fun reminder => negb (isEmpty (id reminder)) || negb (isEmpty (name reminder)))
         (map (toReminder fallbackListName) (filter isObjectItem items)).

(** [fetchReminders], from the script's answer on (notes.ts:1852-1863);
    [rawResult] is again any value. *)
Definition fetchRemindersResult (sanitizedListName : option string)
  (rawResult : AppleScriptValue) : result (list Reminder) :=
  _ <- (if truthy (Some rawResult) && typeofObject rawResult && negb (isArray rawResult)
        then
          let status := coerceString (prop rawResult "status") EmptyString in
          if String.eqb status "error" then
            let reason := coerceString (prop rawResult "reason") EmptyString in
            if String.eqb reason "list_not_found" then
              Throw (Error "Could not find the specified reminders list.")
            else Throw (Error (if isEmpty reason
                               then "An unknown Reminders error occurred." else reason))
          else Ok tt
        else Ok tt) ;;
  Ok (mapReminderRecords rawResult sanitizedListName).

(** [toAppleScriptString(value)] (notes.ts:1623, mail.ts:94); [None] is
    a null or undefined value. *)
Definition toAppleScriptString (value : option string) : string :=
  JSON_stringify (match value with Some text => text | None => EmptyString end).

(** [createReminder(name, listName, notes, dueDate)] (notes.ts:1998),
    from the script's answer on; the notes only go into the script. *)
Definition createReminder (name listName : string) (dueDate : option string)
  (rawResult : AppleScriptValue) : result Reminder :=
  if isEmpty name || isEmpty (trim name)
  then Throw (Error "Reminder name cannot be empty")
  else
    let trimmedList := trim listName in
    _ <- (match dueDate with
          | Some text =>
              if isEmpty text then Ok tt
              else
                match Date_parse text with
                | None => Throw (Error "Invalid due date format. Please use ISO date strings.")
                | Some _ => Ok tt
                end
          | None => Ok tt
          end) ;;
    let reminders := mapReminderRecords rawResult (Some trimmedList) in
    match reminders with
    | [] => Throw (Error "Failed to create reminder.")
    | reminder :: _ => Ok reminder
    end.

(** [getAllLists()] (notes.ts:1941), from the script's answer on: the
    lists as pairs of [name] and [id]. *)
Definition getAllLists (answer : AppleScriptValue) : list (string * string) :=
  let resultArray :=
    match answer with
    | VList items => items
    | _ => if truthy (Some answer) then [answer] else []
    end in
  filter (fun '(name, id) => negb (isEmpty id) || negb (isEmpty name))
    (map (fun list => (coerceString (prop list "name") "Untitled List",
                       coerceString (prop list "id") EmptyString))
         (filter isObjectItem resultArray)).

End WithRuntime.
End Reminders.

(* ================================================================= *)
(** ** Mail (mail.ts:1-644) *)

Module Mail.

(** [interface EmailMessage] (mail.ts:83) *)
Record EmailMessage : Type := {
  subject : string;
  sender : string;
  dateSent : string;
  content : string;
  isRead : bool;
  mailbox : string;
}.

Section WithRuntime.
Context `{RT : JsRuntime}.

(** [coerceBoolean(value, fallback)] (mail.ts:98), the same text as the
    copy of the reminders. *)
Definition coerceBoolean : option AppleScriptValue -> bool -> bool :=
  Reminders.coerceBoolean.

(** [toIsoDate(value)] (mail.ts:127) *)
Definition toIsoDate (value : option AppleScriptValue) : string :=
  let asString := coerceString value EmptyString in
  if isEmpty asString then Date_isoText Date_now
  else
    match Date_parse asString with
    | None => asString
    | Some parsed => Date_isoText parsed
    end.

(** The callback of [.map] (mail.ts:148-166). *)
Definition toEmail (fallbackMailbox : option string) (record : AppleScriptValue)
  : EmailMessage :=
  let subject := coerceString (prop record "subject") "No subject" in
  let sender := coerceString (prop record "sender") "Unknown sender" in
  let content := coerceString (prop record "content") "[Content not available]" in
  let dateSent :=
    toIsoDate (nullish (prop record "dateSent")
                (nullish (prop record "date")
                  (nullish (prop record "sentDate") (prop record "receivedDate")))) in
  let mailbox :=
    coerceString
      (nullish (prop record "mailbox")
         (match fallbackMailbox with
          | Some text => Some (VString text)
          | None => Some (VString "Unknown mailbox")
          end))
      EmptyString in
  let isRead := coerceBoolean (prop record "isRead") (truthy (prop record "read")) in
  {| subject := subject;
     sender := sender;
     dateSent := dateSent;
     content := content;
     isRead := isRead;
     mailbox := mailbox |}.

(** The final filter [email.subject || email.sender] (mail.ts:167). *)
Definition keepEmail (email : EmailMessage) : bool :=
  negb (isEmpty (subject email)) || negb (isEmpty (sender email)).

(** [mapEmailRecords(raw, fallbackMailbox)] (mail.ts:139) *)
Definition mapEmailRecords (raw : AppleScriptValue) (fallbackMailbox : option string)
  : list EmailMessage :=
  match raw with
  | VList items => filter keepEmail (map (toEmail fallbackMailbox) (filter isObjectItem items))
  | _ => []
  end.

End WithRuntime.
End Mail.

(* ================================================================= *)
(** ** The search over the README (mail.ts:1231-1477) *)

Module Search.

(** [type SearchDocument] (mail.ts:1249) *)
Record SearchDocument : Type := {
  id : string;
  title : string;
  url : string;
  content : string;
  contentLower : string;
  titleLower : string;
}.

(** [type SearchResult] (mail.ts:1235) and [type FetchResult]
    (mail.ts:1241); the fields are prefixed to tell them from those of
    a document. *)
Record SearchResult : Type := {
  resultId : string;
  resultTitle : string;
  resultUrl : string;
}.

Record FetchResult : Type := {
  fetchedId : string;
  fetchedTitle : string;
  fetchedText : string;
  fetchedUrl : string;
  fetchedMetadata : list (string * string);
}.

Definition DEFAULT_METADATA : list (string * string) := [("source", "readme")].

Definition MAX_RESULTS : Z := 5.

(** The character classes [[a-z0-9]], [[^a-z0-9\s-]] (by the characters
    it lets through) and [[-]]. *)
Definition isLowerAlnum (c : ascii) : bool := inRange 97 122 c || inRange 48 57 c.

Definition isSlugInput (c : ascii) : bool :=
  isLowerAlnum c || isSpace c || Ascii.eqb c "-".

Definition isDash (c : ascii) : bool := Ascii.eqb c "-".

(** [s.replace(/^[-]+|[-]+$/g, empty)]: the dashes at the start and at
    the end go. *)
Fixpoint dropDashes (s : string) : string :=
  match s with
  | EmptyString => EmptyString
  | String c s' => if isDash c then dropDashes s' else s
  end.

Fixpoint dropEndDashes (s : string) : string :=
  match s with
  | EmptyString => EmptyString
  | String c s' => if allChars isDash s then EmptyString else String c (dropEndDashes s')
  end.

(** [slugify(value)] (mail.ts:1266) *)
Definition slugify (value : string) : string :=
  let step1 := toLowerCase (trim value) in
  let step2 := filterString isSlugInput step1 in
  let step3 := replaceRuns isSpace "-" false step2 in
  let step4 := replaceRuns isDash "-" false step3 in
  dropEndDashes (dropDashes step4).

(** [createDocument(id, title, url, content)] (mail.ts:1365) *)
Definition createDocument (id title url content : string) : SearchDocument :=
  let normalizedContent := trim (replaceRuns isSpace " " false content) in
  {| id := id;
     title := title;
     url := url;
     content := normalizedContent;
     contentLower := toLowerCase normalizedContent;
     titleLower := toLowerCase title |}.

(** [computeScore(doc, query, tokens)] (mail.ts:1392) *)
Definition computeScore (doc : SearchDocument) (query : string) (tokens : list string) : Z :=
  let titleScore := if includesText (titleLower doc) query then 6%Z else 0%Z in
  let contentScore := if includesText (contentLower doc) query then 3%Z else 0%Z in
  let tokenScore :=
    fold_left
      (fun score token =>
         let currentScore := score in
         let currentScore :=
           if includesText (titleLower doc) token then (currentScore + 3)%Z
           else currentScore in
         let currentScore :=
           if includesText (contentLower doc) token then (currentScore + 1)%Z
           else currentScore in
         currentScore)
      tokens 0%Z in
  (titleScore + contentScore + tokenScore)%Z.

(** [tokenize(query)] (mail.ts:1413) *)
Definition keepToken (token : string) : bool :=
  (1 <? String.length token)%nat || existsChar isLowerAlnum token.

Definition tokenize (query : string) : list string :=
  filter keepToken (splitOnSpace false EmptyString (toLowerCase (trim query))).

(** The entries [{ doc, score, index }] built by [search], and
    [documents.map((doc, index) => ...)]. *)
Record Scored : Type := { doc : SearchDocument; score : Z; index : Z }.

Fixpoint mapWithIndex {A B : Type} (f : A -> Z -> B) (index : Z) (l : list A) : list B :=
  match l with
  | [] => []
  | x :: l' => f x index :: mapWithIndex f (index + 1)%Z l'
  end.

(** The comparator of [search] (mail.ts:1439-1444). *)
Definition compareScored (a b : Scored) : option Z :=
  if (score b =? score a)%Z then Some (index a - index b)%Z
  else Some (score b - score a)%Z.

(** The constant [scored] of [search] (mail.ts:1429-1445), for a query
    already trimmed. *)
Definition scored (documents : list SearchDocument) (trimmedQuery : string) (limit : Z)
  : list Scored :=
  let normalizedQuery := toLowerCase trimmedQuery in
  let tokens := tokenize trimmedQuery in
  sliceTo (Z.max 1 limit)
    (sort compareScored
       (filter (fun entry => (0 <? score entry)%Z)
          (mapWithIndex
             (fun doc index =>
                {| doc := doc;
                   score := computeScore doc normalizedQuery tokens;
                   index := index |})
             0%Z documents))).

(** [search(query, limit)] (mail.ts:1421); [documents] is what
    [ensureDocumentsLoaded] answers, [limit] is [None] when undefined. *)
Definition search (documents : list SearchDocument) (query : string) (limit : option Z)
  : list SearchResult :=
  let limit := match limit with Some l => l | None => MAX_RESULTS end in
  let trimmedQuery := trim query in
  if isEmpty trimmedQuery then []
  else
    map (fun entry =>
           {| resultId := id (doc entry);
              resultTitle := title (doc entry);
              resultUrl := url (doc entry) |})
        (scored documents trimmedQuery limit).

(** [fetchDocument(id)] (mail.ts:1454); [documents] is again what
    [ensureDocumentsLoaded] answers. *)
Definition fetchDocument (documents : list SearchDocument) (id : string)
  : result FetchResult :=
  let targetId := trim id in
  if isEmpty targetId then Throw (Error "Document id is required")
  else
    match find (fun doc => String.eqb (Search.id doc) targetId) documents with
    | None => Throw (Error ("No document found for id '" ++ targetId ++ "'"))
    | Some found =>
        Ok {| fetchedId := Search.id found;
              fetchedTitle := title found;
              fetchedText := content found;
              fetchedUrl := url found;
              fetchedMetadata := DEFAULT_METADATA |}
    end.

End Search.

(* ================================================================= *)
(** ** A reference runtime *)

(** An executable [JsRuntime] for running the code on concrete inputs.
    Its numbers are the exact decimals [mantissa * 10 ^ exponent] together
    with NaN and the two infinities; rounding to a double is not
    modelled.  [Number] follows the StringNumericLiteral grammar of
    ECMA-262 for decimal literals and [Infinity]; [String] follows
    Number::toString; [Date.parse] reads the format that [toISOString]
    writes and answers NaN on any other text. *)
Module Ref.

Inductive num : Type :=
| NaN
| Infinity (negative : bool)
| Finite (mantissa exponent : Z).

Open Scope Z_scope.

(** Trailing zeros of the mantissa move into the exponent. *)
Fixpoint normalize (fuel : nat) (m e : Z) : num :=
  match fuel with
  | O => Finite m e
  | S fuel' =>
      if m =? 0 then Finite 0 0
      else if m mod 10 =? 0 then normalize fuel' (m / 10) (e + 1)
      else Finite m e
  end.

Definition finite (m e : Z) : num := normalize (S (Z.to_nat (Z.log2 (Z.abs m)))) m e.

Definition digitValue (c : ascii) : Z := Z.of_N (N_of_ascii c) - 48.

Fixpoint digitsValue (acc : Z) (s : string) : Z :=
  match s with
  | EmptyString => acc
  | String c s' => digitsValue (10 * acc + digitValue c) s'
  end.

(** StrUnsignedDecimalLiteral: digits, an optional fraction, an optional
    exponent part; at least one digit before the exponent. *)
Definition unsignedDecimal (s : string) : option (Z * Z) :=
  let '(whole, r1) := span isDigitChar s in
  let '(fraction, r2) :=
    match r1 with
    | String "." r => span isDigitChar r
    | _ => (EmptyString, r1)
    end in
  if isEmpty whole && isEmpty fraction then None
  else
    let mantissa := digitsValue 0 (whole ++ fraction) in
    let shift := - Z.of_nat (String.length fraction) in
    match r2 with
    | EmptyString => Some (mantissa, shift)
    | String c r3 =>
        if Ascii.eqb c "e" || Ascii.eqb c "E" then
          let '(negative, r4) :=
            match r3 with
            | String "-" r => (true, r)
            | String "+" r => (false, r)
            | _ => (false, r3)
            end in
          let '(digits, r5) := span isDigitChar r4 in
          if isEmpty digits || negb (isEmpty r5) then None
          else
            let e := digitsValue 0 digits in
            Some (mantissa, shift + (if negative then - e else e))
        else None
    end.

Definition Number_of_string (text : string) : num :=
  let s := trim text in
  let '(negative, body) :=
    match s with
    | String "-" r => (true, r)
    | String "+" r => (false, r)
    | _ => (false, s)
    end in
  if isEmpty s then Finite 0 0
  else if String.eqb body "Infinity" then Infinity negative
  else
    match unsignedDecimal body with
    | Some (m, e) => finite (if negative then - m else m) e
    | None => NaN
    end.

Definition digitsOf (n : Z) : string := NilZero.string_of_uint (N.to_uint (Z.to_N n)).

Fixpoint zeros (n : nat) : string :=
  match n with
  | O => EmptyString
  | S n' => String "0" (zeros n')
  end.

(** Number::toString, radix 10. *)
Definition String_of_number (x : num) : string :=
  match x with
  | NaN => "NaN"
  | Infinity negative => if negative then "-Infinity" else "Infinity"
  | Finite m e =>
      if m =? 0 then "0"
      else
        let sign := if m <? 0 then "-" else EmptyString in
        let digits := digitsOf (Z.abs m) in
        let k := Z.of_nat (String.length digits) in
        let n := k + e in
        let body :=
          if ((k <=? n) && (n <=? 21))%Z then (digits ++ zeros (Z.to_nat (n - k)))%string
          else if ((0 <? n) && (n <=? 21))%Z then
            (substring 0 (Z.to_nat n) digits ++ "."
               ++ substring (Z.to_nat n) (Z.to_nat (k - n)) digits)%string
          else if ((-6 <? n) && (n <=? 0))%Z then
            ("0." ++ zeros (Z.to_nat (- n)) ++ digits)%string
          else
            let exponent :=
              ((if (n - 1 <? 0)%Z then "-" else "+") ++ digitsOf (Z.abs (n - 1)))%string in
            if (k =? 1)%Z then (digits ++ "e" ++ exponent)%string
            else (substring 0 1 digits ++ "."
                    ++ substring 1 (Z.to_nat (k - 1)) digits ++ "e" ++ exponent)%string in
        (sign ++ body)%string
  end.

Definition Number_isFinite (x : num) : bool :=
  match x with Finite _ _ => true | _ => false end.

Definition Number_isNaN (x : num) : bool :=
  match x with NaN => true | _ => false end.

Definition Number_nonzero (x : num) : bool :=
  match x with Finite m _ => negb (m =? 0) | _ => true end.

(** TimeClip of [x * 1000]: NaN unless finite and within 8.64e15
    milliseconds of the epoch, then truncated to an integer. *)
Definition Date_ofSeconds (x : num) : timeValue :=
  match x with
  | Finite m e =>
      let e := e + 3 in
      if m =? 0 then Some 0
      else if 16 <? e then None
      else
        let ms := if 0 <=? e then m * 10 ^ e
                  else if e <? -400 then 0
                  else Z.quot m (10 ^ (- e)) in
        if Z.abs ms <=? 8640000000000000 then Some ms else None
  | _ => None
  end.

(** The civil date of a day number (days since 1970-01-01). *)
Definition civilFromDays (days : Z) : Z * Z * Z :=
  let z := days + 719468 in
  let era := z / 146097 in
  let doe := z - era * 146097 in
  let yoe := (doe - doe / 1460 + doe / 36524 - doe / 146096) / 365 in
  let doy := doe - (365 * yoe + yoe / 4 - yoe / 100) in
  let mp := (5 * doy + 2) / 153 in
  let d := doy - (153 * mp + 2) / 5 + 1 in
  let m := if mp <? 10 then mp + 3 else mp - 9 in
  let y := yoe + era * 400 + (if m <=? 2 then 1 else 0) in
  (y, m, d).

Definition daysFromCivil (y m d : Z) : Z :=
  let y := if m <=? 2 then y - 1 else y in
  let era := y / 400 in
  let yoe := y - era * 400 in
  let doy := (153 * (if 2 <? m then m - 3 else m + 9) + 2) / 5 + d - 1 in
  let doe := yoe * 365 + yoe / 4 - yoe / 100 + doy in
  era * 146097 + doe - 719468.

Definition padded (width : nat) (n : Z) : string :=
  let digits := digitsOf n in
  (zeros (width - String.length digits) ++ digits)%string.

Definition Date_isoText (ms : Z) : string :=
  let days := ms / 86400000 in
  let rest := ms mod 86400000 in
  let '(y, m, d) := civilFromDays days in
  let year :=
    if (0 <=? y) && (y <=? 9999) then padded 4 y
    else ((if (y <? 0)%Z then "-" else "+") ++ padded 6 (Z.abs y))%string in
  (year ++ "-" ++ padded 2 m ++ "-" ++ padded 2 d ++ "T"
     ++ padded 2 (rest / 3600000) ++ ":" ++ padded 2 (rest / 60000 mod 60) ++ ":"
     ++ padded 2 (rest / 1000 mod 60) ++ "." ++ padded 3 (rest mod 1000) ++ "Z")%string.

(** [n] digits read from the front of [s]. *)
Definition takeDigits (n : nat) (s : string) : option (Z * string) :=
  let digits := substring 0 n s in
  if (String.length digits =? n)%nat && allDigits digits
  then Some (digitsValue 0 digits, dropString n s) else None.

Definition expect (c : ascii) (s : string) : option string :=
  match s with
  | String c' r => if Ascii.eqb c c' then Some r else None
  | EmptyString => None
  end.

Definition Date_parse (text : string) : timeValue :=
  let '(sign, width, body) :=
    match text with
    | String "+" r => (1, 6%nat, r)
    | String "-" r => (-1, 6%nat, r)
    | _ => (1, 4%nat, text)
    end in
  match takeDigits width body with
  | None => None
  | Some (y, r) =>
  match expect "-" r with None => None | Some r =>
  match takeDigits 2 r with None => None | Some (m, r) =>
  match expect "-" r with None => None | Some r =>
  match takeDigits 2 r with None => None | Some (d, r) =>
  match expect "T" r with None => None | Some r =>
  match takeDigits 2 r with None => None | Some (hh, r) =>
  match expect ":" r with None => None | Some r =>
  match takeDigits 2 r with None => None | Some (mm, r) =>
  match expect ":" r with None => None | Some r =>
  match takeDigits 2 r with None => None | Some (ss, r) =>
  match expect "." r with None => None | Some r =>
  match takeDigits 3 r with None => None | Some (sss, r) =>
    if String.eqb r "Z" then
      let y := sign * y in
      let days := daysFromCivil y m d in
      let '(y', m', d') := civilFromDays days in
      let ms := days * 86400000 + hh * 3600000 + mm * 60000 + ss * 1000 + sss in
      if (y' =? y) && (m' =? m) && (d' =? d) && (hh <? 24) && (mm <? 60) && (ss <? 60)
         && (Z.abs ms <=? 8640000000000000)
      then Some ms else None
    else None
  end end end end end end end end end end end end end.

Close Scope Z_scope.

#[export] Instance runtime : JsRuntime := {
  number := num;
  Number_of_string := Number_of_string;
  String_of_number := String_of_number;
  Number_isFinite := Number_isFinite;
  Number_isNaN := Number_isNaN;
  Number_nonzero := Number_nonzero;
  Date_ofSeconds := Date_ofSeconds;
  Date_parse := Date_parse;
  Date_isoText := Date_isoText;
  Date_now := 1700000000000%Z;
}.

End Ref.

(** The conversion of every record of a batch of events, in order,
    stopping at the first one that throws. *)
Fixpoint convertAll `{JsRuntime} (records : list AppleScriptValue)
  : result (list (string * Calendar.CalendarEvent)) :=
  match records with
  | [] => Ok []
  | record :: rest =>
      converted <- Calendar.toEvent record ;;
      others <- convertAll rest ;;
      Ok (converted :: others)
  end.

(* ================================================================= *)
(** ** Sample inputs *)

Module Samples.
Import Ref.

(** A record of string fields. *)
Definition fields (entries : list (string * string)) : AppleScriptValue :=
  VRecord (map (fun '(key, text) => (key, VString text)) entries).

(** The bridge's text for a record whose [status] is a one-element list. *)
Definition wrappedErrorText : string := "{status:{" ++ quoted "error" ++ "}}".

Definition wrappedError : AppleScriptValue :=
  VRecord [("status", VList [VString "error"])].

(** The error envelope of the specification, and a success envelope. *)
Definition folderNotFound : AppleScriptValue :=
  fields [("status", "error"); ("reason", "folder_not_found")].

Definition successEnvelope : AppleScriptValue :=
  VRecord [("status", VString "success"); ("noteRecord", fields [("name", "Plan")])].

(** Two events that start together; the first one ends later. *)
Definition tiedEvents : AppleScriptValue :=
  VList [fields [("id", "A"); ("title", "Long"); ("startDate", "100"); ("endDate", "500")];
         fields [("id", "B"); ("title", "Short"); ("startDate", "100"); ("endDate", "300")]].

Definition eventA : Calendar.CalendarEvent :=
  {| Calendar.id := "A";
     Calendar.title := "Long";
     Calendar.location := None;
     Calendar.notes := None;
     Calendar.startDate := Some "1970-01-01T00:01:40.000Z";
     Calendar.endDate := Some "1970-01-01T00:08:20.000Z";
     Calendar.calendarName := "Unknown Calendar";
     Calendar.isAllDay := false;
     Calendar.url := None |}.

Definition eventB : Calendar.CalendarEvent :=
  {| Calendar.id := "B";
     Calendar.title := "Short";
     Calendar.location := None;
     Calendar.notes := None;
     Calendar.startDate := Some "1970-01-01T00:01:40.000Z";
     Calendar.endDate := Some "1970-01-01T00:05:00.000Z";
     Calendar.calendarName := "Unknown Calendar";
     Calendar.isAllDay := false;
     Calendar.url := None |}.

(** The events of 3, 1 and 2 January 2024, the identifier E1 twice, and
    an event without identifier. *)
Definition january : AppleScriptValue :=
  VList [fields [("id", "E3"); ("title", "third"); ("startDate", "1704240000")];
         fields [("id", "E1"); ("title", "draft"); ("startDate", "1704067200")];
         fields [("title", "loose")];
         fields [("id", "E2"); ("title", "second"); ("startDate", "1704153600")];
         fields [("id", "E1"); ("title", "first"); ("startDate", "1704067200")]].

Definition januaryBuilt : list (string * Calendar.CalendarEvent) :=
  Eval vm_compute in
    match convertAll (Calendar.eventRecords january) with
    | Ok built => built
    | Throw _ => []
    end.

(** A batch whose second record carries a start date out of range. *)
Definition infiniteStartText : string :=
  "{{id:E0, startDate:5}, {id:E1, startDate:Infinity}}".

Definition infiniteStart : AppleScriptValue :=
  VList [VRecord [("id", VString "E0"); ("startDate", VNumber (Finite 5 0))];
         VRecord [("id", VString "E1"); ("startDate", VString "Infinity")]].

(** Notes with a modification date, a creation date only, and no date. *)
Definition someNotes : AppleScriptValue :=
  VList [fields [("name", "old"); ("modificationDate", "10")];
         fields [("name", "new"); ("modificationDate", "30")];
         fields [("name", "created"); ("creationDate", "20")];
         fields [("name", "undated")]].

(** Emails with and without subject and sender. *)
Definition blankEmail : AppleScriptValue := fields [("subject", EmptyString); ("sender", EmptyString)].
Definition senderOnly : AppleScriptValue := fields [("subject", EmptyString); ("sender", "a@b.c")].
Definition subjectOnly : AppleScriptValue := fields [("subject", "Hi"); ("sender", EmptyString)].
Definition inbox : AppleScriptValue := VList [blankEmail; senderOnly; subjectOnly].

(** The bridge's text for three notes, created 20, 30 and 50 seconds
    after the epoch, and for a note that was created in a folder. *)
Definition notesText : string :=
  "{{name:first, creationDate:20}, {name:second, creationDate:30, modificationDate:90}, "
    ++ "{name:third, creationDate:50}}".

Definition createdText : string :=
  "{status:success, noteRecord:{name:Plan, folderName:Work}, usedDefault:false}".

(** Reminders with a name only, and with an empty name and no
    identifier. *)
Definition namedReminder : AppleScriptValue := fields [("name", "Buy milk")].
Definition blankReminder : AppleScriptValue :=
  fields [("id", EmptyString); ("name", EmptyString)].

(** An event that starts on 1 January 2024. *)
Definition newYear : AppleScriptValue :=
  fields [("id", "E1"); ("title", "first"); ("startDate", "1704067200")].

(** The text of a record with a nested list, and its value. *)
Definition recordText : string := "{a:" ++ quoted "x" ++ ", b:{1, true}}".

Definition recordEntries : list (string * AppleScriptValue) :=
  [("a", VString "x"); ("b", VList [VNumber (Finite 1 0); VBool true])].

Definition recordValue : AppleScriptValue := VRecord recordEntries.

(** Three documents of the README. *)
Definition readme : list Search.SearchDocument :=
  [Search.createDocument "readme-overview" "Project Overview"
     "https://github.com/supermemoryai/apple-mcp"
     "Apple MCP tools for Mail and   Notes";
   Search.createDocument "readme-section-0" "Mail"
     "https://github.com/supermemoryai/apple-mcp#mail"
     " Send and read mail ";
   Search.createDocument "readme-section-1" "Notes"
     "https://github.com/supermemoryai/apple-mcp#notes"
     "Create and search notes"].

End Samples.

(* ================================================================= *)
(** ** Notions of the specification *)

(** *** String literals

    [Escaped body text]: [body], the characters between the quotes of a
    literal, denotes [text].  One constructor per line of the
    specification's escape table. *)
Inductive Escaped : string -> string -> Prop :=
| Escaped_end :
    Escaped EmptyString EmptyString
| Escaped_plain c body text :
    c <> DQUOTE -> c <> BACKSLASH -> Escaped body text ->
    Escaped (String c body) (String c text)
| Escaped_quote body text :
    Escaped body text ->
    Escaped (String BACKSLASH (String DQUOTE body)) (String DQUOTE text)
| Escaped_backslash body text :
    Escaped body text ->
    Escaped (String BACKSLASH (String BACKSLASH body)) (String BACKSLASH text)
| Escaped_n body text :
    Escaped body text ->
    Escaped (String BACKSLASH (String "n" body)) (String LF text)
| Escaped_r body text :
    Escaped body text ->
    Escaped (String BACKSLASH (String "r" body)) (String CR text)
| Escaped_t body text :
    Escaped body text ->
    Escaped (String BACKSLASH (String "t" body)) (String TAB text)
| Escaped_other c body text :
    c <> "n"%char -> c <> "r"%char -> c <> "t"%char ->
    Escaped body text ->
    Escaped (String BACKSLASH (String c body)) (String c text).

(** *** The shape of a collection

    [Balanced g]: the text of a nested brace group, between its braces:
    any characters, literals skipped whole, inner groups closed. *)
Inductive Balanced : string -> Prop :=
| Balanced_end :
    Balanced EmptyString
| Balanced_char c g :
    c <> DQUOTE -> c <> "{"%char -> c <> "}"%char -> Balanced g ->
    Balanced (String c g)
| Balanced_literal body text g :
    Escaped body text -> Balanced g ->
    Balanced (quoted body ++ g)
| Balanced_group inner g :
    Balanced inner -> Balanced g ->
    Balanced (String "{" (inner ++ String "}" g)).

(** [Undelimited pre]: text at nesting depth 0 in which no colon, comma
    or closing brace occurs outside the literals and the nested groups. *)
Inductive Undelimited : string -> Prop :=
| Undelimited_end :
    Undelimited EmptyString
| Undelimited_char c pre :
    c <> DQUOTE -> c <> "{"%char -> c <> "}"%char ->
    c <> ":"%char -> c <> ","%char -> Undelimited pre ->
    Undelimited (String c pre)
| Undelimited_literal body text pre :
    Escaped body text -> Undelimited pre ->
    Undelimited (quoted body ++ pre)
| Undelimited_group inner pre :
    Balanced inner -> Undelimited pre ->
    Undelimited (String "{" (inner ++ String "}" pre)).

(** Text that closes [depth] open groups and then continues undelimited
    at depth 0. *)
Fixpoint Closing (depth : nat) (pre : string) : Prop :=
  match depth with
  | O => Undelimited pre
  | S depth' =>
      exists inner pre',
        Balanced inner /\ pre = inner ++ String "}" pre' /\ Closing depth' pre'
  end.

(** *** Progress of the parser

    A value parser that, on the texts shorter than [bound], does not run
    out of fuel and consumes at least one character. *)
Definition Progresses `{JsRuntime} (bound : nat)
  (parseValue : string -> Parser.state AppleScriptValue) : Prop :=
  forall s, String.length s < bound ->
    parseValue s <> Throw OutOfFuel
    /\ forall v r, parseValue s = Ok (v, r) -> String.length r < String.length s.

(** *** Coercion to text, as the specification words it: the fallback for
    null, for an absent value and for a container, the canonical text of
    a scalar. *)
Definition coerceStringSpec `{JsRuntime} (value : option AppleScriptValue)
  (fallback : string) : string :=
  match value with
  | None | Some VNull => fallback
  | Some (VBool b) => if b then "true" else "false"
  | Some (VNumber n) => String_of_number n
  | Some (VString s) => s
  | Some (VList _) | Some (VRecord _) => fallback
  end.

(** *** The status envelope

    As the specification words it: a record whose key [status] holds the
    string "error". *)
Definition isErrorEnvelope `{JsRuntime} (value : AppleScriptValue) : bool :=
  match value with
  | VRecord fields =>
      match getField "status" fields with
      | Some (VString s) => String.eqb s "error"
      | _ => false
      end
  | _ => false
  end.

(** As the three fetch functions test it: a record whose [status],
    coerced to text, is "error"; and the detail they read. *)
Definition reportsFailure `{JsRuntime} (value : AppleScriptValue) : bool :=
  match value with
  | VRecord fields => String.eqb (coerceString (getField "status" fields) EmptyString) "error"
  | _ => false
  end.

Definition failureReason `{JsRuntime} (value : AppleScriptValue) : string :=
  coerceString (prop value "reason") EmptyString.

(** *** Events *)

(** The event of the last record that carries the identifier [i]. *)
Fixpoint lastEvent (i : string) (built : list (string * Calendar.CalendarEvent))
  : option Calendar.CalendarEvent :=
  match built with
  | [] => None
  | (j, event) :: rest =>
      match lastEvent i rest with
      | Some later => Some later
      | None => if String.eqb j i then Some event else None
      end
  end.

(** The events of the records without identifier, in encountered order. *)
Definition idless (built : list (string * Calendar.CalendarEvent))
  : list Calendar.CalendarEvent :=
  map snd (filter (fun converted => isEmpty (fst converted)) built).

(** The order of the specification: by effective start time, and by end
    time among the events that start together. *)
Definition endKey `{JsRuntime} (event : Calendar.CalendarEvent) : Z :=
  match Calendar.parsedDate (Calendar.endDate event) with
  | Some parsed => parsed
  | None => Calendar.MAX_SAFE_INTEGER
  end.

Definition startThenEnd `{JsRuntime} (a b : Calendar.CalendarEvent) : Prop :=
  (Calendar.getEventSortKey a < Calendar.getEventSortKey b)%Z
  \/ (Calendar.getEventSortKey a = Calendar.getEventSortKey b
      /\ (endKey a <= endKey b)%Z).

(** The [Map] after the loop has run over [built], from [deduped]. *)
Fixpoint dedupInto (built : list (string * Calendar.CalendarEvent))
  (deduped : list (string * Calendar.CalendarEvent))
  : list (string * Calendar.CalendarEvent) :=
  match built with
  | [] => deduped
  | (i, event) :: rest =>
      dedupInto rest (if isEmpty i then deduped else assocSet i event deduped)
  end.

(** *** Sorting: a comparator that orders the elements of [l] by the key
    [key], ascending. *)
Definition OrdersBy {A : Type} (compareFn : A -> A -> option Z) (key : A -> Z)
  (l : list A) : Prop :=
  forall x y, In x l -> In y l ->
    (sortCompare compareFn x y <=? 0)%Z = (key x <=? key y)%Z.

(** *** Notes: the time a note is sorted by, zero for NaN. *)
Definition noteKey (note : Notes.Note) : Z :=
  match Notes.noteTime note with
  | Some time => time
  | None => 0%Z
  end.

(** *** The parser's exceptions: those of its own [throw] statements,
    and the budget of the model. *)
Definition parserExn (e : exn) : Prop :=
  match e with
  | RangeError _ => False
  | _ => True
  end.

(** *** Texts that survive [JSON.stringify] and the parser

    The characters whose escape the parser decodes back: every character
    from the space on, and the tab, the line feed and the carriage
    return.  [readBack c] is what the parser reads for the escape of
    [c]. *)
Definition jsonSafe (c : ascii) : bool :=
  let n := N_of_ascii c in
  ((32 <=? n) || (n =? 9) || (n =? 10) || (n =? 13))%N.

Definition readBack (c : ascii) : string :=
  let n := N_of_ascii c in
  if jsonSafe c then str1 c
  else if (n =? 8)%N then "b"
  else if (n =? 12)%N then "f"
  else "u00" ++ String (hexDigit (n / 16)) (str1 (hexDigit (n mod 16))).

Fixpoint readBackAll (s : string) : string :=
  match s with
  | EmptyString => EmptyString
  | String c s' => readBack c ++ readBackAll s'
  end.

(** *** Dates of an event

    A date field is readable when it is no number at all, or a number of
    seconds within the range of [Date]. *)
Definition dateReadable `{JsRuntime} (value : option AppleScriptValue) : bool :=
  match toNumber value with
  | Some seconds =>
      match Date_ofSeconds seconds with
      | Some _ => true
      | None => false
      end
  | None => true
  end.

Definition datesReadable `{JsRuntime} (record : AppleScriptValue) : bool :=
  dateReadable (prop record "startDate") && dateReadable (prop record "endDate").

(** The span of time an event covers: from its start to its end, each
    standing for the other when it is missing or cannot be parsed;
    [None] when neither can. *)
Definition eventSpan `{JsRuntime} (event : Calendar.CalendarEvent) : option (Z * Z) :=
  match Calendar.parsedDate (Calendar.startDate event),
        Calendar.parsedDate (Calendar.endDate event) with
  | Some s, Some e => Some (s, e)
  | Some s, None => Some (s, s)
  | None, Some e => Some (e, e)
  | None, None => None
  end.

(** *** Notes: the date a note is filtered by, its creation date and,
    without one, its modification date. *)
Definition referenceDate (note : Notes.Note) : option timeValue :=
  match Notes.creationDate note with
  | Some date => Some date
  | None => Notes.modificationDate note
  end.

(** *** The search

    A slug is made of words of lower-case letters and digits, none of
    them empty, joined by single dashes. *)
Definition slugWord (w : string) : Prop :=
  w <> EmptyString /\ allChars Search.isLowerAlnum w = true.

(** The characters of a slug; no dash follows a dash ([afterDash] tells
    that one stands before [s]); a dash stands at the end. *)
Definition isSlugChar (c : ascii) : bool := Search.isLowerAlnum c || Search.isDash c.

Fixpoint singleDashes (afterDash : bool) (s : string) : bool :=
  match s with
  | EmptyString => true
  | String c s' =>
      if Search.isDash c then negb afterDash && singleDashes true s'
      else singleDashes false s'
  end.

Fixpoint endsWithDash (s : string) : bool :=
  match s with
  | EmptyString => false
  | String c EmptyString => Search.isDash c
  | String _ s' => endsWithDash s'
  end.

(** A document matches when the query, or one of its tokens, occurs in
    its lower-cased title or content. *)
Definition matches (document : Search.SearchDocument) (query : string)
  (tokens : list string) : Prop :=
  includesText (Search.titleLower document) query = true
  \/ includesText (Search.contentLower document) query = true
  \/ exists token,
       In token tokens
       /\ (includesText (Search.titleLower document) token = true
           \/ includesText (Search.contentLower document) token = true).

(** The order of the results: by score, the higher first, and by place
    among the documents where the scores are equal. *)
Definition ranksBefore (a b : Search.Scored) : Prop :=
  (Search.score b < Search.score a)%Z
  \/ (Search.score a = Search.score b /\ (Search.index a <= Search.index b)%Z).

(** The key that stands for this order among entries whose indices lie
    below [bound]. *)
Definition rankKey (bound : Z) (entry : Search.Scored) : Z :=
  (- Search.score entry * bound + Search.index entry)%Z.

(** *** The texts of the bridge

    The literal syntax the parser is written for.  A number literal is
    an optional minus sign, digits, and an optional point with digits. *)
Definition NumberLiteral (literal : string) : Prop :=
  exists sign whole fraction,
    literal = sign ++ whole ++ fraction
    /\ (sign = EmptyString \/ sign = "-")
    /\ whole <> EmptyString /\ allChars isDigitChar whole = true
    /\ (fraction = EmptyString
        \/ exists digits, fraction = String "." digits /\ allChars isDigitChar digits = true).

(** A key is a word of letters, digits and underscores, or a string
    literal. *)
Inductive KeyText : string -> string -> Prop :=
| KeyText_word key :
    key <> EmptyString -> allChars isKeyChar key = true -> KeyText key key
| KeyText_literal body text :
    Escaped body text -> KeyText (quoted body) text.

(** [Denotes s v]: the text [s] is the literal of the value [v]: the
    keywords, a string literal, a number literal, and in braces a list
    of literals or a record of keys and literals, separated by commas,
    with any whitespace around the items, the keys and the colons.  The
    fields of a record are written into it in turn, as the parser does. *)
Inductive Denotes `{JsRuntime} : string -> AppleScriptValue -> Prop :=
| Denotes_null :
    Denotes "missing value" VNull
| Denotes_true :
    Denotes "true" (VBool true)
| Denotes_false :
    Denotes "false" (VBool false)
| Denotes_string body text :
    Escaped body text -> Denotes (quoted body) (VString text)
| Denotes_number literal :
    NumberLiteral literal -> Denotes literal (VNumber (Number_of_string literal))
| Denotes_empty ws :
    allSpace ws = true -> Denotes (String "{" (ws ++ "}")) (VList [])
| Denotes_list items values :
    DenotesItems items values -> Denotes (String "{" (items ++ "}")) (VList values)
| Denotes_record fields entries :
    DenotesFields fields entries ->
    Denotes (String "{" (fields ++ "}"))
      (VRecord (fold_left (fun record entry => setField (fst entry) (snd entry) record)
                  entries []))
with DenotesItems `{JsRuntime} : string -> list AppleScriptValue -> Prop :=
| Items_last ws1 s ws2 value :
    allSpace ws1 = true -> allSpace ws2 = true -> Denotes s value ->
    DenotesItems (ws1 ++ s ++ ws2) [value]
| Items_more ws1 s ws2 value items values :
    allSpace ws1 = true -> allSpace ws2 = true -> Denotes s value ->
    DenotesItems items values ->
    DenotesItems (ws1 ++ s ++ ws2 ++ String "," items) (value :: values)
with DenotesFields `{JsRuntime} : string -> list (string * AppleScriptValue) -> Prop :=
| Fields_last ws1 k ws2 ws3 s ws4 key value :
    allSpace ws1 = true -> allSpace ws2 = true ->
    allSpace ws3 = true -> allSpace ws4 = true ->
    KeyText k key -> Denotes s value ->
    DenotesFields (ws1 ++ k ++ ws2 ++ String ":" (ws3 ++ s ++ ws4)) [(key, value)]
| Fields_more ws1 k ws2 ws3 s ws4 key value fields entries :
    allSpace ws1 = true -> allSpace ws2 = true ->
    allSpace ws3 = true -> allSpace ws4 = true ->
    KeyText k key -> Denotes s value ->
    DenotesFields fields entries ->
    DenotesFields (ws1 ++ k ++ ws2 ++ String ":" (ws3 ++ s ++ ws4 ++ String "," fields))
      ((key, value) :: entries).

Scheme Denotes_min := Minimality for Denotes Sort Prop
  with DenotesItems_min := Minimality for DenotesItems Sort Prop
  with DenotesFields_min := Minimality for DenotesFields Sort Prop.

Combined Scheme Denotes_mutual from Denotes_min, DenotesItems_min, DenotesFields_min.

(** What may follow a literal: the end of the text, a comma, a closing
    brace or whitespace. *)
Definition Boundary (rest : string) : Prop :=
  match rest with
  | EmptyString => True
  | String c _ => c = ","%char \/ c = "}"%char \/ isSpace c = true
  end.

(** The characters that are neither a quote, a brace, a colon nor a
    comma. *)
Definition isPlainChar (c : ascii) : bool :=
  negb (Ascii.eqb c DQUOTE || Ascii.eqb c "{" || Ascii.eqb c "}"
        || Ascii.eqb c ":" || Ascii.eqb c ",").

(** What a literal is like: its braces are closed, it holds no colon,
    comma or closing brace of its own level, and it starts with a
    character that is neither whitespace nor a closing brace. *)
Definition WellShaped (s : string) : Prop :=
  Balanced s /\ Undelimited s
  /\ exists c s', s = String c s' /\ isSpace c = false /\ c <> "}"%char.

(** What the parser does on a literal, on the items of a list and on the
    fields of a record: the three statements that are proved together,
    by induction on the way a text is built. *)
Definition ValueParses `{JsRuntime} (s : string) (v : AppleScriptValue) : Prop :=
  WellShaped s
  /\ forall fuel rest,
       String.length s < fuel -> Boundary rest ->
       Parser.parseValueWith Parser.isRecordCollection fuel (s ++ rest) = Ok (v, rest).

Definition ItemsParse `{JsRuntime} (items : string) (values : list AppleScriptValue)
  : Prop :=
  Balanced items
  /\ (forall x, Parser.scanFrom 0 (items ++ String "}" x) = Ok false)
  /\ (forall x, accept "}" (Parser.skipWhitespace (items ++ x)) = None)
  /\ forall fuel n acc rest,
       String.length items < fuel -> String.length items < n ->
       Parser.parseItems (Parser.parseValueWith Parser.isRecordCollection fuel) n acc
         (items ++ String "}" rest)
       = Ok ((acc ++ values)%list, String "}" rest).

Definition FieldsParse `{JsRuntime} (fields : string)
  (entries : list (string * AppleScriptValue)) : Prop :=
  Balanced fields
  /\ (forall x, Parser.scanFrom 0 (fields ++ x) = Ok true)
  /\ (forall x, accept "}" (Parser.skipWhitespace (fields ++ x)) = None)
  /\ forall fuel n record rest,
       String.length fields < fuel -> String.length fields < n ->
       Parser.parseFields (Parser.parseValueWith Parser.isRecordCollection fuel) n record
         (fields ++ String "}" rest)
       = Ok (fold_left (fun record entry => setField (fst entry) (snd entry) record)
               entries record,
             String "}" rest).

(* ================================================================= *)
(** ** Strings: basic facts *)

Lemma append_nil_r (s : string) : s ++ EmptyString = s.
Proof. induction s as [|c s IH]; simpl; [reflexivity | now rewrite IH]. Qed.

Lemma append_assoc (a b c : string) : (a ++ b) ++ c = a ++ b ++ c.
Proof. induction a as [|x a IH]; simpl; [reflexivity | now rewrite IH]. Qed.

Lemma append_snoc (a : string) (c : ascii) (b : string) :
  (a ++ str1 c) ++ b = a ++ String c b.
Proof. now rewrite append_assoc. Qed.

Lemma quoted_append (body s : string) :
  quoted body ++ s = String DQUOTE (body ++ String DQUOTE s).
Proof. unfold quoted. simpl. now rewrite append_snoc. Qed.

Lemma length_append (a b : string) :
  String.length (a ++ b) = String.length a + String.length b.
Proof. induction a as [|x a IH]; simpl; [reflexivity | now rewrite IH]. Qed.

Lemma accept_Some (c : ascii) (s r : string) :
  accept c s = Some r -> s = String c r.
Proof.
  destruct s as [|c' s']; simpl; [discriminate|].
  destruct (Ascii.eqb_spec c' c) as [->|_]; [|discriminate]. now injection 1 as <-.
Qed.

Lemma ascii_eqb_false (a b : ascii) : a <> b -> Ascii.eqb a b = false.
Proof. intro H. now apply Ascii.eqb_neq. Qed.

(* ================================================================= *)
(** ** The string literal ([parseString]) *)

Section StringLiteral.
Context `{RT : JsRuntime}.
Import Parser.

Lemma unescapeChar_other (c : ascii) :
  c <> "n"%char -> c <> "r"%char -> c <> "t"%char -> unescapeChar c = c.
Proof.
  intros Hn Hr Ht. unfold unescapeChar.
  destruct (Ascii.eqb_spec c DQUOTE) as [->|_]; [reflexivity|].
  destruct (Ascii.eqb_spec c BACKSLASH) as [->|_]; [reflexivity|].
  now rewrite !ascii_eqb_false.
Qed.

(** The loop decodes an escaped body up to its closing quote, stops with
    "unterminated" where the body ends the input, and with "unexpected
    end" where a lone backslash does. *)
Lemma parseStringLoop_Escaped (body text : string) :
  Escaped body text ->
  forall acc,
    (forall rest, parseStringLoop acc (body ++ String DQUOTE rest) = Ok (acc ++ text, rest))
    /\ parseStringLoop acc body
       = Throw (Error "Unterminated string literal in AppleScript result")
    /\ parseStringLoop acc (body ++ str1 BACKSLASH)
       = Throw (Error "Unexpected end of AppleScript result").
Proof.
  induction 1 as [ | c body text Hq Hb _ IH | body text _ IH | body text _ IH
                   | body text _ IH | body text _ IH | body text _ IH
                   | c body text Hn Hr Ht _ IH ]; intro acc.
  - simpl. rewrite append_nil_r. repeat split; reflexivity.
  - simpl. rewrite !(ascii_eqb_false c) by assumption.
    destruct (IH (acc ++ str1 c)) as (A & B & C).
    repeat split; [intro rest; rewrite A; now rewrite append_snoc | exact B | exact C].
  - destruct (IH (acc ++ str1 DQUOTE)) as (A & B & C).
    repeat split; [intro rest; simpl; rewrite A; now rewrite append_snoc | exact B | exact C].
  - destruct (IH (acc ++ str1 BACKSLASH)) as (A & B & C).
    repeat split; [intro rest; simpl; rewrite A; now rewrite append_snoc | exact B | exact C].
  - destruct (IH (acc ++ str1 LF)) as (A & B & C).
    repeat split; [intro rest; simpl; rewrite A; now rewrite append_snoc | exact B | exact C].
  - destruct (IH (acc ++ str1 CR)) as (A & B & C).
    repeat split; [intro rest; simpl; rewrite A; now rewrite append_snoc | exact B | exact C].
  - destruct (IH (acc ++ str1 TAB)) as (A & B & C).
    repeat split; [intro rest; simpl; rewrite A; now rewrite append_snoc | exact B | exact C].
  - destruct (IH (acc ++ str1 c)) as (A & B & C).
    repeat split.
    + intro rest.
      change (parseStringLoop (acc ++ str1 (unescapeChar c)) (body ++ String DQUOTE rest)
              = Ok (acc ++ String c text, rest)).
      rewrite unescapeChar_other by assumption. rewrite A. now rewrite append_snoc.
    + change (parseStringLoop (acc ++ str1 (unescapeChar c)) body = Throw
               (Error "Unterminated string literal in AppleScript result")).
      now rewrite unescapeChar_other.
    + change (parseStringLoop (acc ++ str1 (unescapeChar c)) (body ++ str1 BACKSLASH) = Throw
               (Error "Unexpected end of AppleScript result")).
      now rewrite unescapeChar_other.
Qed.

End StringLiteral.

(* ================================================================= *)
(** ** The collection classifier ([isRecordCollection]) *)

Section Classifier.
Import Parser.

Lemma skipStringLoop_shorter (s s1 : string) :
  skipStringLoop s = Ok s1 -> String.length s1 < String.length s.
Proof.
  remember (String.length s) as n eqn:Hn.
  revert s Hn. induction n as [n IH] using lt_wf_ind. intros s Hn.
  destruct s as [|c s']; simpl; [discriminate|].
  destruct (Ascii.eqb c BACKSLASH).
  - destruct s' as [|c' s'']; [discriminate|]. intro H.
    simpl in Hn. apply (IH (String.length s'')) in H; [lia | lia | reflexivity].
  - destruct (Ascii.eqb c DQUOTE).
    + intro H. injection H as <-. simpl in Hn. lia.
    + intro H. simpl in Hn. apply (IH (String.length s')) in H; [lia | lia | reflexivity].
Qed.

(** Any fuel above the length of the text gives the same answer. *)
Lemma scanCollection_fuel (f : nat) :
  forall f' depth s,
    String.length s < f -> String.length s < f' ->
    scanCollection f depth s = scanCollection f' depth s.
Proof.
  induction f as [|f IH]; intros f' depth s Hf Hf'; [lia|].
  destruct f' as [|f']; [lia|].
  destruct s as [|c s']; [reflexivity|]. simpl in Hf, Hf'. simpl.
  destruct (isSpace c); [apply IH; lia|].
  destruct (Ascii.eqb c DQUOTE).
  { unfold skipStringFrom. simpl dropString.
    destruct (skipStringLoop s') as [s1|e] eqn:E; [|reflexivity].
    simpl. apply skipStringLoop_shorter in E. apply IH; lia. }
  destruct (Ascii.eqb c "{"); [apply IH; lia|].
  destruct (Ascii.eqb c "}").
  { destruct (Nat.eqb depth 0); [reflexivity | apply IH; lia]. }
  destruct (Nat.eqb depth 0 && Ascii.eqb c ":"); [reflexivity|].
  destruct (Nat.eqb depth 0 && Ascii.eqb c ","); [reflexivity|].
  apply IH; lia.
Qed.

Lemma scanFrom_fuel (f depth : nat) (s : string) :
  String.length s < f -> scanCollection f depth s = scanFrom depth s.
Proof. intro H. apply scanCollection_fuel; [assumption | lia]. Qed.

Lemma scanFrom_skip (c : ascii) (s : string) (depth : nat) :
  isSpace c = false -> c <> DQUOTE -> c <> "{"%char -> c <> "}"%char ->
  (depth = 0 -> c <> ":"%char /\ c <> ","%char) ->
  scanFrom depth (String c s) = scanFrom depth s.
Proof.
  intros Hs Hq Ho Hc Hd. unfold scanFrom at 1. simpl. rewrite Hs.
  rewrite !(ascii_eqb_false c) by assumption.
  destruct depth as [|d]; simpl.
  - destruct (Hd eq_refl) as [H1 H2]. rewrite !(ascii_eqb_false c) by assumption.
    reflexivity.
  - reflexivity.
Qed.

Lemma scanFrom_space (c : ascii) (s : string) (depth : nat) :
  isSpace c = true -> scanFrom depth (String c s) = scanFrom depth s.
Proof. intro Hs. unfold scanFrom at 1. simpl. now rewrite Hs. Qed.

Lemma scanFrom_plain (c : ascii) (s : string) (depth : nat) :
  c <> DQUOTE -> c <> "{"%char -> c <> "}"%char ->
  (depth = 0 -> c <> ":"%char /\ c <> ","%char) ->
  scanFrom depth (String c s) = scanFrom depth s.
Proof.
  intros. destruct (isSpace c) eqn:Hs;
    [now apply scanFrom_space | now apply scanFrom_skip].
Qed.

Lemma scanFrom_open (s : string) (depth : nat) :
  scanFrom depth (String "{" s) = scanFrom (S depth) s.
Proof. unfold scanFrom at 1. simpl. now rewrite Nat.add_1_r. Qed.

Lemma scanFrom_close (s : string) (depth : nat) :
  scanFrom (S depth) (String "}" s) = scanFrom depth s.
Proof. unfold scanFrom at 1. simpl. now rewrite Nat.sub_0_r. Qed.

Lemma skipStringLoop_Escaped (body text : string) :
  Escaped body text ->
  forall rest, skipStringLoop (body ++ String DQUOTE rest) = Ok rest.
Proof.
  induction 1 as [ | c body text Hq Hb _ IH | body text _ IH | body text _ IH
                   | body text _ IH | body text _ IH | body text _ IH
                   | c body text Hn Hr Ht _ IH ]; intro rest;
    try (simpl; now rewrite IH).
  - reflexivity.
  - simpl. rewrite !(ascii_eqb_false c) by assumption. apply IH.
Qed.

Lemma scanFrom_literal (body text s : string) (depth : nat) :
  Escaped body text ->
  scanFrom depth (quoted body ++ s) = scanFrom depth s.
Proof.
  intro H. rewrite quoted_append.
  unfold scanFrom at 1.
  change (scanCollection _ depth _)
    with (s1 <- skipStringLoop (body ++ String DQUOTE s) ;;
          scanCollection (S (String.length (body ++ String DQUOTE s))) depth s1).
  rewrite (skipStringLoop_Escaped _ _ H). cbn [bind].
  apply scanFrom_fuel. rewrite length_append. simpl. lia.
Qed.

Lemma scanFrom_Balanced (g : string) :
  Balanced g ->
  forall depth rest, scanFrom (S depth) (g ++ rest) = scanFrom (S depth) rest.
Proof.
  induction 1 as [ | c g Hq Ho Hc _ IH | body text g Hb _ IH | inner g _ IHi _ IHg ];
    intros depth rest.
  - reflexivity.
  - simpl. rewrite scanFrom_plain by (try assumption; discriminate). apply IH.
  - rewrite append_assoc. rewrite (scanFrom_literal _ _ _ _ Hb). apply IH.
  - simpl. rewrite scanFrom_open. rewrite append_assoc. rewrite IHi.
    simpl. rewrite scanFrom_close. apply IHg.
Qed.

Lemma scanFrom_Undelimited (pre : string) :
  Undelimited pre ->
  forall rest, scanFrom 0 (pre ++ rest) = scanFrom 0 rest.
Proof.
  induction 1 as [ | c pre Hq Ho Hc H1 H2 _ IH | body text pre Hb _ IH
                   | inner pre Hi _ IH ]; intro rest.
  - reflexivity.
  - simpl. rewrite scanFrom_plain by (try assumption; now split). apply IH.
  - rewrite append_assoc. rewrite (scanFrom_literal _ _ _ _ Hb). apply IH.
  - simpl. rewrite scanFrom_open. rewrite append_assoc.
    rewrite (scanFrom_Balanced _ Hi). simpl. rewrite scanFrom_close. apply IH.
Qed.

Lemma scanFrom_quote (s : string) (depth : nat) :
  scanFrom depth (String DQUOTE s) = (s1 <- skipStringLoop s ;; scanFrom depth s1).
Proof.
  unfold scanFrom at 1.
  change (scanCollection _ depth _)
    with (s1 <- skipStringLoop s ;; scanCollection (S (String.length s)) depth s1).
  destruct (skipStringLoop s) as [s1|e] eqn:E; [|reflexivity].
  cbn [bind]. apply skipStringLoop_shorter in E. apply scanFrom_fuel. lia.
Qed.

Lemma scanFrom_colon (s : string) : scanFrom 0 (String ":" s) = Ok true.
Proof. reflexivity. Qed.

Lemma scanFrom_comma (s : string) : scanFrom 0 (String "," s) = Ok false.
Proof. reflexivity. Qed.

Lemma scanFrom_close0 (s : string) : scanFrom 0 (String "}" s) = Ok false.
Proof. reflexivity. Qed.

Lemma Escaped_escape (c : ascii) (body text : string) :
  Escaped body text ->
  exists text', Escaped (String BACKSLASH (String c body)) text'.
Proof.
  intro H.
  destruct (Ascii.eqb_spec c "n") as [->|Hn]; [eexists; apply Escaped_n; eassumption|].
  destruct (Ascii.eqb_spec c "r") as [->|Hr]; [eexists; apply Escaped_r; eassumption|].
  destruct (Ascii.eqb_spec c "t") as [->|Ht]; [eexists; apply Escaped_t; eassumption|].
  eexists; apply Escaped_other; eassumption.
Qed.

Lemma skipStringLoop_inv (s s1 : string) :
  skipStringLoop s = Ok s1 ->
  exists body text, Escaped body text /\ s = body ++ String DQUOTE s1.
Proof.
  remember (String.length s) as n eqn:Hn.
  revert s Hn. induction n as [n IH] using lt_wf_ind. intros s Hn.
  destruct s as [|c s']; simpl; [discriminate|].
  destruct (Ascii.eqb_spec c BACKSLASH) as [->|Hb].
  - destruct s' as [|c' s'']; [discriminate|]. intro H. simpl in Hn.
    apply (IH (String.length s'')) in H; [|lia|reflexivity].
    destruct H as (body & text & He & ->).
    destruct (Escaped_escape c' _ _ He) as [text' He'].
    now exists (String BACKSLASH (String c' body)), text'.
  - destruct (Ascii.eqb_spec c DQUOTE) as [->|Hq].
    + intro H. injection H as <-. exists EmptyString, EmptyString.
      split; [constructor | reflexivity].
    + intro H. simpl in Hn.
      apply (IH (String.length s')) in H; [|lia|reflexivity].
      destruct H as (body & text & He & ->).
      exists (String c body), (String c text). split; [now constructor | reflexivity].
Qed.

Lemma Closing_char (c : ascii) (depth : nat) (pre : string) :
  c <> DQUOTE -> c <> "{"%char -> c <> "}"%char ->
  (depth = 0 -> c <> ":"%char /\ c <> ","%char) ->
  Closing depth pre -> Closing depth (String c pre).
Proof.
  intros Hq Ho Hc Hd H. destruct depth as [|d]; simpl in *.
  - destruct (Hd eq_refl). now constructor.
  - destruct H as (inner & pre' & Hi & -> & H).
    exists (String c inner), pre'. repeat split; [now constructor | assumption].
Qed.

Lemma Closing_literal (body text : string) (depth : nat) (pre : string) :
  Escaped body text -> Closing depth pre -> Closing depth (quoted body ++ pre).
Proof.
  intros He H. destruct depth as [|d]; cbn [Closing] in *.
  - now apply Undelimited_literal with text.
  - destruct H as (inner & pre' & Hi & -> & H).
    exists (quoted body ++ inner), pre'.
    repeat split;
      [now apply Balanced_literal with text | now rewrite append_assoc | assumption].
Qed.

Lemma Closing_group (inner : string) (depth : nat) (pre : string) :
  Balanced inner -> Closing depth pre ->
  Closing depth (String "{" (inner ++ String "}" pre)).
Proof.
  intros Hi H. destruct depth as [|d]; simpl in *.
  - now constructor.
  - destruct H as (inner' & pre' & Hi' & -> & H).
    exists (String "{" (inner ++ String "}" inner')), pre'.
    repeat split; [now constructor | | assumption].
    simpl. now rewrite append_assoc.
Qed.

Lemma isSpace_not (c d : ascii) : isSpace c = true -> isSpace d = false -> c <> d.
Proof. intros H1 H2 ->. congruence. Qed.

(** A verdict "record" is reached only through closed groups, whole
    literals and plain characters, at a colon of depth 0. *)
Lemma scanFrom_true_inv (n : nat) :
  forall s depth,
    String.length s < n -> scanFrom depth s = Ok true ->
    exists pre rest, Closing depth pre /\ s = pre ++ String ":" rest.
Proof.
  induction n as [|n IH]; intros s depth Hlen H; [lia|].
  destruct s as [|c s']; [discriminate|]. simpl in Hlen.
  destruct (isSpace c) eqn:Hs.
  { rewrite scanFrom_space in H by assumption.
    apply IH in H; [|lia]. destruct H as (pre & rest & Hc & ->).
    exists (String c pre), rest. split; [|reflexivity].
    apply Closing_char; try assumption;
      try (apply (isSpace_not _ _ Hs); reflexivity).
    intros _. split; apply (isSpace_not _ _ Hs); reflexivity. }
  destruct (Ascii.eqb_spec c DQUOTE) as [->|Hq].
  { rewrite scanFrom_quote in H.
    destruct (skipStringLoop s') as [s1|e] eqn:E; [|discriminate].
    cbn [bind] in H. pose proof (skipStringLoop_shorter _ _ E) as Hlt.
    apply skipStringLoop_inv in E. destruct E as (body & text & He & ->).
    apply IH in H; [|lia]. destruct H as (pre & rest & Hc & ->).
    exists (quoted body ++ pre), rest. split; [now apply (Closing_literal _ text)|].
    rewrite quoted_append. simpl. now rewrite append_assoc. }
  destruct (Ascii.eqb_spec c "{") as [->|Ho].
  { rewrite scanFrom_open in H. apply IH in H; [|lia].
    destruct H as (pre & rest & (inner & pre' & Hi & -> & Hc) & ->).
    exists (String "{" (inner ++ String "}" pre')), rest.
    split; [now apply Closing_group|]. simpl. now rewrite append_assoc. }
  destruct (Ascii.eqb_spec c "}") as [->|Hc].
  { destruct depth as [|d]; [discriminate|].
    rewrite scanFrom_close in H. apply IH in H; [|lia].
    destruct H as (pre & rest & Hcl & ->).
    exists (String "}" pre), rest. split; [|reflexivity].
    exists EmptyString, pre. repeat split; [constructor | assumption]. }
  destruct depth as [|d].
  - destruct (Ascii.eqb_spec c ":") as [->|H1].
    { exists EmptyString, s'. split; [constructor | reflexivity]. }
    destruct (Ascii.eqb_spec c ",") as [->|H2]; [discriminate|].
    rewrite scanFrom_plain in H by (try assumption; now split).
    apply IH in H; [|lia]. destruct H as (pre & rest & Hcl & ->).
    exists (String c pre), rest. split; [|reflexivity].
    apply Closing_char; try assumption. now split.
  - rewrite scanFrom_plain in H by (try assumption; discriminate).
    apply IH in H; [|lia]. destruct H as (pre & rest & Hcl & ->).
    exists (String c pre), rest. split; [|reflexivity].
    apply Closing_char; try assumption. discriminate.
Qed.

End Classifier.

Section ClassifierClaim.
Context `{RT : JsRuntime}.
Import Parser.

Lemma isRecordCollection_record (pre rest : string) :
  Undelimited pre -> isRecordCollection (pre ++ String ":" rest) = Ok true.
Proof.
  intro H. unfold isRecordCollection. rewrite (scanFrom_Undelimited _ H).
  apply scanFrom_colon.
Qed.

Lemma isRecordCollection_list (pre : string) (c : ascii) (rest : string) :
  Undelimited pre -> c = ","%char \/ c = "}"%char ->
  isRecordCollection (pre ++ String c rest) = Ok false.
Proof.
  intros H Hc. unfold isRecordCollection. rewrite (scanFrom_Undelimited _ H).
  destruct Hc as [-> | ->]; reflexivity.
Qed.

Lemma isRecordCollection_end (pre : string) :
  Undelimited pre -> isRecordCollection pre = Ok false.
Proof.
  intro H. unfold isRecordCollection.
  rewrite <- (append_nil_r pre). now rewrite (scanFrom_Undelimited _ H).
Qed.

Lemma skipWhitespace_spaces (ws : string) (c : ascii) (rest : string) :
  allSpace ws = true -> isSpace c = false ->
  skipWhitespace (ws ++ String c rest) = String c rest.
Proof.
  intros Hws Hc. induction ws as [|w ws IH]; simpl.
  - now rewrite Hc.
  - simpl in Hws. apply andb_true_iff in Hws. destruct Hws as [Hw Hws].
    rewrite Hw. now apply IH.
Qed.

(** An empty pair of braces is answered before the classifier is
    consulted, whatever stands for the classifier. *)
Lemma parseCollection_empty (classify : string -> result bool)
  (parseValue : string -> state AppleScriptValue) (fuel : nat) (ws rest : string) :
  allSpace ws = true ->
  parseCollection classify parseValue fuel (String "{" (ws ++ String "}" rest))
  = Ok (VList [], rest).
Proof.
  intro Hws. unfold parseCollection. cbn [consume bind].
  change (Ascii.eqb "{" "{") with true. cbv iota. cbn [bind].
  rewrite skipWhitespace_spaces by (assumption || reflexivity).
  reflexivity.
Qed.

Lemma parseWith_empty (classify : string -> result bool) :
  parseWith classify "{}" = Ok (VList []).
Proof. reflexivity. Qed.

(** The verdict of the classifier decides the shape of the value. *)
Lemma parseCollection_shape (classify : string -> result bool)
  (parseValue : string -> state AppleScriptValue) (fuel : nat) (s : string)
  (v : AppleScriptValue) (r : string) :
  parseCollection classify parseValue fuel s = Ok (v, r) ->
  exists body,
    s = String "{" body
    /\ ((exists after, accept "}" (skipWhitespace body) = Some after /\ v = VList [])
        \/ (classify (skipWhitespace body) = Ok true /\ exists record, v = VRecord record)
        \/ (classify (skipWhitespace body) = Ok false /\ exists items, v = VList items)).
Proof.
  unfold parseCollection.
  destruct (consume (Some "{"%char) s) as [[c body]|e] eqn:Ec; [|discriminate].
  cbn [bind]. intro H. exists body. split.
  { destruct s as [|c' s']; [discriminate|]. cbn [consume] in Ec.
    destruct (Ascii.eqb_spec c' "{") as [->|_]; [|discriminate].
    now injection Ec as _ ->. }
  destruct (accept "}" (skipWhitespace body)) as [after|] eqn:Ea.
  { left. exists after. split; [reflexivity|]. now injection H as <- _. }
  right. destruct (classify (skipWhitespace body)) as [[|]|e]; [| |discriminate];
    cbn [bind] in H.
  - left. split; [reflexivity|].
    destruct (parseFields parseValue fuel [] (skipWhitespace body)) as [[record s3]|e];
      [|discriminate].
    cbn [bind] in H.
    destruct (consume (Some "}"%char) (skipWhitespace s3)) as [[c' s5]|e]; [|discriminate].
    cbn [bind] in H. injection H as <- _. now exists record.
  - right. split; [reflexivity|].
    destruct (parseItems parseValue fuel [] (skipWhitespace body)) as [[items s3]|e];
      [|discriminate].
    cbn [bind] in H.
    destruct (consume (Some "}"%char) (skipWhitespace s3)) as [[c' s5]|e]; [|discriminate].
    cbn [bind] in H. injection H as <- _. now exists items.
Qed.

(** C1.  The classifier answers "record" exactly when the text after the
    opening brace is undelimited material followed by a colon: string
    literals (with their escapes) and nested groups are skipped whole,
    and only a colon at depth 0 that comes before any comma or closing
    brace of depth 0 counts.  It answers "list" when a comma or the
    matching closing brace comes first, and when the text ends.  A
    collection that parses is a record when the classifier answered
    "record" and a list when it answered "list".  The empty collection
    is an empty list whatever the classifier is: it is not consulted. *)
Theorem isRecordCollection_classifies :
  (forall s,
      isRecordCollection s = Ok true
      <-> exists pre rest, Undelimited pre /\ s = pre ++ String ":" rest)
  /\ (forall pre c rest,
         Undelimited pre -> c = ","%char \/ c = "}"%char ->
         isRecordCollection (pre ++ String c rest) = Ok false)
  /\ (forall pre, Undelimited pre -> isRecordCollection pre = Ok false)
  /\ (forall parseValue fuel s v r,
         parseCollection isRecordCollection parseValue fuel s = Ok (v, r) ->
         exists body,
           s = String "{" body
           /\ ((exists after,
                  accept "}" (skipWhitespace body) = Some after /\ v = VList [])
               \/ (isRecordCollection (skipWhitespace body) = Ok true
                   /\ exists record, v = VRecord record)
               \/ (isRecordCollection (skipWhitespace body) = Ok false
                   /\ exists items, v = VList items)))
  /\ (forall classify, parseWith classify "{}" = Ok (VList []))
  /\ (forall classify parseValue fuel ws rest,
         allSpace ws = true ->
         parseCollection classify parseValue fuel (String "{" (ws ++ String "}" rest))
         = Ok (VList [], rest)).
Proof.
  split; [|split; [|split; [|split; [|split]]]].
  - intro s. split.
    + intro H. apply (scanFrom_true_inv (S (String.length s))) in H; [|lia].
      exact H.
    + intros (pre & rest & H & ->). now apply isRecordCollection_record.
  - apply isRecordCollection_list.
  - apply isRecordCollection_end.
  - intros parseValue fuel s v r. apply parseCollection_shape.
  - apply parseWith_empty.
  - apply parseCollection_empty.
Qed.

End ClassifierClaim.

(* ================================================================= *)
(** ** Termination of the parser *)

Section Progress.
Context `{RT : JsRuntime}.
Import Parser.

Lemma skipWhitespace_length (s : string) :
  String.length (skipWhitespace s) <= String.length s.
Proof.
  induction s as [|c s IH]; simpl; [lia|].
  destruct (isSpace c); simpl; lia.
Qed.

Lemma span_length (p : ascii -> bool) (s w r : string) :
  span p s = (w, r) -> String.length s = String.length w + String.length r.
Proof.
  revert w r. induction s as [|c s IH]; simpl; intros w r H.
  - now injection H as <- <-.
  - destruct (p c).
    + destruct (span p s) as [w' r'] eqn:E. injection H as <- <-.
      simpl. now rewrite (IH _ _ eq_refl).
    + now injection H as <- <-.
Qed.

Lemma isEmpty_false_length (s : string) : isEmpty s = false -> 0 < String.length s.
Proof. destruct s; simpl; [discriminate | lia]. Qed.

Lemma dropString_length (n : nat) (s : string) :
  String.length (dropString n s) = String.length s - n.
Proof.
  revert s. induction n as [|n IH]; intro s; simpl; [lia|].
  destruct s as [|c s]; simpl; [reflexivity | apply IH].
Qed.

Lemma consume_shorter (expected : option ascii) (s : string) (c : ascii) (r : string) :
  consume expected s = Ok (c, r) -> String.length s = S (String.length r).
Proof.
  destruct s as [|c' s']; simpl; [discriminate|].
  destruct expected as [e|].
  - destruct (Ascii.eqb c' e); [|discriminate]. now injection 1 as _ <-.
  - now injection 1 as _ <-.
Qed.

Lemma consume_not_fuel (expected : option ascii) (s : string) :
  consume expected s <> Throw OutOfFuel.
Proof.
  destruct s as [|c s]; simpl; [discriminate|].
  destruct expected as [e|]; [destruct (Ascii.eqb c e)|]; discriminate.
Qed.

Lemma parseStringLoop_progress (s : string) :
  forall acc,
    parseStringLoop acc s <> Throw OutOfFuel
    /\ forall text r, parseStringLoop acc s = Ok (text, r) ->
                      String.length r < String.length s.
Proof.
  remember (String.length s) as n eqn:Hn.
  revert s Hn. induction n as [n IH] using lt_wf_ind. intros s Hn acc.
  destruct s as [|c s']; simpl; [split; [discriminate | intros; discriminate]|].
  simpl in Hn.
  destruct (Ascii.eqb c DQUOTE).
  { split; [discriminate|]. intros text r H. injection H as _ <-. lia. }
  destruct (Ascii.eqb c BACKSLASH).
  - destruct s' as [|c' s'']; [split; [discriminate | intros; discriminate]|].
    simpl in Hn.
    destruct (IH (String.length s'') ltac:(lia) s'' eq_refl
                 (acc ++ str1 (unescapeChar c'))) as [A B].
    split; [exact A|]. intros text r H. apply B in H. simpl. lia.
  - destruct (IH (String.length s') ltac:(lia) s' eq_refl (acc ++ str1 c)) as [A B].
    split; [exact A|]. intros text r H. apply B in H. lia.
Qed.

Lemma parseString_progress (s : string) :
  parseString s <> Throw OutOfFuel
  /\ forall text r, parseString s = Ok (text, r) -> String.length r < String.length s.
Proof.
  unfold parseString.
  destruct (consume (Some DQUOTE) s) as [[c s1]|e] eqn:E; cbn [bind].
  - apply consume_shorter in E.
    destruct (parseStringLoop_progress s1 EmptyString) as [A B].
    split; [exact A|]. intros text r H. apply B in H. lia.
  - split; [|intros; discriminate].
    intro H. apply (consume_not_fuel (Some DQUOTE) s). congruence.
Qed.

Lemma parseNumber_progress (s : string) (c : ascii) (s' : string) :
  s = String c s' -> Ascii.eqb c "-" || isDigitChar c = true ->
  parseNumber s <> Throw OutOfFuel
  /\ forall n r, parseNumber s = Ok (n, r) -> String.length r < String.length s.
Proof.
  intros -> Hc. unfold parseNumber.
  assert (Hgo : forall s1 s2 s3 (whole fraction : string),
             span isDigitChar s1 = (whole, s2) ->
             match accept "." s2 with
             | Some s0 => let '(digits, r) := span isDigitChar s0 in ("." ++ digits, r)
             | None => (EmptyString, s2)
             end = (fraction, s3) ->
             String.length s3 <= String.length s1).
  { intros s1 s2 s3 whole fraction E1 E2. apply span_length in E1.
    destruct (accept "." s2) as [s0|] eqn:Ea.
    - apply accept_Some in Ea. subst s2.
      destruct (span isDigitChar s0) as [digits r0] eqn:E3.
      apply span_length in E3. injection E2 as _ <-. simpl in E1. lia.
    - injection E2 as _ <-. lia. }
  simpl accept.
  destruct (Ascii.eqb_spec c "-") as [->|Hne].
  - destruct (span isDigitChar s') as [whole s2] eqn:E1.
    destruct (match accept "." s2 with
              | Some s0 => let '(digits, r) := span isDigitChar s0 in ("." ++ digits, r)
              | None => (EmptyString, s2)
              end) as [fraction s3] eqn:E2.
    pose proof (Hgo _ _ _ _ _ E1 E2).
    split; [discriminate|]. intros n r H0. injection H0 as _ <-. simpl. lia.
  - simpl in Hc. simpl span. rewrite Hc.
    destruct (span isDigitChar s') as [whole s2] eqn:E1.
    destruct (match accept "." s2 with
              | Some s0 => let '(digits, r) := span isDigitChar s0 in ("." ++ digits, r)
              | None => (EmptyString, s2)
              end) as [fraction s3] eqn:E2.
    pose proof (Hgo _ _ _ _ _ E1 E2).
    split; [discriminate|]. intros n r H0. injection H0 as _ <-. simpl. lia.
Qed.

Lemma parseBareword_progress (s : string) :
  parseBareword s <> Throw OutOfFuel
  /\ forall w r, parseBareword s = Ok (w, r) -> String.length r < String.length s.
Proof.
  unfold parseBareword.
  destruct (span isBarewordChar s) as [word rest] eqn:E. apply span_length in E.
  destruct (isEmpty word) eqn:Hw.
  - split; [discriminate | intros; discriminate].
  - apply isEmpty_false_length in Hw.
    split; [discriminate|]. intros w r H. injection H as _ <-. lia.
Qed.

Lemma parseKey_progress (s : string) :
  parseKey s <> Throw OutOfFuel
  /\ forall k r, parseKey s = Ok (k, r) -> String.length r < String.length s.
Proof.
  unfold parseKey. pose proof (skipWhitespace_length s) as Hw.
  destruct (peek (skipWhitespace s)) as [c|]; [|split; [discriminate | intros; discriminate]].
  destruct (Ascii.eqb c DQUOTE).
  - destruct (parseString_progress (skipWhitespace s)) as [A B].
    split; [exact A|]. intros k r H. apply B in H. lia.
  - destruct (span isKeyChar (skipWhitespace s)) as [key rest] eqn:E.
    apply span_length in E.
    destruct (isEmpty key) eqn:Hk.
    + split; [discriminate | intros; discriminate].
    + apply isEmpty_false_length in Hk.
      split; [discriminate|]. intros k r H. injection H as _ <-. lia.
Qed.

Lemma prefix_length (p s : string) :
  String.prefix p s = true -> String.length p <= String.length s.
Proof.
  revert s. induction p as [|c p IH]; intros [|d s]; simpl; try lia; try discriminate.
  destruct (Ascii.ascii_dec c d); [|discriminate]. intro H. apply IH in H. lia.
Qed.

Section LoopProgress.
Variable classify : string -> result bool.
Hypothesis classify_total : forall s, classify s <> Throw OutOfFuel.
Variable bound : nat.
Variable parseValue : string -> state AppleScriptValue.
Hypothesis parseValue_progress : Progresses bound parseValue.

Lemma parseItems_progress (fuel : nat) :
  forall items s,
    String.length s < fuel -> String.length s < bound ->
    parseItems parseValue fuel items s <> Throw OutOfFuel
    /\ forall l r, parseItems parseValue fuel items s = Ok (l, r) ->
                   String.length r < String.length s.
Proof.
  induction fuel as [|fuel IH]; intros items s Hf Hb; [lia|].
  simpl. destruct (parseValue_progress s Hb) as [A B].
  destruct (parseValue s) as [[value s1]|e] eqn:E; cbn [bind].
  - specialize (B _ _ eq_refl). pose proof (skipWhitespace_length s1) as Hw.
    destruct (accept "," (skipWhitespace s1)) as [s3|] eqn:Ea.
    + apply accept_Some in Ea. rewrite Ea in Hw. simpl in Hw.
      destruct (IH (items ++ [value])%list s3 ltac:(lia) ltac:(lia)) as [C D].
      split; [exact C|]. intros l r H. apply D in H. lia.
    + split; [discriminate|]. intros l r H. injection H as _ <-. lia.
  - split; [congruence | intros; discriminate].
Qed.

Lemma parseFields_progress (fuel : nat) :
  forall record s,
    String.length s < fuel -> String.length s < bound ->
    parseFields parseValue fuel record s <> Throw OutOfFuel
    /\ forall l r, parseFields parseValue fuel record s = Ok (l, r) ->
                   String.length r < String.length s.
Proof.
  induction fuel as [|fuel IH]; intros record s Hf Hb; [lia|].
  simpl. destruct (parseKey_progress s) as [A B].
  destruct (parseKey s) as [[key s1]|e] eqn:E; cbn [bind];
    [|split; [congruence | intros; discriminate]].
  specialize (B _ _ eq_refl). pose proof (skipWhitespace_length s1) as Hw1.
  destruct (consume (Some ":"%char) (skipWhitespace s1)) as [[c s3]|e] eqn:Ec; cbn [bind].
  2:{ split; [|intros; discriminate].
      intro H. apply (consume_not_fuel (Some ":"%char) (skipWhitespace s1)). congruence. }
  apply consume_shorter in Ec.
  destruct (parseValue_progress s3 ltac:(lia)) as [C D].
  destruct (parseValue s3) as [[value s4]|e] eqn:Ev; cbn [bind];
    [|split; [congruence | intros; discriminate]].
  specialize (D _ _ eq_refl). pose proof (skipWhitespace_length s4) as Hw4.
  destruct (accept "," (skipWhitespace s4)) as [s6|] eqn:Ea.
  - apply accept_Some in Ea. rewrite Ea in Hw4. simpl in Hw4.
    destruct (IH (setField key value record) s6 ltac:(lia) ltac:(lia)) as [F G].
    split; [exact F|]. intros l r H. apply G in H. lia.
  - split; [discriminate|]. intros l r H. injection H as _ <-. lia.
Qed.

Lemma parseCollection_progress (fuel : nat) (s : string) :
  String.length s <= fuel -> String.length s <= bound ->
  parseCollection classify parseValue fuel s <> Throw OutOfFuel
  /\ forall v r, parseCollection classify parseValue fuel s = Ok (v, r) ->
                 String.length r < String.length s.
Proof.
  intros Hf Hb. unfold parseCollection.
  destruct (consume (Some "{"%char) s) as [[c s1]|e] eqn:Ec; cbn [bind].
  2:{ split; [|intros; discriminate].
      intro H. apply (consume_not_fuel (Some "{"%char) s). congruence. }
  apply consume_shorter in Ec. pose proof (skipWhitespace_length s1) as Hw.
  destruct (accept "}" (skipWhitespace s1)) as [s3|] eqn:Ea.
  { apply accept_Some in Ea. rewrite Ea in Hw. simpl in Hw.
    split; [discriminate|]. intros v r H. injection H as _ <-. lia. }
  pose proof (classify_total (skipWhitespace s1)) as Hct.
  destruct (classify (skipWhitespace s1)) as [[|]|e]; cbn [bind];
    [| |split; [congruence | intros; discriminate]].
  - destruct (parseFields_progress fuel [] (skipWhitespace s1) ltac:(lia) ltac:(lia))
      as [A B].
    destruct (parseFields parseValue fuel [] (skipWhitespace s1)) as [[record s3]|e];
      cbn [bind]; [|split; [congruence | intros; discriminate]].
    specialize (B _ _ eq_refl). pose proof (skipWhitespace_length s3) as Hw3.
    destruct (consume (Some "}"%char) (skipWhitespace s3)) as [[c' s5]|e] eqn:Ec'; cbn [bind].
    + apply consume_shorter in Ec'.
      split; [discriminate|]. intros v r H. injection H as _ <-. lia.
    + split; [|intros; discriminate].
      intro H. apply (consume_not_fuel (Some "}"%char) (skipWhitespace s3)). congruence.
  - destruct (parseItems_progress fuel [] (skipWhitespace s1) ltac:(lia) ltac:(lia))
      as [A B].
    destruct (parseItems parseValue fuel [] (skipWhitespace s1)) as [[items s3]|e];
      cbn [bind]; [|split; [congruence | intros; discriminate]].
    specialize (B _ _ eq_refl). pose proof (skipWhitespace_length s3) as Hw3.
    destruct (consume (Some "}"%char) (skipWhitespace s3)) as [[c' s5]|e] eqn:Ec'; cbn [bind].
    + apply consume_shorter in Ec'.
      split; [discriminate|]. intros v r H. injection H as _ <-. lia.
    + split; [|intros; discriminate].
      intro H. apply (consume_not_fuel (Some "}"%char) (skipWhitespace s3)). congruence.
Qed.

End LoopProgress.

Lemma isRecordCollection_total (s : string) : isRecordCollection s <> Throw OutOfFuel.
Proof.
  unfold isRecordCollection, scanFrom.
  assert (H : forall f depth s, String.length s < f ->
                scanCollection f depth s <> Throw OutOfFuel).
  { clear s. induction f as [|f IH]; intros depth s Hf; [lia|].
    destruct s as [|c s']; [discriminate|]. simpl in Hf. simpl.
    destruct (isSpace c); [apply IH; lia|].
    destruct (Ascii.eqb c DQUOTE).
    { unfold skipStringFrom. simpl dropString.
      destruct (skipStringLoop s') as [s1|e] eqn:E; cbn [bind].
      - apply skipStringLoop_shorter in E. apply IH; lia.
      - clear -E. intro H. injection H as ->.
        revert E. remember (String.length s') as n eqn:Hn. revert s' Hn.
        induction n as [n IHn] using lt_wf_ind. intros s' Hn.
        destruct s' as [|a s']; simpl; [discriminate|]. simpl in Hn.
        destruct (Ascii.eqb a BACKSLASH).
        + destruct s' as [|b s'']; [discriminate|]. simpl in Hn.
          apply (IHn (String.length s'')); [lia | reflexivity].
        + destruct (Ascii.eqb a DQUOTE); [discriminate|].
          apply (IHn (String.length s')); [lia | reflexivity]. }
    destruct (Ascii.eqb c "{"); [apply IH; lia|].
    destruct (Ascii.eqb c "}").
    { destruct (Nat.eqb depth 0); [discriminate | apply IH; lia]. }
    destruct (Nat.eqb depth 0 && Ascii.eqb c ":"); [discriminate|].
    destruct (Nat.eqb depth 0 && Ascii.eqb c ","); [discriminate|].
    apply IH; lia. }
  apply H. lia.
Qed.

Lemma keyword_progress (kw s : string) (v v' : AppleScriptValue) (r : string) :
  startsWith kw s = true -> 0 < String.length kw ->
  @Ok (AppleScriptValue * string) (v, dropString (String.length kw) s) = Ok (v', r) ->
  String.length r < String.length s.
Proof.
  intros Hp Hk H. injection H as _ <-. rewrite dropString_length.
  apply prefix_length in Hp. lia.
Qed.

(** With more fuel than text, [parseValue] never runs out of fuel, and
    a value it reads is at least one character long. *)
Lemma parseValueWith_progress (classify : string -> result bool) :
  (forall s, classify s <> Throw OutOfFuel) ->
  forall fuel, Progresses fuel (parseValueWith classify fuel).
Proof.
  intros Hc fuel. induction fuel as [|fuel IH]; intros s Hf; [lia|].
  cbn [parseValueWith]. pose proof (skipWhitespace_length s) as Hw.
  destruct (skipWhitespace s) as [|char s'] eqn:Es;
    [split; [discriminate | intros; discriminate]|].
  cbn [peek].
  destruct (Ascii.eqb char "{").
  { destruct (parseCollection_progress classify Hc fuel (parseValueWith classify fuel) IH
                fuel (String char s') ltac:(lia) ltac:(lia)) as [A B].
    split; [exact A|]. intros v r H. apply B in H. lia. }
  destruct (Ascii.eqb char DQUOTE).
  { destruct (parseString_progress (String char s')) as [A B].
    destruct (parseString (String char s')) as [[text rest]|e]; cbn [bind].
    - specialize (B _ _ eq_refl). split; [discriminate|].
      intros v r H. injection H as _ <-. lia.
    - split; [congruence | intros; discriminate]. }
  destruct (startsWith "missing value" (String char s')) eqn:E1.
  { split; [discriminate|]. intros v r H.
    pose proof (keyword_progress _ _ _ _ _ E1 ltac:(simpl; lia) H). lia. }
  destruct (startsWith "true" (String char s')) eqn:E2.
  { split; [discriminate|]. intros v r H.
    pose proof (keyword_progress _ _ _ _ _ E2 ltac:(simpl; lia) H). lia. }
  destruct (startsWith "false" (String char s')) eqn:E3.
  { split; [discriminate|]. intros v r H.
    pose proof (keyword_progress _ _ _ _ _ E3 ltac:(simpl; lia) H). lia. }
  destruct (Ascii.eqb char "-" || isDigit (Some char)) eqn:E4.
  { destruct (parseNumber_progress (String char s') char s' eq_refl E4) as [A B].
    destruct (parseNumber (String char s')) as [[n rest]|e]; cbn [bind].
    - specialize (B _ _ eq_refl). split; [discriminate|].
      intros v r H. injection H as _ <-. lia.
    - split; [congruence | intros; discriminate]. }
  destruct (parseBareword_progress (String char s')) as [A B].
  destruct (parseBareword (String char s')) as [[word rest]|e]; cbn [bind].
  - specialize (B _ _ eq_refl). split; [discriminate|].
    intros v r H. injection H as _ <-. lia.
  - split; [congruence | intros; discriminate].
Qed.

(** The fuel [parse] hands to [parseValue] is enough on every input. *)
Lemma parse_terminates (input : string) : parse input <> Throw OutOfFuel.
Proof.
  unfold parse, parseWith.
  destruct (parseValueWith_progress isRecordCollection isRecordCollection_total
              (S (String.length (skipWhitespace input))) (skipWhitespace input)
              ltac:(lia)) as [A _].
  destruct (parseValueWith isRecordCollection _ (skipWhitespace input))
    as [[value rest]|e]; cbn [bind].
  - destruct (isEmpty (skipWhitespace rest)); discriminate.
  - congruence.
Qed.

End Progress.

(* ================================================================= *)
(** ** Claims on the parser *)

Section ParserClaims.
Context `{RT : JsRuntime}.
Import Parser.

(** Every text splits at its closing quote, or has none. *)
Lemma Escaped_total (s : string) :
  exists body text,
    Escaped body text
    /\ (s = body \/ s = body ++ str1 BACKSLASH \/ exists rest, s = body ++ String DQUOTE rest).
Proof.
  remember (String.length s) as n eqn:Hn.
  revert s Hn. induction n as [n IH] using lt_wf_ind. intros s Hn.
  destruct s as [|c s'].
  { exists EmptyString, EmptyString. split; [constructor | now left]. }
  simpl in Hn.
  destruct (Ascii.eqb_spec c DQUOTE) as [->|Hq].
  { exists EmptyString, EmptyString. split; [constructor|].
    right; right. now exists s'. }
  destruct (Ascii.eqb_spec c BACKSLASH) as [->|Hb].
  - destruct s' as [|c' s''].
    { exists EmptyString, EmptyString. split; [constructor | right; now left]. }
    simpl in Hn.
    destruct (IH (String.length s'') ltac:(lia) s'' eq_refl) as (body & text & He & Hs).
    destruct (Escaped_escape c' _ _ He) as [text' He'].
    exists (String BACKSLASH (String c' body)), text'. split; [exact He'|].
    destruct Hs as [-> | [-> | [rest ->]]];
      [now left | right; now left | right; right; now exists rest].
  - destruct (IH (String.length s') ltac:(lia) s' eq_refl) as (body & text & He & Hs).
    exists (String c body), (String c text). split; [now constructor|].
    destruct Hs as [-> | [-> | [rest ->]]];
      [now left | right; now left | right; right; now exists rest].
Qed.

Lemma parseString_quoted (body rest : string) :
  parseString (String DQUOTE (body ++ rest)) = parseStringLoop EmptyString (body ++ rest).
Proof. reflexivity. Qed.

(** C7.  Between the quotes, a backslash before a quote, a backslash, n,
    r or t stands for the quote, the backslash, the line feed, the
    carriage return or the tab, and before any other character for that
    character ([Escaped]); the literal is read up to its closing quote,
    also as a value.  A literal that the input ends before closing makes
    the parser throw: "unterminated string" where the text ends, and "unexpected end" where the last character is
    a lone backslash. *)
Theorem parseString_escapes (body text rest : string) :
  Escaped body text ->
  parseString (quoted body ++ rest) = Ok (text, rest)
  /\ (forall classify fuel,
         parseValueWith classify (S fuel) (quoted body ++ rest) = Ok (VString text, rest))
  /\ parseString (String DQUOTE body)
     = Throw (Error "Unterminated string literal in AppleScript result")
  /\ parseString (String DQUOTE (body ++ str1 BACKSLASH))
     = Throw (Error "Unexpected end of AppleScript result").
Proof.
  intro H. destruct (parseStringLoop_Escaped _ _ H EmptyString) as (A & B & C).
  assert (Hs : parseString (quoted body ++ rest) = Ok (text, rest)).
  { rewrite quoted_append. rewrite parseString_quoted. apply A. }
  split; [exact Hs|]. split; [|split].
  - intros classify fuel. rewrite quoted_append in *.
    cbn [parseValueWith skipWhitespace isWhitespaceChar].
    change (isSpace DQUOTE) with false. cbn [peek].
    change (Ascii.eqb DQUOTE "{") with false.
    change (Ascii.eqb DQUOTE DQUOTE) with true. cbv iota.
    rewrite Hs. reflexivity.
  - rewrite <- (append_nil_r body) at 1. rewrite parseString_quoted.
    rewrite append_nil_r. exact B.
  - rewrite parseString_quoted. exact C.
Qed.

Lemma isEmpty_skipWhitespace (s : string) : isEmpty (skipWhitespace s) = allSpace s.
Proof.
  induction s as [|c s IH]; simpl; [reflexivity|].
  destruct (isSpace c); simpl; [exact IH | reflexivity].
Qed.

Lemma allSpace_trimEnd (s : string) : allSpace s = true -> trimEnd s = EmptyString.
Proof. destruct s as [|c s]; [reflexivity|]. intro H. cbn [trimEnd]. now rewrite H. Qed.

Lemma trimEnd_cons (c : ascii) (s : string) :
  allSpace (String c s) = false -> trimEnd (String c s) = String c (trimEnd s).
Proof. intro H. cbn [trimEnd]. now rewrite H. Qed.

Lemma trim_prefixed (text : string) :
  trim ("=> " ++ text)
  = if allSpace text then "=>" else "=> " ++ trimEnd text.
Proof.
  unfold trim. change ("=> " ++ text) with (String "=" (String ">" (String " " text))).
  rewrite !trimEnd_cons by reflexivity.
  destruct (allSpace text) eqn:E.
  - rewrite allSpace_trimEnd by (simpl; exact E). reflexivity.
  - rewrite trimEnd_cons by (simpl; exact E). reflexivity.
Qed.

Lemma parseAppleScriptResult_prefixed (text : string) :
  parseAppleScriptResult (Some (VString ("=> " ++ text))) = parse (trim text).
Proof.
  unfold parseAppleScriptResult. rewrite trim_prefixed.
  destruct (allSpace text) eqn:E.
  - unfold trim. rewrite (allSpace_trimEnd _ E). reflexivity.
  - reflexivity.
Qed.

Lemma stripPrefix_none (t : string) :
  (forall r, t <> "=>" ++ r) -> stripPrefix t = t.
Proof.
  intro H. unfold stripPrefix.
  destruct (accept "=" t) as [after|] eqn:E1; [|reflexivity].
  destruct (accept ">" after) as [rest|] eqn:E2; [|reflexivity].
  apply accept_Some in E1, E2. subst. now elim (H rest).
Qed.

(** C6.  Once the top-level value is read, what is left must be
    whitespace: anything else makes [parse] throw "Unexpected trailing
    content", and with nothing else the value is the result.  A text
    that starts with the prefix "=> " is parsed as the text after the
    prefix; a text without the prefix is parsed as it is (both trimmed). *)
Theorem parse_trailing_content_and_prefix :
  (forall input value rest,
      parseValue (S (String.length (skipWhitespace input))) (skipWhitespace input)
      = Ok (value, rest) ->
      (allSpace rest = false ->
       parse input = Throw (Error "Unexpected trailing content in AppleScript result"))
      /\ (allSpace rest = true -> parse input = Ok value))
  /\ (forall text,
         parseAppleScriptResult (Some (VString ("=> " ++ text))) = parse (trim text))
  /\ (forall text,
         isEmpty (trim text) = false -> (forall r, trim text <> "=>" ++ r) ->
         parseAppleScriptResult (Some (VString text)) = parse (trim text)).
Proof.
  split; [|split].
  - intros input value rest H. unfold parse, parseWith.
    unfold parseValue in H. rewrite H. cbn [bind].
    rewrite isEmpty_skipWhitespace.
    split; intros ->; reflexivity.
  - apply parseAppleScriptResult_prefixed.
  - intros text He Hp. unfold parseAppleScriptResult. rewrite He.
    now rewrite stripPrefix_none.
Qed.

End ParserClaims.

(* ================================================================= *)
(** ** Coercion to text ([coerceString]) *)

Section CoerceString.
Context `{RT : JsRuntime}.

(** The text of an array element in [String(array)]. *)
Lemma ToString_list (items : list AppleScriptValue) :
  ToString (VList items)
  = join "," (map (fun item => match item with
                               | VNull => EmptyString
                               | _ => ToString item
                               end) items).
Proof. reflexivity. Qed.


End CoerceString.

(* ================================================================= *)
(** ** The status envelope *)

Section StatusEnvelope.
Context `{RT : JsRuntime}.

Lemma isErrorEnvelope_reportsFailure (raw : AppleScriptValue) :
  isErrorEnvelope raw = true -> reportsFailure raw = true.
Proof.
  destruct raw as [| | | | |fields]; try discriminate. simpl.
  destruct (getField "status" fields) as [[| | |s| |]|]; try discriminate.
  simpl. trivial.
Qed.

(** The guard of the three fetch functions is [reportsFailure]. *)
Lemma guard_reportsFailure (raw : AppleScriptValue) :
  truthy (Some raw) && typeofObject raw && negb (isArray raw)
  && String.eqb (coerceString (prop raw "status") EmptyString) "error"
  = reportsFailure raw.
Proof.
  destruct raw as [| b | n | s | items | fields]; simpl; try reflexivity.
  - destruct b; reflexivity.
  - now rewrite andb_false_r.
  - now rewrite andb_false_r.
Qed.

Lemma fetchNotesResult_cases (limit : option Z) (folder : option string)
  (raw : AppleScriptValue) :
  Notes.fetchNotesResult limit folder raw
  = if reportsFailure raw then
      Throw (Error
        (if String.eqb (failureReason raw) "folder_not_found" then
           "Could not find a Notes folder named "
             ++ quoted (match folder with Some f => f | None => "undefined" end) ++ "."
         else if isEmpty (failureReason raw) then "Notes operation failed."
         else failureReason raw))
    else Ok (sliceTo (Notes.maxNotes limit) (Notes.mapNoteRecords raw)).
Proof.
  unfold Notes.fetchNotesResult. rewrite <- guard_reportsFailure.
  destruct (truthy (Some raw) && typeofObject raw && negb (isArray raw)); [|reflexivity].
  cbn [andb]. unfold failureReason.
  destruct (String.eqb (coerceString (prop raw "status") EmptyString) "error");
    [|reflexivity].
  destruct (String.eqb (coerceString (prop raw "reason") EmptyString) "folder_not_found");
    reflexivity.
Qed.

Lemma fetchEventsResult_cases (limit : Z) (startMs endMs : timeValue)
  (raw : AppleScriptValue) :
  Calendar.fetchEventsResult limit startMs endMs raw
  = if reportsFailure raw then
      Throw (Error
        (if String.eqb (failureReason raw) "calendar_not_found" then
           "Could not find a calendar matching the requested name."
         else if isEmpty (failureReason raw) then "Calendar operation failed."
         else failureReason raw))
    else
      events <- Calendar.mapEventRecords raw ;;
      Ok (sliceTo (Calendar.maxEvents limit)
            (filter (Calendar.inRangeEvent startMs endMs) events)).
Proof.
  unfold Calendar.fetchEventsResult. rewrite <- guard_reportsFailure.
  destruct (truthy (Some raw) && typeofObject raw && negb (isArray raw)); [|reflexivity].
  cbn [andb]. unfold failureReason.
  destruct (String.eqb (coerceString (prop raw "status") EmptyString) "error");
    [|reflexivity].
  destruct (String.eqb (coerceString (prop raw "reason") EmptyString) "calendar_not_found");
    reflexivity.
Qed.

Lemma fetchRemindersResult_cases (listName : option string) (raw : AppleScriptValue) :
  Reminders.fetchRemindersResult listName raw
  = if reportsFailure raw then
      Throw (Error
        (if String.eqb (failureReason raw) "list_not_found" then
           "Could not find the specified reminders list."
         else if isEmpty (failureReason raw) then "An unknown Reminders error occurred."
         else failureReason raw))
    else Ok (Reminders.mapReminderRecords raw listName).
Proof.
  unfold Reminders.fetchRemindersResult. rewrite <- guard_reportsFailure.
  destruct (truthy (Some raw) && typeofObject raw && negb (isArray raw)); [|reflexivity].
  cbn [andb]. unfold failureReason.
  destruct (String.eqb (coerceString (prop raw "status") EmptyString) "error");
    [|reflexivity].
  destruct (String.eqb (coerceString (prop raw "reason") EmptyString) "list_not_found");
    reflexivity.
Qed.


End StatusEnvelope.

(* ================================================================= *)
(** ** The sort *)

Section SortFacts.
Context {A : Type}.
Variable compareFn : A -> A -> option Z.

Lemma insertSorted_perm (x : A) (l : list A) :
  Permutation (insertSorted compareFn x l) (x :: l).
Proof.
  induction l as [|y l IH]; simpl; [reflexivity|].
  destruct (sortCompare compareFn x y <=? 0)%Z; [reflexivity|].
  rewrite IH. apply perm_swap.
Qed.

Lemma sort_perm (l : list A) : Permutation (sort compareFn l) l.
Proof.
  induction l as [|x l IH]; simpl; [reflexivity|].
  rewrite insertSorted_perm. now constructor.
Qed.

Variable key : A -> Z.

Lemma insertSorted_sorted (x : A) (l : list A) :
  (forall y, In y l -> (sortCompare compareFn x y <=? 0)%Z = (key x <=? key y)%Z) ->
  StronglySorted (fun a b => (key a <= key b)%Z) l ->
  StronglySorted (fun a b => (key a <= key b)%Z) (insertSorted compareFn x l).
Proof.
  intros Hx Hs. induction Hs as [|y l Hs IH Hy]; simpl.
  - repeat constructor.
  - rewrite (Hx y (or_introl eq_refl)).
    destruct (key x <=? key y)%Z eqn:E.
    + apply Z.leb_le in E. constructor; [now constructor|].
      constructor; [exact E|].
      rewrite Forall_forall in *. intros z Hz. specialize (Hy z Hz). lia.
    + apply Z.leb_gt in E. constructor.
      * apply IH. intros z Hz. apply Hx. now right.
      * rewrite Forall_forall in *. intros z Hz.
        apply (Permutation_in _ (insertSorted_perm x l)) in Hz.
        destruct Hz as [<- | Hz]; [lia | now apply Hy].
Qed.

Lemma sort_sorted (l : list A) :
  OrdersBy compareFn key l -> StronglySorted (fun a b => (key a <= key b)%Z) (sort compareFn l).
Proof.
  induction l as [|x l IH]; intro H; simpl; [constructor|].
  apply insertSorted_sorted.
  - intros y Hy. apply H; [now left|].
    right. exact (Permutation_in _ (sort_perm l) Hy).
  - apply IH. intros a b Ha Hb. apply H; now right.
Qed.

Lemma insertSorted_stable (k : Z) (x : A) (l : list A) :
  (forall y, In y l -> (sortCompare compareFn x y <=? 0)%Z = (key x <=? key y)%Z) ->
  filter (fun a => (key a =? k)%Z) (insertSorted compareFn x l)
  = filter (fun a => (key a =? k)%Z) (x :: l).
Proof.
  induction l as [|y l IH]; intro Hx; [reflexivity|].
  cbn [insertSorted]. rewrite (Hx y (or_introl eq_refl)).
  destruct (key x <=? key y)%Z eqn:E; [reflexivity|].
  apply Z.leb_gt in E. cbn [filter].
  rewrite IH by (intros z Hz; apply Hx; now right). cbn [filter].
  destruct (key x =? k)%Z eqn:Ex; [|reflexivity].
  apply Z.eqb_eq in Ex.
  destruct (key y =? k)%Z eqn:Ey; [|reflexivity].
  apply Z.eqb_eq in Ey. lia.
Qed.

(** The sort is stable: the elements of one key keep their order. *)
Lemma sort_stable (k : Z) (l : list A) :
  OrdersBy compareFn key l ->
  filter (fun a => (key a =? k)%Z) (sort compareFn l)
  = filter (fun a => (key a =? k)%Z) l.
Proof.
  induction l as [|x l IH]; intro H; [reflexivity|].
  cbn [sort]. rewrite insertSorted_stable.
  - cbn [filter]. rewrite IH by (intros a b Ha Hb; apply H; now right). reflexivity.
  - intros y Hy. apply H; [now left|].
    right. exact (Permutation_in _ (sort_perm l) Hy).
Qed.

End SortFacts.

(* ================================================================= *)
(** ** Keyed stores *)

Section Assoc.
Context {V : Type}.

Lemma assocGet_assocSet (i j : string) (v : V) (entries : list (string * V)) :
  assocGet i (assocSet j v entries)
  = if String.eqb j i then Some v else assocGet i entries.
Proof.
  induction entries as [|[k w] rest IH]; simpl.
  - reflexivity.
  - destruct (String.eqb_spec k j) as [->|Hkj]; simpl.
    + destruct (String.eqb j i); reflexivity.
    + destruct (String.eqb_spec k i) as [->|Hki].
      * destruct (String.eqb_spec j i) as [->|_]; [now elim Hkj | reflexivity].
      * exact IH.
Qed.

Lemma assocSet_keys (j : string) (v : V) (entries : list (string * V)) :
  map fst (assocSet j v entries)
  = if existsb (String.eqb j) (map fst entries) then map fst entries
    else (map fst entries ++ [j])%list.
Proof.
  induction entries as [|[k w] rest IH]; simpl; [reflexivity|].
  rewrite (String.eqb_sym j k).
  destruct (String.eqb k j); simpl; [reflexivity|].
  rewrite IH. now destruct (existsb (String.eqb j) (map fst rest)).
Qed.

Lemma existsb_eqb_In (j : string) (keys : list string) :
  existsb (String.eqb j) keys = true <-> In j keys.
Proof.
  rewrite existsb_exists. split.
  - intros (x & Hx & E). apply String.eqb_eq in E. now subst.
  - intro H. exists j. split; [exact H | apply String.eqb_refl].
Qed.

Lemma assocSet_NoDup (j : string) (v : V) (entries : list (string * V)) :
  NoDup (map fst entries) -> NoDup (map fst (assocSet j v entries)).
Proof.
  intro H. rewrite assocSet_keys.
  destruct (existsb (String.eqb j) (map fst entries)) eqn:E; [exact H|].
  apply NoDup_app; [exact H | repeat constructor; intros [] | ].
  intros x Hx [<- | []].
  apply existsb_eqb_In in Hx. congruence.
Qed.

Lemma assocGet_In (i : string) (v : V) (entries : list (string * V)) :
  NoDup (map fst entries) ->
  (In (i, v) entries <-> assocGet i entries = Some v).
Proof.
  induction entries as [|[k w] rest IH]; simpl; intro H.
  - split; [intros [] | discriminate].
  - inversion H as [|? ? Hk Hr]; subst.
    destruct (String.eqb_spec k i) as [->|Hki].
    + split.
      * intros [E | Hin]; [now injection E as -> |].
        elim Hk. change i with (fst (i, v)). now apply in_map.
      * intro E. injection E as ->. now left.
    + rewrite <- (IH Hr). split.
      * intros [E | Hin]; [injection E as -> _; now elim Hki | exact Hin].
      * intro Hin. now right.
Qed.

End Assoc.

(* ================================================================= *)
(** ** The event mapper ([mapEventRecords]) *)

Section Events.
Context `{RT : JsRuntime}.
Import Calendar.

Lemma isEmpty_true (s : string) : isEmpty s = true <-> s = EmptyString.
Proof. destruct s; simpl; split; congruence. Qed.

Lemma append_not_empty (a b c : string) : a ++ "-" ++ b ++ "-" ++ c <> EmptyString.
Proof. destruct a; discriminate. Qed.

(** What one record becomes. *)
Lemma toEvent_id (record : AppleScriptValue) (i : string) (event : CalendarEvent) :
  toEvent record = Ok (i, event) ->
  i = coerceString (prop record "id") EmptyString
  /\ id event <> EmptyString
  /\ (i <> EmptyString -> id event = i)
  /\ (i = EmptyString ->
      id event
      = title event ++ "-"
          ++ match startDate event with Some text => text | None => "unknown" end
          ++ "-" ++ calendarName event).
Proof.
  unfold toEvent.
  destruct (toIsoFromUnix (prop record "startDate")) as [start|e]; [|discriminate].
  destruct (toIsoFromUnix (prop record "endDate")) as [stop|e]; [|discriminate].
  cbn [bind]. intro H. injection H as <- <-. cbn [id title startDate calendarName].
  split; [reflexivity|].
  destruct (isEmpty (coerceString (prop record "id") EmptyString)) eqn:E.
  - apply isEmpty_true in E. rewrite E.
    repeat split; [apply append_not_empty | congruence].
  - assert (Hne : coerceString (prop record "id") EmptyString <> EmptyString).
    { intro H. apply isEmpty_true in H. congruence. }
    repeat split; [exact Hne | congruence].
Qed.

Lemma eventLoop_spec (records : list AppleScriptValue) :
  forall deduped fallback deduped' fallback',
    eventLoop records deduped fallback = Ok (deduped', fallback') ->
    exists built,
      convertAll records = Ok built
      /\ deduped' = dedupInto built deduped
      /\ fallback' = (fallback ++ idless built)%list.
Proof.
  induction records as [|record rest IH]; intros d f d' f' H.
  - injection H as <- <-. exists []. cbn. now rewrite app_nil_r.
  - cbn [eventLoop convertAll] in *.
    destruct (toEvent record) as [[i event]|e]; [|discriminate]. cbn [bind] in *.
    destruct (isEmpty i) eqn:E; cbn [negb] in H.
    + apply IH in H. destruct H as (built & Hc & -> & ->).
      exists ((i, event) :: built). rewrite Hc. cbn [bind].
      repeat split.
      * cbn [dedupInto]. now rewrite E.
      * unfold idless. cbn [filter fst]. rewrite E. cbn [map snd].
        now rewrite <- app_assoc.
    + apply IH in H. destruct H as (built & Hc & -> & ->).
      exists ((i, event) :: built). rewrite Hc. cbn [bind].
      repeat split.
      * cbn [dedupInto]. now rewrite E.
      * unfold idless. cbn [filter fst]. now rewrite E.
Qed.

(** The loop always ends with a result when every conversion does. *)
Lemma eventLoop_complete (records : list AppleScriptValue) :
  forall built deduped fallback,
    convertAll records = Ok built ->
    eventLoop records deduped fallback
    = Ok (dedupInto built deduped, (fallback ++ idless built)%list).
Proof.
  induction records as [|record rest IH]; intros built d f H.
  - injection H as <-. cbn. now rewrite app_nil_r.
  - cbn [eventLoop convertAll] in *.
    destruct (toEvent record) as [[i event]|e]; [|discriminate]. cbn [bind] in *.
    destruct (convertAll rest) as [others|e] eqn:Ec; [|discriminate].
    cbn [bind] in H. injection H as <-.
    cbn [dedupInto]. unfold idless. cbn [filter fst].
    destruct (isEmpty i) eqn:E; cbn [negb].
    + rewrite (IH others) by reflexivity. cbn [map snd]. now rewrite <- app_assoc.
    + now rewrite (IH others) by reflexivity.
Qed.

Lemma convertAll_In (records : list AppleScriptValue) :
  forall built converted,
    convertAll records = Ok built -> In converted built ->
    exists record, In record records /\ toEvent record = Ok converted.
Proof.
  induction records as [|record rest IH]; intros built converted H Hin.
  - injection H as <-. destruct Hin.
  - cbn [convertAll] in H.
    destruct (toEvent record) as [first|e] eqn:E; [|discriminate]. cbn [bind] in H.
    destruct (convertAll rest) as [others|e]; [|discriminate].
    cbn [bind] in H. injection H as <-.
    destruct Hin as [<- | Hin].
    + exists record. split; [now left | exact E].
    + destruct (IH others converted eq_refl Hin) as (r & Hr & Ht).
      exists r. split; [now right | exact Ht].
Qed.

Lemma dedupInto_keys (built : list (string * CalendarEvent)) :
  forall deduped,
    NoDup (map fst deduped) -> NoDup (map fst (dedupInto built deduped)).
Proof.
  induction built as [|[i event] rest IH]; intros d H; [exact H|].
  cbn [dedupInto]. apply IH.
  destruct (isEmpty i); [exact H | now apply assocSet_NoDup].
Qed.

Lemma dedupInto_get (built : list (string * CalendarEvent)) :
  forall deduped i,
    i <> EmptyString ->
    assocGet i (dedupInto built deduped)
    = match lastEvent i built with
      | Some event => Some event
      | None => assocGet i deduped
      end.
Proof.
  induction built as [|[j event] rest IH]; intros d i Hi; [reflexivity|].
  cbn [dedupInto lastEvent]. rewrite IH by exact Hi.
  destruct (lastEvent i rest) as [later|]; [reflexivity|].
  destruct (isEmpty j) eqn:E.
  - apply isEmpty_true in E. subst j.
    destruct (String.eqb_spec EmptyString i) as [<-|_]; [now elim Hi | reflexivity].
  - rewrite assocGet_assocSet. now destruct (String.eqb j i).
Qed.

Lemma dedupInto_nonempty (built : list (string * CalendarEvent)) :
  forall deduped,
    Forall (fun entry => fst entry <> EmptyString) deduped ->
    Forall (fun entry => fst entry <> EmptyString) (dedupInto built deduped).
Proof.
  induction built as [|[j event] rest IH]; intros d H; [exact H|].
  cbn [dedupInto]. apply IH.
  destruct (isEmpty j) eqn:E; [exact H|].
  assert (Hj : j <> EmptyString) by (intro Hj; apply isEmpty_true in Hj; congruence).
  clear -H Hj. induction d as [|[k w] d IHd]; cbn [assocSet].
  - repeat constructor. exact Hj.
  - inversion H as [|? ? Hk Hd]; subst.
    destruct (String.eqb k j); constructor; auto.
Qed.

(** Last write wins: the [Map] holds, for each identifier, the event of
    the last record that carries it, and nothing else. *)
Lemma dedupInto_last (built : list (string * CalendarEvent)) (i : string)
  (event : CalendarEvent) :
  In (i, event) (dedupInto built [])
  <-> i <> EmptyString /\ lastEvent i built = Some event.
Proof.
  rewrite (assocGet_In i event _ (dedupInto_keys built [] (NoDup_nil _))).
  split.
  - intro H.
    assert (Hi : i <> EmptyString).
    { pose proof (dedupInto_nonempty built [] (Forall_nil _)) as Hf.
      rewrite Forall_forall in Hf.
      apply (assocGet_In i event _ (dedupInto_keys built [] (NoDup_nil _))) in H.
      exact (Hf _ H). }
    split; [exact Hi|]. rewrite dedupInto_get in H by exact Hi.
    destruct (lastEvent i built); [exact H | discriminate].
  - intros [Hi Hl]. rewrite dedupInto_get by exact Hi. now rewrite Hl.
Qed.

Lemma lastEvent_In (i : string) (built : list (string * CalendarEvent))
  (event : CalendarEvent) :
  lastEvent i built = Some event -> In (i, event) built.
Proof.
  induction built as [|[j e] rest IH]; cbn [lastEvent]; [discriminate|].
  destruct (lastEvent i rest) as [later|].
  - intro H. injection H as ->. right. now apply IH.
  - destruct (String.eqb_spec j i) as [->|_]; [|discriminate].
    intro H. injection H as ->. now left.
Qed.

Lemma compareEvents_orders (l : list CalendarEvent) :
  OrdersBy compareEvents getEventSortKey l.
Proof.
  intros x y _ _. unfold sortCompare, compareEvents.
  destruct (getEventSortKey x <=? getEventSortKey y)%Z eqn:E.
  - apply Z.leb_le in E. apply Z.leb_le. lia.
  - apply Z.leb_gt in E. apply Z.leb_gt. lia.
Qed.

Lemma mapEventRecords_built (raw : AppleScriptValue) (out : list CalendarEvent) :
  mapEventRecords raw = Ok out ->
  exists built,
    convertAll (eventRecords raw) = Ok built
    /\ out = sort compareEvents (map snd (dedupInto built []) ++ idless built)%list.
Proof.
  unfold mapEventRecords.
  destruct (eventLoop (eventRecords raw) [] []) as [[deduped fallback]|e] eqn:E;
    [|discriminate].
  cbn [bind]. intro H. injection H as <-.
  apply eventLoop_spec in E. destruct E as (built & Hc & -> & ->).
  exists built. split; [exact Hc | reflexivity].
Qed.

Lemma mapEventRecords_returns (raw : AppleScriptValue)
  (built : list (string * CalendarEvent)) :
  convertAll (eventRecords raw) = Ok built ->
  mapEventRecords raw
  = Ok (sort compareEvents (map snd (dedupInto built []) ++ idless built)%list).
Proof.
  intro H. unfold mapEventRecords.
  now rewrite (eventLoop_complete _ _ [] [] H).
Qed.


(** C10.  Every event the mapper returns has a non-empty [id]: it comes
    from a record whose coerced [id] it carries when that is not empty,
    and otherwise carries the title, the start date (or the text
    "unknown") and the calendar name joined by dashes. *)
Theorem mapEventRecords_id_nonempty (raw : AppleScriptValue) (out : list CalendarEvent) :
  mapEventRecords raw = Ok out ->
  Forall (fun event => id event <> EmptyString) out
  /\ (forall event,
         In event out ->
         exists record,
           In record (eventRecords raw)
           /\ toEvent record = Ok (coerceString (prop record "id") EmptyString, event)
           /\ (coerceString (prop record "id") EmptyString <> EmptyString ->
               id event = coerceString (prop record "id") EmptyString)
           /\ (coerceString (prop record "id") EmptyString = EmptyString ->
               id event
               = title event ++ "-"
                   ++ match startDate event with
                      | Some text => text
                      | None => "unknown"
                      end
                   ++ "-" ++ calendarName event)).
Proof.
  intro H. destruct (mapEventRecords_built _ _ H) as (built & Hc & ->).
  assert (Hsrc : forall event,
             In event (sort compareEvents
                         (map snd (dedupInto built []) ++ idless built)%list) ->
             exists i, In (i, event) built).
  { intros event Hin.
    apply (Permutation_in _ (sort_perm compareEvents _)) in Hin.
    apply in_app_or in Hin. destruct Hin as [Hin | Hin].
    - apply in_map_iff in Hin. destruct Hin as ([i e] & <- & Hin).
      apply dedupInto_last in Hin. destruct Hin as [_ Hl].
      exists i. now apply lastEvent_In.
    - unfold idless in Hin. apply in_map_iff in Hin.
      destruct Hin as ([i e] & <- & Hin). apply filter_In in Hin.
      exists i. exact (proj1 Hin). }
  assert (Hall : forall event,
             In event (sort compareEvents
                         (map snd (dedupInto built []) ++ idless built)%list) ->
             exists record,
               In record (eventRecords raw)
               /\ toEvent record = Ok (coerceString (prop record "id") EmptyString, event)
               /\ id event <> EmptyString
               /\ (coerceString (prop record "id") EmptyString <> EmptyString ->
                   id event = coerceString (prop record "id") EmptyString)
               /\ (coerceString (prop record "id") EmptyString = EmptyString ->
                   id event
                   = title event ++ "-"
                       ++ match startDate event with
                          | Some text => text
                          | None => "unknown"
                          end
                       ++ "-" ++ calendarName event)).
  { intros event Hin. destruct (Hsrc event Hin) as [i Hi].
    destruct (convertAll_In _ _ _ Hc Hi) as (record & Hr & Ht).
    destruct (toEvent_id _ _ _ Ht) as (Ei & Hne & Hsome & Hnone).
    exists record. subst i. repeat split; assumption. }
  split.
  - apply Forall_forall. intros event Hin.
    destruct (Hall event Hin) as (record & _ & _ & Hne & _). exact Hne.
  - intros event Hin.
    destruct (Hall event Hin) as (record & Hr & Ht & _ & Hsome & Hnone).
    exists record. repeat split; assumption.
Qed.

End Events.

(** An out-of-range or infinite number of seconds makes the conversion
    of a date throw. *)
Lemma toIsoFromUnix_raises `{RT : JsRuntime} (value : option AppleScriptValue)
  (seconds : number) :
  toNumber value = Some seconds -> Date_ofSeconds seconds = None ->
  Calendar.toIsoFromUnix value = Throw (RangeError "Invalid time value").
Proof. intros Hn Hd. unfold Calendar.toIsoFromUnix. now rewrite Hn, Hd. Qed.

(* ================================================================= *)
(** ** The note mapper ([mapNoteRecords]) *)

Section NotesClaims.
Context `{RT : JsRuntime}.
Import Notes.

Lemma StronglySorted_impl {A : Type} (R S : A -> A -> Prop) (l : list A) :
  (forall a b, R a b -> S a b) -> StronglySorted R l -> StronglySorted S l.
Proof.
  intros H Hs. induction Hs as [|x l Hs IH Hx]; constructor; [exact IH|].
  rewrite Forall_forall in *. intros y Hy. apply H. now apply Hx.
Qed.

Lemma compareNotes_orders (l : list Note) :
  Forall (fun note => noteTime note <> None) l ->
  OrdersBy compareNotes (fun note => (- noteKey note)%Z) l.
Proof.
  intros Hv x y Hx Hy. rewrite Forall_forall in Hv.
  pose proof (Hv x Hx) as Vx. pose proof (Hv y Hy) as Vy.
  unfold sortCompare, compareNotes, noteKey.
  destruct (noteTime x) as [tx|]; [|now elim Vx].
  destruct (noteTime y) as [ty|]; [|now elim Vy].
  destruct (- tx <=? - ty)%Z eqn:E.
  - apply Z.leb_le in E. apply Z.leb_le. lia.
  - apply Z.leb_gt in E. apply Z.leb_gt. lia.
Qed.


End NotesClaims.

(* ================================================================= *)
(** ** The email mapper ([mapEmailRecords]) *)

Section MailClaims.
Context `{RT : JsRuntime}.
Import Mail.

Lemma isEmpty_false (s : string) : isEmpty s = false <-> s <> EmptyString.
Proof. destruct s; simpl; split; congruence. Qed.

Lemma keepEmail_spec (email : EmailMessage) :
  keepEmail email = false <-> subject email = EmptyString /\ sender email = EmptyString.
Proof.
  unfold keepEmail. rewrite orb_false_iff, !negb_false_iff, !isEmpty_true. tauto.
Qed.

(** C9.  An email whose subject and sender are both the empty text is
    not in the result, and the email of every record of the batch whose
    subject or sender is not empty is.  The subject and the sender are
    the coerced fields of the record: a record whose [subject] and
    [sender] are both the empty string is dropped, and one whose
    [subject] is the empty string and whose [sender] is a non-empty
    string, or the other way round, is kept. *)
Theorem mapEmailRecords_drop_rule (items : list AppleScriptValue)
  (fallbackMailbox : option string) (record : AppleScriptValue) :
  In record items -> isObjectItem record = true ->
  (subject (toEmail fallbackMailbox record) = EmptyString
   /\ sender (toEmail fallbackMailbox record) = EmptyString ->
   ~ In (toEmail fallbackMailbox record) (mapEmailRecords (VList items) fallbackMailbox))
  /\ (subject (toEmail fallbackMailbox record) <> EmptyString
      \/ sender (toEmail fallbackMailbox record) <> EmptyString ->
      In (toEmail fallbackMailbox record) (mapEmailRecords (VList items) fallbackMailbox))
  /\ (forall email,
         In email (mapEmailRecords (VList items) fallbackMailbox) ->
         subject email <> EmptyString \/ sender email <> EmptyString)
  /\ (prop record "subject" = Some (VString EmptyString) ->
      prop record "sender" = Some (VString EmptyString) ->
      ~ In (toEmail fallbackMailbox record) (mapEmailRecords (VList items) fallbackMailbox))
  /\ (forall text other,
         text <> EmptyString ->
         (prop record "subject" = Some (VString other)
          /\ prop record "sender" = Some (VString text))
         \/ (prop record "subject" = Some (VString text)
             /\ prop record "sender" = Some (VString other)) ->
         In (toEmail fallbackMailbox record) (mapEmailRecords (VList items) fallbackMailbox)).
Proof.
  intros Hin Hobj. cbn [mapEmailRecords].
  assert (Hdrop : subject (toEmail fallbackMailbox record) = EmptyString
                  /\ sender (toEmail fallbackMailbox record) = EmptyString ->
                  ~ In (toEmail fallbackMailbox record)
                      (filter keepEmail
                         (map (toEmail fallbackMailbox) (filter isObjectItem items)))).
  { intros Hboth Hout. apply filter_In in Hout. destruct Hout as [_ Hk].
    apply keepEmail_spec in Hboth. congruence. }
  assert (Hkeep : subject (toEmail fallbackMailbox record) <> EmptyString
                  \/ sender (toEmail fallbackMailbox record) <> EmptyString ->
                  In (toEmail fallbackMailbox record)
                    (filter keepEmail
                       (map (toEmail fallbackMailbox) (filter isObjectItem items)))).
  { intro Hsome. apply filter_In. split.
    - apply in_map. apply filter_In. now split.
    - destruct (keepEmail (toEmail fallbackMailbox record)) eqn:E; [reflexivity|].
      apply keepEmail_spec in E. tauto. }
  split; [exact Hdrop|]. split; [exact Hkeep|]. split; [|split].
  - intros email Hout. apply filter_In in Hout. destruct Hout as [_ Hk].
    unfold keepEmail in Hk. apply orb_true_iff in Hk.
    rewrite !negb_true_iff, !isEmpty_false in Hk. exact Hk.
  - intros Hs Hf. apply Hdrop. cbn [toEmail subject sender]. now rewrite Hs, Hf.
  - intros text other Hne [[Hs Hf] | [Hs Hf]]; apply Hkeep;
      cbn [toEmail subject sender]; rewrite Hs, Hf; cbn [coerceString]; tauto.
Qed.

End MailClaims.

(* ================================================================= *)
(** ** The code run on the samples *)

Section Runs.
Import Ref Samples.

(** Both sides of an equation among the hypotheses, evaluated. *)
Ltac evaluate H :=
  match type of H with
  | ?a = ?b =>
      let a' := eval vm_compute in a in
      let b' := eval vm_compute in b in
      change (a' = b') in H
  end.

(** The classification examples of the specification. *)
Example parse_record :
  Parser.parse "{a:1, b:2}"
  = Ok (VRecord [("a", VNumber (Finite 1 0)); ("b", VNumber (Finite 2 0))]).
Proof. reflexivity. Qed.

Example parse_list :
  Parser.parse "{1, 2, 3}"
  = Ok (VList [VNumber (Finite 1 0); VNumber (Finite 2 0); VNumber (Finite 3 0)]).
Proof. reflexivity. Qed.

Example parse_duplicate_key :
  Parser.parse "{a:1, b:2, a:3}"
  = Ok (VRecord [("a", VNumber (Finite 3 0)); ("b", VNumber (Finite 2 0))]).
Proof. reflexivity. Qed.

Example parse_colon_in_literal :
  Parser.parse ("{" ++ quoted "a:b" ++ ", {c:1}}")
  = Ok (VList [VString "a:b"; VRecord [("c", VNumber (Finite 1 0))]]).
Proof. reflexivity. Qed.

(** The witness of C1: a colon first, a comma first. *)
Lemma isRecordCollection_classifies_witness :
  Undelimited "a"
  /\ Parser.isRecordCollection "a:1, b:2}" = Ok true
  /\ Parser.isRecordCollection "a, b:2}" = Ok false.
Proof.
  assert (H : Undelimited "a")
    by (apply Undelimited_char; try discriminate; constructor).
  split; [exact H|]. split.
  - apply (proj1 isRecordCollection_classifies "a:1, b:2}").
    exists "a", "1, b:2}". split; [exact H | reflexivity].
  - apply (proj1 (proj2 isRecordCollection_classifies) "a" ","%char " b:2}");
      [exact H | now left].
Defined.

Example parse_empty_spaced : Parser.parse "{  }" = Ok (VList []).
Proof. reflexivity. Qed.

(** The escape examples of the specification. *)
Example parse_two_lines :
  Parser.parse (quoted ("line1" ++ str1 BACKSLASH ++ "nline2"))
  = Ok (VString ("line1" ++ str1 LF ++ "line2")).
Proof. reflexivity. Qed.

Example parse_inner_quotes :
  Parser.parse
    (quoted ("She said " ++ str1 BACKSLASH ++ quoted ("hi" ++ str1 BACKSLASH)))
  = Ok (VString ("She said " ++ quoted "hi")).
Proof. reflexivity. Qed.

(** The witness of C7, on the body [a\nb]. *)
Lemma parseString_escapes_witness :
  Escaped ("a" ++ str1 BACKSLASH ++ "nb") ("a" ++ str1 LF ++ "b")
  /\ Parser.parseString (quoted ("a" ++ str1 BACKSLASH ++ "nb") ++ ", 1}")
     = Ok ("a" ++ str1 LF ++ "b", ", 1}")
  /\ Parser.parseString (String DQUOTE ("a" ++ str1 BACKSLASH ++ "nb"))
     = Throw (Error "Unterminated string literal in AppleScript result").
Proof.
  assert (H : Escaped ("a" ++ str1 BACKSLASH ++ "nb") ("a" ++ str1 LF ++ "b")).
  { apply Escaped_plain; [discriminate | discriminate |].
    apply Escaped_n. apply Escaped_plain; [discriminate | discriminate |].
    constructor. }
  split; [exact H|].
  destruct (parseString_escapes _ _ ", 1}" H) as (A & _ & B & _).
  split; [exact A | exact B].
Defined.

(** The witness of C6: trailing content, and the prefix. *)
Lemma parse_trailing_content_and_prefix_witness :
  Parser.parseValue (S (String.length (Parser.skipWhitespace "1 2")))
    (Parser.skipWhitespace "1 2")
  = Ok (VNumber (Finite 1 0), " 2")
  /\ allSpace " 2" = false
  /\ Parser.parse "1 2"
     = Throw (Error "Unexpected trailing content in AppleScript result")
  /\ parseAppleScriptResult (Some (VString "=> {1, 2}")) = Parser.parse (trim "{1, 2}").
Proof.
  assert (H : Parser.parseValue (S (String.length (Parser.skipWhitespace "1 2")))
                (Parser.skipWhitespace "1 2")
              = Ok (VNumber (Finite 1 0), " 2")) by reflexivity.
  assert (Hs : allSpace " 2" = false) by reflexivity.
  split; [exact H|]. split; [exact Hs|]. split.
  - exact (proj1 (proj1 parse_trailing_content_and_prefix "1 2" _ _ H) Hs).
  - exact (proj1 (proj2 parse_trailing_content_and_prefix) "{1, 2}").
Defined.

Example parse_prefixed :
  parseAppleScriptResult (Some (VString "=> {1, 2}"))
  = Ok (VList [VNumber (Finite 1 0); VNumber (Finite 2 0)]).
Proof. reflexivity. Qed.


Example coerceString_fallback : coerceString (Some VNull) "x" = "x".
Proof. reflexivity. Qed.



(** C3 fails on the event mapper: the bridge's text for a batch of two
    events, the second with the start date [Infinity], parses, and
    [mapEventRecords] throws a RangeError on it instead of returning the
    first event and the second with no start date. *)
Theorem mapEventRecords_raises :
  Parser.parse infiniteStartText = Ok infiniteStart
  /\ toNumber (Some (VString "Infinity")) = Some (Infinity false)
  /\ Date_ofSeconds (Infinity false) = None
  /\ Calendar.mapEventRecords infiniteStart = Throw (RangeError "Invalid time value").
Proof. repeat split; reflexivity. Qed.



Example mapEventRecords_january :
  match Calendar.mapEventRecords january with
  | Ok out => map (fun event => (Calendar.id event, Calendar.title event)) out
  | Throw _ => []
  end
  = [("E1", "first"); ("E2", "second"); ("E3", "third");
     ("loose-unknown-Unknown Calendar", "loose")].
Proof. reflexivity. Qed.

(** The witness of C10. *)
Lemma mapEventRecords_id_nonempty_witness :
  (exists out, Calendar.mapEventRecords january = Ok out
               /\ Forall (fun event => Calendar.id event <> EmptyString) out).
Proof.
  destruct (Calendar.mapEventRecords january) as [out|e] eqn:E.
  - exists out. split; [reflexivity|].
    exact (proj1 (mapEventRecords_id_nonempty january out E)).
  - evaluate E. discriminate E.
Defined.


Example mapNoteRecords_order :
  map Notes.name (Notes.mapNoteRecords someNotes) = ["new"; "created"; "old"; "undated"].
Proof. reflexivity. Qed.

(** The witness of C9 and the drop-rule example of the specification. *)
Lemma mapEmailRecords_drop_rule_witness :
  In senderOnly [blankEmail; senderOnly; subjectOnly]
  /\ isObjectItem senderOnly = true
  /\ In (Mail.toEmail None senderOnly) (Mail.mapEmailRecords inbox None).
Proof.
  assert (Hin : In senderOnly [blankEmail; senderOnly; subjectOnly])
    by (right; left; reflexivity).
  assert (Hobj : isObjectItem senderOnly = true) by reflexivity.
  split; [exact Hin|]. split; [exact Hobj|].
  destruct (mapEmailRecords_drop_rule _ None _ Hin Hobj) as (_ & Hkeep & _).
  apply Hkeep. right. intro H. evaluate H. discriminate H.
Defined.

Example mapEmailRecords_inbox :
  map (fun email => (Mail.subject email, Mail.sender email))
    (Mail.mapEmailRecords inbox None)
  = [(EmptyString, "a@b.c"); ("Hi", EmptyString)].
Proof. reflexivity. Qed.

End Runs.

(* ================================================================= *)
(** ** What the parser throws *)

Section ParserThrows.
Context `{RT : JsRuntime}.
Import Parser.

Lemma consume_throws (expected : option ascii) (s : string) (e : exn) :
  consume expected s = Throw e -> parserExn e.
Proof.
  destruct s as [|c s]; simpl; [now injection 1 as <-|].
  destruct expected as [x|]; [|discriminate].
  destruct (Ascii.eqb c x); [discriminate | now injection 1 as <-].
Qed.

Lemma parseStringLoop_throws (s : string) :
  forall acc e, parseStringLoop acc s = Throw e -> parserExn e.
Proof.
  remember (String.length s) as n eqn:Hn.
  revert s Hn. induction n as [n IH] using lt_wf_ind. intros s Hn acc e.
  destruct s as [|c s']; simpl; [now injection 1 as <-|]. simpl in Hn.
  destruct (Ascii.eqb c DQUOTE); [discriminate|].
  destruct (Ascii.eqb c BACKSLASH).
  - destruct s' as [|c' s'']; [now injection 1 as <-|]. simpl in Hn.
    apply (IH (String.length s'')); [lia | reflexivity].
  - apply (IH (String.length s')); [lia | reflexivity].
Qed.

Lemma parseString_throws (s : string) (e : exn) :
  parseString s = Throw e -> parserExn e.
Proof.
  unfold parseString.
  destruct (consume (Some DQUOTE) s) as [[c s1]|e'] eqn:E; cbn [bind].
  - apply parseStringLoop_throws.
  - injection 1 as <-. exact (consume_throws _ _ _ E).
Qed.

Lemma parseNumber_returns (s : string) : exists n r, parseNumber s = Ok (n, r).
Proof.
  unfold parseNumber.
  destruct (match accept "-" s with
            | Some s' => ("-", s')
            | None => (EmptyString, s)
            end) as [sign s1].
  destruct (span isDigitChar s1) as [whole s2].
  destruct (match accept "." s2 with
            | Some s' => let '(digits, r) := span isDigitChar s' in ("." ++ digits, r)
            | None => (EmptyString, s2)
            end) as [fraction s3].
  eauto.
Qed.

Lemma parseBareword_throws (s : string) (e : exn) :
  parseBareword s = Throw e -> parserExn e.
Proof.
  unfold parseBareword. destruct (span isBarewordChar s) as [word rest].
  destruct (isEmpty word); [now injection 1 as <- | discriminate].
Qed.

Lemma parseKey_throws (s : string) (e : exn) :
  parseKey s = Throw e -> parserExn e.
Proof.
  unfold parseKey.
  destruct (peek (skipWhitespace s)) as [c|]; [|now injection 1 as <-].
  destruct (Ascii.eqb c DQUOTE); [apply parseString_throws|].
  destruct (span isKeyChar (skipWhitespace s)) as [key rest].
  destruct (isEmpty key); [now injection 1 as <- | discriminate].
Qed.

Lemma skipStringLoop_throws (s : string) (e : exn) :
  skipStringLoop s = Throw e ->
  e = Error "Unterminated string literal detected while scanning".
Proof.
  remember (String.length s) as n eqn:Hn.
  revert s Hn. induction n as [n IH] using lt_wf_ind. intros s Hn.
  destruct s as [|c s']; simpl; [now injection 1 as <-|]. simpl in Hn.
  destruct (Ascii.eqb c BACKSLASH).
  - destruct s' as [|c' s'']; [now injection 1 as <-|]. simpl in Hn.
    apply (IH (String.length s'')); [lia | reflexivity].
  - destruct (Ascii.eqb c DQUOTE); [discriminate|].
    apply (IH (String.length s')); [lia | reflexivity].
Qed.

Lemma scanCollection_throws (fuel : nat) :
  forall depth s e,
    scanCollection fuel depth s = Throw e ->
    e = OutOfFuel \/ e = Error "Unterminated string literal detected while scanning".
Proof.
  induction fuel as [|fuel IH]; intros depth s e; [left; now injection H as <-|].
  destruct s as [|c s']; [discriminate|]. simpl.
  destruct (isSpace c); [apply IH|].
  destruct (Ascii.eqb c DQUOTE).
  { unfold skipStringFrom. simpl dropString.
    destruct (skipStringLoop s') as [s1|e'] eqn:E; cbn [bind]; [apply IH|].
    injection 1 as <-. right. exact (skipStringLoop_throws _ _ E). }
  destruct (Ascii.eqb c "{"); [apply IH|].
  destruct (Ascii.eqb c "}").
  { destruct (Nat.eqb depth 0); [discriminate | apply IH]. }
  destruct (Nat.eqb depth 0 && Ascii.eqb c ":"); [discriminate|].
  destruct (Nat.eqb depth 0 && Ascii.eqb c ","); [discriminate|].
  apply IH.
Qed.

(** The classifier answers, or reports a literal left open. *)
Lemma isRecordCollection_throws (s : string) (e : exn) :
  isRecordCollection s = Throw e ->
  e = Error "Unterminated string literal detected while scanning".
Proof.
  intro H. destruct (scanCollection_throws _ _ _ _ H) as [-> | ->]; [|reflexivity].
  now elim (isRecordCollection_total s).
Qed.

Section LoopThrows.
Variable classify : string -> result bool.
Hypothesis classify_throws : forall s e, classify s = Throw e -> parserExn e.
Variable parseValue : string -> state AppleScriptValue.
Hypothesis parseValue_throws : forall s e, parseValue s = Throw e -> parserExn e.

Lemma parseItems_throws (fuel : nat) :
  forall items s e, parseItems parseValue fuel items s = Throw e -> parserExn e.
Proof.
  induction fuel as [|fuel IH]; intros items s e; [now injection 1 as <-|].
  simpl. destruct (parseValue s) as [[value s1]|e'] eqn:E; cbn [bind].
  - destruct (accept "," (skipWhitespace s1)); [apply IH | discriminate].
  - injection 1 as <-. exact (parseValue_throws _ _ E).
Qed.

Lemma parseFields_throws (fuel : nat) :
  forall record s e, parseFields parseValue fuel record s = Throw e -> parserExn e.
Proof.
  induction fuel as [|fuel IH]; intros record s e; [now injection 1 as <-|].
  simpl. destruct (parseKey s) as [[key s1]|e'] eqn:E; cbn [bind];
    [|injection 1 as <-; exact (parseKey_throws _ _ E)].
  destruct (consume (Some ":"%char) (skipWhitespace s1)) as [[c s3]|e'] eqn:Ec; cbn [bind];
    [|injection 1 as <-; exact (consume_throws _ _ _ Ec)].
  destruct (parseValue s3) as [[value s4]|e'] eqn:Ev; cbn [bind];
    [|injection 1 as <-; exact (parseValue_throws _ _ Ev)].
  destruct (accept "," (skipWhitespace s4)); [apply IH | discriminate].
Qed.

Lemma parseCollection_throws (fuel : nat) (s : string) (e : exn) :
  parseCollection classify parseValue fuel s = Throw e -> parserExn e.
Proof.
  unfold parseCollection.
  destruct (consume (Some "{"%char) s) as [[c s1]|e'] eqn:Ec; cbn [bind];
    [|injection 1 as <-; exact (consume_throws _ _ _ Ec)].
  destruct (accept "}" (skipWhitespace s1)); [discriminate|].
  destruct (classify (skipWhitespace s1)) as [[|]|e'] eqn:Ek; cbn [bind];
    [| |injection 1 as <-; exact (classify_throws _ _ Ek)].
  - destruct (parseFields parseValue fuel [] (skipWhitespace s1)) as [[record s3]|e'] eqn:Ef;
      cbn [bind]; [|injection 1 as <-; exact (parseFields_throws _ _ _ _ Ef)].
    destruct (consume (Some "}"%char) (skipWhitespace s3)) as [[c' s5]|e'] eqn:Ec';
      cbn [bind]; [discriminate | injection 1 as <-; exact (consume_throws _ _ _ Ec')].
  - destruct (parseItems parseValue fuel [] (skipWhitespace s1)) as [[items s3]|e'] eqn:Ef;
      cbn [bind]; [|injection 1 as <-; exact (parseItems_throws _ _ _ _ Ef)].
    destruct (consume (Some "}"%char) (skipWhitespace s3)) as [[c' s5]|e'] eqn:Ec';
      cbn [bind]; [discriminate | injection 1 as <-; exact (consume_throws _ _ _ Ec')].
Qed.

End LoopThrows.

Lemma parseValueWith_throws (classify : string -> result bool) :
  (forall s e, classify s = Throw e -> parserExn e) ->
  forall fuel s e, parseValueWith classify fuel s = Throw e -> parserExn e.
Proof.
  intros Hc fuel. induction fuel as [|fuel IH]; intros s e; [now injection 1 as <-|].
  cbn [parseValueWith].
  destruct (skipWhitespace s) as [|char s'] eqn:Es; [now injection 1 as <-|].
  cbn [peek].
  destruct (Ascii.eqb char "{");
    [apply (parseCollection_throws classify Hc _ IH)|].
  destruct (Ascii.eqb char DQUOTE).
  { destruct (parseString (String char s')) as [[text rest]|e'] eqn:E; cbn [bind];
      [discriminate | injection 1 as <-; exact (parseString_throws _ _ E)]. }
  destruct (startsWith "missing value" (String char s')); [discriminate|].
  destruct (startsWith "true" (String char s')); [discriminate|].
  destruct (startsWith "false" (String char s')); [discriminate|].
  destruct (Ascii.eqb char "-" || isDigit (Some char)).
  { destruct (parseNumber_returns (String char s')) as (n & r & ->). discriminate. }
  destruct (parseBareword (String char s')) as [[word rest]|e'] eqn:E; cbn [bind];
    [discriminate | injection 1 as <-; exact (parseBareword_throws _ _ E)].
Qed.

Lemma parse_throws (input : string) (e : exn) :
  parse input = Throw e -> exists message, e = Error message.
Proof.
  intro H. assert (Hp : parserExn e).
  { revert H. unfold parse, parseWith.
    destruct (parseValueWith isRecordCollection _ (skipWhitespace input))
      as [[value rest]|e'] eqn:E; cbn [bind].
    - destruct (isEmpty (skipWhitespace rest)); [discriminate | now injection 1 as <-].
    - injection 1 as <-. revert E. apply parseValueWith_throws.
      intros s e0 H0. now rewrite (isRecordCollection_throws _ _ H0). }
  destruct e as [message| |]; [now exists message | destruct Hp|].
  now elim (parse_terminates input).
Qed.

(** X1.  On every input the parser comes to an end: it returns a value or
    throws an [Error] with a message; the loops and the recursion never
    run on, and nothing else is thrown.  The same holds of
    [parseAppleScriptResult] on any raw answer. *)
Theorem parseAppleScriptResult_returns_or_reports :
  (forall input,
      (exists value, parse input = Ok value)
      \/ (exists message, parse input = Throw (Error message)))
  /\ (forall raw,
         (exists value, parseAppleScriptResult raw = Ok value)
         \/ (exists message, parseAppleScriptResult raw = Throw (Error message))).
Proof.
  assert (Hp : forall input,
             (exists value, parse input = Ok value)
             \/ (exists message, parse input = Throw (Error message))).
  { intro input. destruct (parse input) as [value|e] eqn:E; [left; now exists value|].
    right. destruct (parse_throws _ _ E) as [message ->]. now exists message. }
  split; [exact Hp|].
  intros [[| b | n | s | items | fields]|]; cbn [parseAppleScriptResult]; eauto.
  destruct (isEmpty (trim s)); eauto.
Qed.

End ParserThrows.

(* ================================================================= *)
(** ** Blank answers, the prefix, and literals left open *)

Section ParserEdges.
Context `{RT : JsRuntime}.
Import Parser.

Lemma allSpace_trim (s : string) : allSpace s = true -> trim s = EmptyString.
Proof. intro H. unfold trim. now rewrite (allSpace_trimEnd _ H). Qed.

Lemma allSpace_append_false (a : string) (c : ascii) (b : string) :
  isSpace c = false -> allSpace (a ++ String c b) = false.
Proof.
  intro Hc. induction a as [|x a IH]; simpl.
  - now rewrite Hc.
  - rewrite IH. apply andb_false_r.
Qed.

Lemma trimEnd_append (a : string) (c : ascii) (b : string) :
  isSpace c = false -> trimEnd (a ++ String c b) = a ++ String c (trimEnd b).
Proof.
  intro Hc. induction a as [|x a IH].
  - simpl append. rewrite trimEnd_cons; [reflexivity|]. simpl. now rewrite Hc.
  - change (String x a ++ String c b) with (String x (a ++ String c b)).
    rewrite trimEnd_cons.
    + now rewrite IH.
    + simpl. rewrite (allSpace_append_false a c b Hc). apply andb_false_r.
Qed.

Lemma trimStart_append (ws : string) (c : ascii) (b : string) :
  allSpace ws = true -> isSpace c = false -> trimStart (ws ++ String c b) = String c b.
Proof.
  intros Hws Hc. induction ws as [|x ws IH]; simpl.
  - now rewrite Hc.
  - simpl in Hws. apply andb_true_iff in Hws. destruct Hws as [Hx Hws].
    rewrite Hx. now apply IH.
Qed.

Lemma parseAppleScriptResult_after_prefix (ws rest : string) :
  allSpace ws = true ->
  parseAppleScriptResult (Some (VString (ws ++ "=>" ++ rest))) = parse (trim rest).
Proof.
  intro Hws. cbn [parseAppleScriptResult].
  assert (Ht : trim (ws ++ "=>" ++ rest) = "=>" ++ trimEnd rest).
  { unfold trim. change (ws ++ "=>" ++ rest) with (ws ++ String "=" (String ">" rest)).
    rewrite trimEnd_append by reflexivity.
    rewrite trimStart_append by (assumption || reflexivity).
    destruct (allSpace (String ">" rest)) eqn:E; [discriminate E|].
    now rewrite trimEnd_cons by exact E. }
  rewrite Ht. reflexivity.
Qed.

(** X2.  A raw answer that is empty or all whitespace is the null value,
    not an error.  The prefix [=>] may follow whitespace and need not be
    followed by any: what comes after it is trimmed and parsed.  A prefix
    with nothing after it is an error, "Unexpected end of AppleScript
    result". *)
Theorem parseAppleScriptResult_blank_and_prefix :
  (forall text,
      allSpace text = true -> parseAppleScriptResult (Some (VString text)) = Ok VNull)
  /\ (forall ws rest,
         allSpace ws = true ->
         parseAppleScriptResult (Some (VString (ws ++ "=>" ++ rest))) = parse (trim rest))
  /\ (forall ws rest,
         allSpace ws = true -> allSpace rest = true ->
         parseAppleScriptResult (Some (VString (ws ++ "=>" ++ rest)))
         = Throw (Error "Unexpected end of AppleScript result")).
Proof.
  split; [|split].
  - intros text H. cbn [parseAppleScriptResult]. now rewrite (allSpace_trim _ H).
  - apply parseAppleScriptResult_after_prefix.
  - intros ws rest Hws Hrest. rewrite parseAppleScriptResult_after_prefix by exact Hws.
    now rewrite (allSpace_trim _ Hrest).
Qed.

Lemma skipStringLoop_open (body text : string) :
  Escaped body text ->
  skipStringLoop body = Throw (Error "Unterminated string literal detected while scanning")
  /\ skipStringLoop (body ++ str1 BACKSLASH)
     = Throw (Error "Unterminated string literal detected while scanning").
Proof.
  induction 1 as [ | c body text Hq Hb _ IH | body text _ IH | body text _ IH
                   | body text _ IH | body text _ IH | body text _ IH
                   | c body text Hn Hr Ht _ IH ];
    try (simpl; exact IH).
  - split; reflexivity.
  - simpl. now rewrite !(ascii_eqb_false c) by assumption.
Qed.

Lemma scanFrom_skipWhitespace (depth : nat) (s : string) :
  scanFrom depth (skipWhitespace s) = scanFrom depth s.
Proof.
  induction s as [|c s IH]; [reflexivity|]. simpl.
  destruct (isSpace c) eqn:E; [|reflexivity].
  now rewrite IH, scanFrom_space.
Qed.

(** What the classifier throws, the parser throws. *)
Lemma parse_classifier_throws (body : string) (e : exn) :
  isRecordCollection body = Throw e -> parse (String "{" body) = Throw e.
Proof.
  intro H. unfold isRecordCollection in H.
  rewrite <- scanFrom_skipWhitespace in H.
  unfold parse, parseWith.
  change (skipWhitespace (String "{" body)) with (String "{" body).
  cbn [parseValueWith]. change (skipWhitespace (String "{" body)) with (String "{" body).
  cbn [peek]. change (Ascii.eqb "{" "{") with true. cbv iota.
  unfold parseCollection. cbn [consume]. change (Ascii.eqb "{" "{") with true.
  cbv iota. cbn [bind].
  destruct (accept "}" (skipWhitespace body)) as [after|] eqn:Ea.
  { apply accept_Some in Ea. rewrite Ea in H. discriminate H. }
  unfold isRecordCollection. rewrite H. reflexivity.
Qed.


End ParserEdges.

(* ================================================================= *)
(** ** Quoting for the script and reading back *)

Section Quoting.
Context `{RT : JsRuntime}.
Import Parser.

Lemma Escaped_append (b1 t1 b2 t2 : string) :
  Escaped b1 t1 -> Escaped b2 t2 -> Escaped (b1 ++ b2) (t1 ++ t2).
Proof.
  intros H1 H2. induction H1; simpl; try (now constructor); assumption.
Qed.

Ltac escaped :=
  repeat first
    [ apply Escaped_end
    | apply Escaped_quote
    | apply Escaped_backslash
    | apply Escaped_n
    | apply Escaped_r
    | apply Escaped_t
    | apply Escaped_other; [discriminate | discriminate | discriminate |]
    | apply Escaped_plain; [discriminate | discriminate |] ].

(** The escape of one character, as the parser reads it. *)
Lemma jsonEscape_Escaped (c : ascii) : Escaped (jsonEscape c) (readBack c).
Proof.
  destruct c as [[|] [|] [|] [|] [|] [|] [|] [|]]; vm_compute; escaped.
Qed.

Lemma jsonQuoteBody_Escaped (s : string) : Escaped (jsonQuoteBody s) (readBackAll s).
Proof.
  induction s as [|c s IH]; simpl; [constructor|].
  apply Escaped_append; [apply jsonEscape_Escaped | exact IH].
Qed.

Lemma readBack_head (c : ascii) :
  jsonSafe c = false -> exists d rest, readBack c = String d rest /\ d <> c.
Proof.
  destruct c as [[|] [|] [|] [|] [|] [|] [|] [|]]; vm_compute; try discriminate;
    intros _; eexists; eexists; (split; [reflexivity | discriminate]).
Qed.

Lemma readBackAll_id (s : string) : readBackAll s = s <-> allChars jsonSafe s = true.
Proof.
  induction s as [|c s IH]; simpl; [tauto|].
  destruct (jsonSafe c) eqn:E.
  - unfold readBack. rewrite E. simpl. rewrite <- IH. split; congruence.
  - destruct (readBack_head c E) as (d & rest & -> & Hd). simpl.
    split; [|discriminate]. intro H. injection H as H _. now elim Hd.
Qed.

Lemma parse_quoted (body text : string) :
  Escaped body text -> parse (quoted body) = Ok (VString text).
Proof.
  intro H. destruct (parseStringLoop_Escaped _ _ H EmptyString) as (A & _ & _).
  unfold parse, parseWith. unfold quoted.
  change (skipWhitespace (String DQUOTE (body ++ str1 DQUOTE)))
    with (String DQUOTE (body ++ str1 DQUOTE)).
  cbn [parseValueWith].
  change (skipWhitespace (String DQUOTE (body ++ str1 DQUOTE)))
    with (String DQUOTE (body ++ str1 DQUOTE)).
  cbn [peek]. change (Ascii.eqb DQUOTE "{") with false.
  change (Ascii.eqb DQUOTE DQUOTE) with true. cbv iota.
  change (parseString (String DQUOTE (body ++ str1 DQUOTE)))
    with (parseStringLoop EmptyString (body ++ str1 DQUOTE)).
  unfold str1. rewrite A. reflexivity.
Qed.


End Quoting.

(* ================================================================= *)
(** ** The copies of [coerceBoolean] *)

Section CoerceBoolean.
Context `{RT : JsRuntime}.

Lemma toLowerCase_digit (s : string) (d : ascii) :
  isDigitChar d = true -> toLowerCase s = str1 d -> s = str1 d.
Proof.
  intros Hd H. destruct s as [|c [|c' s']]; try discriminate H.
  simpl in H. injection H as H. f_equal.
  revert Hd H.
  destruct d as [[|] [|] [|] [|] [|] [|] [|] [|]]; try discriminate; intros _;
    destruct c as [[|] [|] [|] [|] [|] [|] [|] [|]]; vm_compute; congruence.
Qed.

(** X5.  The file holds two versions of [coerceBoolean].  The one of the
    notes and of the calendar also reads the texts "1" and "0" as true
    and false; the one of the reminders and of the mail does not, and
    answers the fallback for them.  On every other value the two agree. *)
Theorem coerceBoolean_versions (fallback : bool) :
  (forall value, Notes.coerceBoolean value fallback = Calendar.coerceBoolean value fallback)
  /\ (forall value, Mail.coerceBoolean value fallback = Reminders.coerceBoolean value fallback)
  /\ Calendar.coerceBoolean (Some (VString "1")) fallback = true
  /\ Calendar.coerceBoolean (Some (VString "0")) fallback = false
  /\ Reminders.coerceBoolean (Some (VString "1")) fallback = fallback
  /\ Reminders.coerceBoolean (Some (VString "0")) fallback = fallback
  /\ (forall value,
         value <> Some (VString "1") -> value <> Some (VString "0") ->
         Calendar.coerceBoolean value fallback = Reminders.coerceBoolean value fallback).
Proof.
  repeat split; try reflexivity.
  intros [[| b | n | s | items | fields]|] H1 H0; try reflexivity.
  unfold Calendar.coerceBoolean, Reminders.coerceBoolean, includes. cbn [existsb].
  rewrite !orb_false_r.
  destruct (String.eqb_spec (toLowerCase s) "true"); [reflexivity|].
  destruct (String.eqb_spec (toLowerCase s) "yes"); [reflexivity|].
  destruct (String.eqb_spec (toLowerCase s) "1") as [E|_].
  { apply (toLowerCase_digit s "1" eq_refl) in E. subst s. now elim H1. }
  cbn [orb].
  destruct (String.eqb_spec (toLowerCase s) "false"); [reflexivity|].
  destruct (String.eqb_spec (toLowerCase s) "no"); [reflexivity|].
  destruct (String.eqb_spec (toLowerCase s) "0") as [E|_]; [|reflexivity].
  apply (toLowerCase_digit s "0" eq_refl) in E. subst s. now elim H0.
Qed.

End CoerceBoolean.

(* ================================================================= *)
(** ** Further properties of the events *)

Section EventsFurther.
Context `{RT : JsRuntime}.
Import Calendar.

Lemma toIsoFromUnix_readable (value : option AppleScriptValue) :
  (dateReadable value = true -> exists text, toIsoFromUnix value = Ok text)
  /\ (dateReadable value = false ->
      toIsoFromUnix value = Throw (RangeError "Invalid time value")).
Proof.
  unfold dateReadable, toIsoFromUnix.
  destruct (toNumber value) as [seconds|]; [|split; [eauto | discriminate]].
  destruct (Date_ofSeconds seconds) as [t|]; cbn; split; eauto; discriminate.
Qed.

Lemma toEvent_readable (record : AppleScriptValue) :
  (datesReadable record = true -> exists converted, toEvent record = Ok converted)
  /\ (datesReadable record = false ->
      toEvent record = Throw (RangeError "Invalid time value")).
Proof.
  unfold datesReadable, toEvent.
  destruct (toIsoFromUnix_readable (prop record "startDate")) as [S1 S2].
  destruct (toIsoFromUnix_readable (prop record "endDate")) as [E1 E2].
  destruct (dateReadable (prop record "startDate")).
  - destruct (S1 eq_refl) as [start ->]. cbn [bind].
    destruct (dateReadable (prop record "endDate")).
    + destruct (E1 eq_refl) as [stop ->]. cbn [bind]. split; [eauto | discriminate].
    + rewrite (E2 eq_refl). cbn [bind]. split; [discriminate | reflexivity].
  - rewrite (S2 eq_refl). cbn [bind]. split; [discriminate | reflexivity].
Qed.

Lemma convertAll_readable (records : list AppleScriptValue) :
  forallb datesReadable records = true -> exists built, convertAll records = Ok built.
Proof.
  induction records as [|record rest IH]; cbn [forallb convertAll]; [eauto|].
  intro H. apply andb_true_iff in H. destruct H as [Hr Hrest].
  destruct (proj1 (toEvent_readable record) Hr) as [converted ->].
  destruct (IH Hrest) as [others ->]. cbn [bind]. eauto.
Qed.

Lemma eventLoop_unreadable (records : list AppleScriptValue) :
  forallb datesReadable records = false ->
  forall deduped fallback,
    eventLoop records deduped fallback = Throw (RangeError "Invalid time value").
Proof.
  induction records as [|record rest IH]; cbn [forallb eventLoop]; [discriminate|].
  intros H deduped fallback.
  destruct (datesReadable record) eqn:Hr.
  - destruct (proj1 (toEvent_readable record) Hr) as [[i event] ->]. cbn [bind].
    cbn [andb] in H. destruct (negb (isEmpty i)); now apply IH.
  - now rewrite (proj2 (toEvent_readable record) Hr).
Qed.


Lemma StronglySorted_filter {A : Type} (R : A -> A -> Prop) (p : A -> bool) (l : list A) :
  StronglySorted R l -> StronglySorted R (filter p l).
Proof.
  induction 1 as [|x l Hs IH Hx]; simpl; [constructor|].
  destruct (p x); [|exact IH]. constructor; [exact IH|].
  rewrite Forall_forall in *. intros y Hy. apply filter_In in Hy. now apply Hx.
Qed.

Lemma StronglySorted_firstn {A : Type} (R : A -> A -> Prop) (n : nat) (l : list A) :
  StronglySorted R l -> StronglySorted R (firstn n l).
Proof.
  intro H. revert n. induction H as [|x l Hs IH Hx]; intros [|n]; simpl;
    try constructor; [apply IH|].
  rewrite Forall_forall in *. intros y Hy. apply Hx.
  rewrite <- (firstn_skipn n l). apply in_or_app. now left.
Qed.

Lemma In_firstn {A : Type} (n : nat) (l : list A) (x : A) : In x (firstn n l) -> In x l.
Proof. intro H. rewrite <- (firstn_skipn n l). apply in_or_app. now left. Qed.

Lemma inRangeEvent_span (lo hi : Z) (event : CalendarEvent) :
  inRangeEvent (Some lo) (Some hi) event = true ->
  forall s e, eventSpan event = Some (s, e) -> (lo <= e /\ s <= hi)%Z.
Proof.
  unfold inRangeEvent, eventSpan.
  destruct (parsedDate (startDate event)) as [s0|];
    destruct (parsedDate (endDate event)) as [e0|]; intros H s e Hs;
    try discriminate Hs; injection Hs as <- <-;
    apply andb_true_iff in H; destruct H as [H1 H2];
    apply Z.leb_le in H1, H2; split; assumption.
Qed.

(** X7.  What [fetchEvents] returns, when it returns: at most
    [max(1, min(limit, 50))] events, so never more than 50 and, for a
    limit of zero or less, still up to one; in ascending order of the
    sort key; each one taken from the mapped events and overlapping the
    window asked for, that is, starting no later than the window ends and
    ending no earlier than it starts (the start standing for a missing
    end, and the end for a missing start).  An event with no readable
    date at all passes the filter whatever the window. *)
Theorem fetchEventsResult_window (limit lo hi : Z) (raw : AppleScriptValue)
  (out : list CalendarEvent) :
  fetchEventsResult limit (Some lo) (Some hi) raw = Ok out ->
  (Z.of_nat (length out) <= maxEvents limit)%Z
  /\ (1 <= maxEvents limit <= 50)%Z
  /\ StronglySorted (fun a b => (getEventSortKey a <= getEventSortKey b)%Z) out
  /\ (exists events,
         mapEventRecords raw = Ok events
         /\ out = sliceTo (maxEvents limit) (filter (inRangeEvent (Some lo) (Some hi)) events)
         /\ forall event, In event out -> In event events)
  /\ (forall event s e,
         In event out -> eventSpan event = Some (s, e) -> (lo <= e /\ s <= hi)%Z)
  /\ (forall event, eventSpan event = None -> inRangeEvent (Some lo) (Some hi) event = true).
Proof.
  intro H. rewrite fetchEventsResult_cases in H.
  destruct (reportsFailure raw); [discriminate|].
  destruct (mapEventRecords raw) as [events|e] eqn:Em; [|discriminate].
  cbn [bind] in H. injection H as <-.
  assert (Hmax : (1 <= maxEvents limit <= 50)%Z) by (unfold maxEvents, MAX_EVENTS; lia).
  split; [|split; [exact Hmax|split; [|split; [|split]]]].
  - unfold sliceTo. pose proof (firstn_le_length (Z.to_nat (maxEvents limit))
                                   (filter (inRangeEvent (Some lo) (Some hi)) events)).
    lia.
  - unfold sliceTo. apply StronglySorted_firstn, StronglySorted_filter.
    destruct (mapEventRecords_built _ _ Em) as (built & _ & ->).
    apply sort_sorted, compareEvents_orders.
  - exists events. split; [reflexivity|]. split; [reflexivity|].
    intros event Hin. apply In_firstn in Hin. apply filter_In in Hin. tauto.
  - intros event s e Hin. apply In_firstn in Hin. apply filter_In in Hin.
    apply inRangeEvent_span. tauto.
  - intros event. unfold eventSpan, inRangeEvent.
    destruct (parsedDate (startDate event)), (parsedDate (endDate event));
      try discriminate. reflexivity.
Qed.

(** X8.  An event is ordered and filtered by the instant its record
    gives: when the record's start is a number of seconds that [Date]
    can hold, the event's start text is the ISO form of that instant, and
    wherever [Date.parse] reads that form back the sort key of the event
    is the instant itself, in milliseconds. *)
Theorem toEvent_sort_key (record : AppleScriptValue) (seconds : number) (t : Z)
  (i : string) (event : CalendarEvent) :
  toEvent record = Ok (i, event) ->
  toNumber (prop record "startDate") = Some seconds ->
  Date_ofSeconds seconds = Some t ->
  Date_isoText t <> EmptyString ->
  Date_parse (Date_isoText t) = Some t ->
  startDate event = Some (Date_isoText t) /\ getEventSortKey event = t.
Proof.
  intros H Hn Hd Hne Hp. unfold toEvent, toIsoFromUnix in H.
  rewrite Hn, Hd in H. cbn [toISOString bind] in H.
  destruct (toNumber (prop record "endDate")) as [n2|].
  - destruct (toISOString (Date_ofSeconds n2)) as [stop|e]; [|discriminate].
    cbn [bind] in H. injection H as _ <-. cbn [startDate]. split; [reflexivity|].
    unfold getEventSortKey, parsedDate. cbn [startDate].
    destruct (isEmpty (Date_isoText t)) eqn:E; [apply isEmpty_true in E; now elim Hne|].
    now rewrite Hp.
  - cbn [bind] in H. injection H as _ <-. cbn [startDate]. split; [reflexivity|].
    unfold getEventSortKey, parsedDate. cbn [startDate].
    destruct (isEmpty (Date_isoText t)) eqn:E; [apply isEmpty_true in E; now elim Hne|].
    now rewrite Hp.
Qed.

(** X9.  [ensureDateRange] always answers a window that ends after it
    starts, as long as the window fits in the range of [Date].  The start
    is the date given, or now.  An end that is given and lies after the
    start is kept; an end that is missing, or not after the start, is
    replaced by the start plus the fallback days (one day at least): an
    inverted range is widened, not refused. *)
Theorem ensureDateRange_ordered (from to : option Z) (fallbackDays : Z) :
  let begin := match from with Some t => t | None => Date_now end in
  (0 <= fallbackDays)%Z ->
  (- 8640000000000000 <= begin)%Z ->
  (begin + Z.max 1 fallbackDays * ONE_DAY_MS <= 8640000000000000)%Z ->
  start (ensureDateRange from to fallbackDays) = begin
  /\ (exists stop,
         end_ (ensureDateRange from to fallbackDays) = Some stop /\ (begin < stop)%Z)
  /\ (forall t, to = Some t -> (begin < t)%Z ->
                end_ (ensureDateRange from to fallbackDays) = Some t)
  /\ (to = None \/ (exists t, to = Some t /\ (t <= begin)%Z) ->
      end_ (ensureDateRange from to fallbackDays)
      = Some (begin + Z.max 1 fallbackDays * ONE_DAY_MS)%Z).
Proof.
  intros begin Hf Hlo Hhi. unfold ensureDateRange. fold begin.
  assert (Hday : (0 < ONE_DAY_MS)%Z) by (unfold ONE_DAY_MS; lia).
  assert (Hclip : forall d, (0 <= d <= Z.max 1 fallbackDays)%Z ->
                    timeClip (begin + d * ONE_DAY_MS) = Some (begin + d * ONE_DAY_MS)%Z).
  { intros d Hd. unfold timeClip.
    assert ((begin + d * ONE_DAY_MS <= begin + Z.max 1 fallbackDays * ONE_DAY_MS)%Z) by nia.
    assert ((0 <= d * ONE_DAY_MS)%Z) by nia.
    destruct (Z.leb_spec (Z.abs (begin + d * ONE_DAY_MS)) 8640000000000000);
      [reflexivity | lia]. }
  rewrite (Hclip (Z.max 1 fallbackDays)) by lia.
  rewrite (Hclip fallbackDays) by lia.
  destruct to as [t|].
  - destruct (Z.leb_spec t begin) as [Hle|Hgt]; cbn [start end_].
    + split; [reflexivity|]. split; [eexists; split; [reflexivity | nia]|].
      split; [intros t' E; injection E as <-; lia | reflexivity].
    + split; [reflexivity|]. split; [eexists; split; [reflexivity | lia]|].
      split; [intros t' E _; now injection E as <- |].
      intros [E | (t' & E & Ht')]; [discriminate | injection E as <-; lia].
  - destruct (Z.leb_spec (begin + fallbackDays * ONE_DAY_MS) begin) as [Hle|Hgt];
      cbn [start end_].
    + split; [reflexivity|]. split; [eexists; split; [reflexivity | nia]|].
      split; [discriminate | reflexivity].
    + split; [reflexivity|]. split; [eexists; split; [reflexivity | lia]|].
      split; [discriminate|]. intros _. do 2 f_equal. nia.
Qed.

(** X10.  The calendar, the reminders and the mail hand the answer of
    [runAppleScript] to their mappers as it comes, and only the notes
    pass it through [parseAppleScriptResult].  On a string, whatever it
    says, the mappers find no record: [getEvents], [searchEvents] and
    [fetchReminders] return the empty list, [mapEmailRecords] and
    [getAllLists] too, the status guard never reports a failure, and
    [createReminder] throws "Failed to create reminder." for a valid
    name. *)
Theorem string_answer_maps_to_nothing (text : string) :
  mapEventRecords (VString text) = Ok []
  /\ (forall limit startMs endMs,
         fetchEventsResult limit startMs endMs (VString text) = Ok [])
  /\ (forall limit fromDate toDate, getEvents limit fromDate toDate (VString text) = Ok [])
  /\ (forall searchText limit fromDate toDate,
         searchEvents searchText limit fromDate toDate (VString text) = Ok [])
  /\ (forall listName, Reminders.mapReminderRecords (VString text) listName = [])
  /\ (forall listName, Reminders.fetchRemindersResult listName (VString text) = Ok [])
  /\ Reminders.getAllLists (VString text) = []
  /\ (forall mailbox, Mail.mapEmailRecords (VString text) mailbox = [])
  /\ (forall name listName,
         isEmpty (trim name) = false ->
         Reminders.createReminder name listName None (VString text)
         = Throw (Error "Failed to create reminder.")).
Proof.
  assert (Hf : forall limit startMs endMs,
             fetchEventsResult limit startMs endMs (VString text) = Ok []).
  { intros limit startMs endMs. unfold fetchEventsResult.
    cbn [typeofObject andb]. rewrite andb_false_r.
    cbn [bind mapEventRecords eventRecords eventLoop].
    unfold sliceTo. cbn [filter app map sort]. now rewrite firstn_nil. }
  assert (Hm : forall listName, Reminders.mapReminderRecords (VString text) listName = []).
  { intro listName. unfold Reminders.mapReminderRecords. cbn [typeofObject].
    now rewrite andb_false_r. }
  split; [reflexivity|]. split; [exact Hf|]. split; [intros; apply Hf|].
  split; [intros; unfold searchEvents; destruct (isEmpty (trim searchText));
          [reflexivity | apply Hf]|].
  split; [exact Hm|].
  split.
  { intro listName. unfold Reminders.fetchRemindersResult. cbn [typeofObject].
    rewrite andb_false_r. cbn [bind]. now rewrite Hm. }
  split.
  { unfold Reminders.getAllLists. destruct (truthy (Some (VString text))); reflexivity. }
  split; [reflexivity|].
  intros name listName Hn. unfold Reminders.createReminder.
  destruct (isEmpty name) eqn:E.
  { apply isEmpty_true in E. subst name. discriminate Hn. }
  rewrite Hn. cbn [orb bind]. now rewrite Hm.
Qed.

End EventsFurther.

(* ================================================================= *)
(** ** Further properties of the notes *)

Section NotesFurther.
Context `{RT : JsRuntime}.
Import Notes.

Lemma StronglySorted_app_cross {A : Type} (R : A -> A -> Prop) (l1 l2 : list A) :
  StronglySorted R (l1 ++ l2)%list ->
  forall a b, In a l1 -> In b l2 -> R a b.
Proof.
  induction l1 as [|x l1 IH]; simpl; intros H a b Ha Hb; [destruct Ha|].
  inversion H as [|? ? Hs Hx]; subst. destruct Ha as [<- | Ha].
  - rewrite Forall_forall in Hx. apply Hx. apply in_or_app. now right.
  - now apply IH.
Qed.

(** X11.  [fetchNotes] returns the first [max(1, min(limit, 50))] of the
    mapped notes: never more than 50, and up to one even for a limit of
    zero or less (an undefined limit counts as 50).  When every date is
    a valid one, these are the most recent notes: each note returned is
    at least as recent as each note left out. *)
Theorem fetchNotesResult_most_recent (limit : option Z) (folder : option string)
  (raw : AppleScriptValue) (out : list Note) :
  fetchNotesResult limit folder raw = Ok out ->
  (1 <= maxNotes limit <= 50)%Z
  /\ (Z.of_nat (length out) <= maxNotes limit)%Z
  /\ (mapNoteRecords raw <> [] -> out <> [])
  /\ (exists rest,
         mapNoteRecords raw = (out ++ rest)%list
         /\ (rest <> [] -> Z.of_nat (length out) = maxNotes limit)
         /\ (Forall (fun note => noteTime note <> None) (map toNote (noteRecords raw)) ->
             forall a b, In a out -> In b rest -> (noteKey b <= noteKey a)%Z)).
Proof.
  intro H. rewrite fetchNotesResult_cases in H.
  destruct (reportsFailure raw); [discriminate|]. injection H as <-.
  assert (Hmax : (1 <= maxNotes limit <= 50)%Z).
  { unfold maxNotes, MAX_NOTES. destruct limit; lia. }
  unfold sliceTo. set (k := Z.to_nat (maxNotes limit)).
  assert (Hk : Z.of_nat k = maxNotes limit) by (unfold k; lia).
  split; [exact Hmax|]. split; [|split].
  - pose proof (firstn_le_length k (mapNoteRecords raw)). lia.
  - destruct (mapNoteRecords raw) as [|note notes]; [congruence|].
    intros _. destruct k as [|k']; [lia | discriminate].
  - exists (skipn k (mapNoteRecords raw)). split; [|split].
    + symmetry. apply firstn_skipn.
    + intro Hr. rewrite length_firstn.
      destruct (Nat.le_gt_cases (length (mapNoteRecords raw)) k) as [Hle|Hgt]; [|lia].
      rewrite skipn_all2 in Hr by exact Hle. congruence.
    + intros Hv a b Ha Hb.
      assert (Hs : StronglySorted (fun a b => (noteKey b <= noteKey a)%Z)
                     (mapNoteRecords raw)).
      { apply (StronglySorted_impl (fun a b => (- noteKey a <= - noteKey b)%Z));
          [intros x y; lia|].
        unfold mapNoteRecords. apply sort_sorted. now apply compareNotes_orders. }
      rewrite <- (firstn_skipn k (mapNoteRecords raw)) in Hs.
      exact (StronglySorted_app_cross _ _ _ Hs a b Ha Hb).
Qed.

Lemma inDateRange_bounds (fromMs toMs : option Z) (note : Note) (t : Z) :
  inDateRange fromMs toMs note = true -> referenceDate note = Some (Some t) ->
  (forall lo, fromMs = Some lo -> (lo <= t)%Z)
  /\ (forall hi, toMs = Some hi -> (t <= hi)%Z).
Proof.
  unfold inDateRange, referenceDate. intros H Hr. rewrite Hr in H.
  split.
  - intros lo ->. destruct (Z.ltb_spec t lo); [discriminate | lia].
  - intros hi ->.
    destruct (match fromMs with Some lo => (t <? lo)%Z | None => false end);
      [discriminate|].
    destruct (Z.ltb_spec hi t); [discriminate | lia].
Qed.

(** X12.  [getNotesByDateRange] looks at the 50 notes that [fetchNotes]
    returns for the folder and keeps those in range, at most
    [max(1, min(limit, 50))] of them (20 when no limit is given).  A
    note is judged by its creation date, and by its modification date
    only when it has no creation date; a note returned whose date is
    valid lies on or after the lower bound and on or before the upper
    one.  A bound that is missing, empty or not a date is no bound.  A
    note with no date, or with an invalid one, is in range whatever the
    bounds. *)
Theorem getNotesByDateRange_window (folderName : string) (fromDate toDate : option string)
  (limit : option Z) (answer : string) (out : list Note) :
  getNotesByDateRange folderName fromDate toDate limit answer = Ok out ->
  (Z.of_nat (length out)
   <= Z.max 1 (Z.min (match limit with Some l => l | None => 20 end) 50))%Z
  /\ (exists notes,
         fetchNotes (Some MAX_NOTES) (Some folderName) answer = Ok notes
         /\ forall note, In note out -> In note notes)
  /\ (forall note t,
         In note out -> referenceDate note = Some (Some t) ->
         (forall lo, parseDateInput fromDate = Some lo -> (lo <= t)%Z)
         /\ (forall hi, parseDateInput toDate = Some hi -> (t <= hi)%Z))
  /\ (forall note fromMs toMs,
         referenceDate note = None \/ referenceDate note = Some None ->
         inDateRange fromMs toMs note = true).
Proof.
  unfold getNotesByDateRange.
  destruct (fetchNotes (Some MAX_NOTES) (Some folderName) answer) as [notes|e];
    [|discriminate].
  cbn [bind]. intro H. injection H as <-. unfold sliceTo, MAX_NOTES.
  split; [|split; [|split]].
  - pose proof (firstn_le_length
                  (Z.to_nat (Z.max 1 (Z.min (match limit with
                                             | Some l => l
                                             | None => 20%Z
                                             end) 50)))
                  (filter (inDateRange (parseDateInput fromDate) (parseDateInput toDate))
                     notes)).
    lia.
  - exists notes. split; [reflexivity|]. intros note Hin.
    apply In_firstn in Hin. apply filter_In in Hin. tauto.
  - intros note t Hin Hr. apply In_firstn in Hin. apply filter_In in Hin.
    exact (inDateRange_bounds _ _ note t (proj2 Hin) Hr).
  - intros note fromMs toMs Hr. unfold inDateRange. unfold referenceDate in Hr.
    destruct (match creationDate note with
              | Some date => Some date
              | None => modificationDate note
              end) as [[t|]|]; [destruct Hr; discriminate | | reflexivity].
    now destruct fromMs, toMs.
Qed.

Lemma orElse_nonempty (text : option string) (fallback : string) :
  fallback <> EmptyString -> orElse text fallback <> EmptyString.
Proof.
  intro H. unfold orElse. destruct text as [t|]; [|exact H].
  destruct (isEmpty t) eqn:E; [exact H|]. now apply isEmpty_false.
Qed.


End NotesFurther.

(* ================================================================= *)
(** ** Further properties of the reminders *)

Section RemindersFurther.
Context `{RT : JsRuntime}.
Import Reminders.

(** X14.  A reminder is dropped exactly when both its coerced [id] and
    its coerced [name] are the empty text.  The name of a record without
    a [name] is "Untitled Reminder", so such a record is always kept.
    For a name that is not blank and no due date, [createReminder]
    returns the first reminder the mapper keeps, and throws "Failed to
    create reminder." exactly when it keeps none. *)
Theorem mapReminderRecords_drop_rule (items : list AppleScriptValue)
  (fallbackListName : option string) (record : AppleScriptValue) :
  In record items -> isObjectItem record = true ->
  (id (toReminder fallbackListName record) = EmptyString
   /\ name (toReminder fallbackListName record) = EmptyString ->
   ~ In (toReminder fallbackListName record)
        (mapReminderRecords (VList items) fallbackListName))
  /\ (id (toReminder fallbackListName record) <> EmptyString
      \/ name (toReminder fallbackListName record) <> EmptyString ->
      In (toReminder fallbackListName record)
         (mapReminderRecords (VList items) fallbackListName))
  /\ (prop record "name" = None ->
      In (toReminder fallbackListName record)
         (mapReminderRecords (VList items) fallbackListName))
  /\ (forall raw reminder,
         In reminder (mapReminderRecords raw fallbackListName) ->
         id reminder <> EmptyString \/ name reminder <> EmptyString)
  /\ (forall raw reminderName listName,
         isEmpty (trim reminderName) = false ->
         match mapReminderRecords raw (Some (trim listName)) with
         | [] =>
             createReminder reminderName listName None raw
             = Throw (Error "Failed to create reminder.")
         | first :: _ => createReminder reminderName listName None raw = Ok first
         end).
Proof.
  intros Hin Hobj.
  assert (Hkeep : id (toReminder fallbackListName record) <> EmptyString
                  \/ name (toReminder fallbackListName record) <> EmptyString ->
                  In (toReminder fallbackListName record)
                    (mapReminderRecords (VList items) fallbackListName)).
  { intro Hsome. unfold mapReminderRecords. apply filter_In. split.
    - apply in_map. apply filter_In. now split.
    - apply orb_true_iff. rewrite !negb_true_iff, !isEmpty_false. exact Hsome. }
  split; [|split; [exact Hkeep|split; [|split]]].
  - intros [Hi Hn] Hout. unfold mapReminderRecords in Hout.
    apply filter_In in Hout. destruct Hout as [_ Hk].
    rewrite Hi, Hn in Hk. discriminate Hk.
  - intro Hn. apply Hkeep. right. cbn [toReminder name]. rewrite Hn. discriminate.
  - intros raw reminder Hout. unfold mapReminderRecords in Hout.
    apply filter_In in Hout. destruct Hout as [_ Hk].
    apply orb_true_iff in Hk. rewrite !negb_true_iff, !isEmpty_false in Hk. exact Hk.
  - intros raw reminderName listName Hn. unfold createReminder.
    destruct (isEmpty reminderName) eqn:E.
    { apply isEmpty_true in E. subst reminderName. discriminate Hn. }
    rewrite Hn. cbn [orb bind].
    destruct (mapReminderRecords raw (Some (trim listName))); reflexivity.
Qed.

End RemindersFurther.

(* ================================================================= *)
(** ** The search over the README *)

Section Slugs.
Import Search.

Lemma allChars_impl (p q : ascii -> bool) (s : string) :
  (forall c, p c = true -> q c = true) -> allChars p s = true -> allChars q s = true.
Proof.
  intro H. induction s as [|c s IH]; simpl; [trivial|].
  intro Hs. apply andb_true_iff in Hs. destruct Hs as [Hc Hs].
  now rewrite (H c Hc), IH.
Qed.

Lemma filterString_all (p : ascii -> bool) (s : string) :
  allChars p (filterString p s) = true.
Proof.
  induction s as [|c s IH]; simpl; [reflexivity|].
  destruct (p c) eqn:E; simpl; [now rewrite E | exact IH].
Qed.

Lemma replaceRuns_space_slug (s : string) :
  allChars isSlugInput s = true ->
  forall inRun, allChars isSlugChar (replaceRuns isSpace "-" inRun s) = true.
Proof.
  induction s as [|c s IH]; simpl; [reflexivity|].
  intros H inRun. apply andb_true_iff in H. destruct H as [Hc Hs].
  destruct (isSpace c) eqn:E.
  - destruct inRun; simpl; now apply IH.
  - simpl. rewrite (IH Hs). unfold isSlugInput in Hc. rewrite E, orb_false_r in Hc.
    unfold isSlugChar, isDash. now rewrite Hc.
Qed.

Lemma replaceRuns_dash_slug (s : string) :
  allChars isSlugChar s = true ->
  forall inRun, allChars isSlugChar (replaceRuns isDash "-" inRun s) = true.
Proof.
  induction s as [|c s IH]; simpl; [reflexivity|].
  intros H inRun. apply andb_true_iff in H. destruct H as [Hc Hs].
  destruct (isDash c) eqn:E.
  - destruct inRun; simpl; now apply IH.
  - simpl. now rewrite Hc, (IH Hs).
Qed.

Lemma replaceRuns_dash_single (s : string) :
  forall inRun, singleDashes inRun (replaceRuns isDash "-" inRun s) = true.
Proof.
  induction s as [|c s IH]; simpl; [reflexivity|]. intro inRun.
  destruct (isDash c) eqn:E.
  - destruct inRun; simpl; apply IH.
  - simpl. rewrite E. apply IH.
Qed.

Lemma dropDashes_slug (s : string) :
  allChars isSlugChar s = true -> allChars isSlugChar (dropDashes s) = true.
Proof.
  induction s as [|c s IH]; simpl; [trivial|].
  intro H. destruct (isDash c); [|exact H].
  apply andb_true_iff in H. now apply IH.
Qed.

Lemma dropDashes_single (s : string) :
  forall afterDash,
    singleDashes afterDash s = true -> singleDashes true (dropDashes s) = true.
Proof.
  induction s as [|c s IH]; simpl; [trivial|]. intros afterDash H.
  destruct (isDash c) eqn:E.
  - apply andb_true_iff in H. now apply (IH true).
  - simpl. now rewrite E.
Qed.

Lemma dropEndDashes_slug (s : string) :
  allChars isSlugChar s = true -> allChars isSlugChar (dropEndDashes s) = true.
Proof.
  induction s as [|c s IH]; [trivial|]. intro H. cbn [dropEndDashes].
  destruct (allChars isDash (String c s)); [reflexivity|].
  simpl in *. apply andb_true_iff in H. destruct H as [Hc Hs]. now rewrite Hc, IH.
Qed.

Lemma dropEndDashes_single (s : string) :
  forall afterDash,
    singleDashes afterDash s = true -> singleDashes afterDash (dropEndDashes s) = true.
Proof.
  induction s as [|c s IH]; [trivial|]. intros afterDash H. cbn [dropEndDashes].
  destruct (allChars isDash (String c s)); [reflexivity|].
  simpl in *. destruct (isDash c).
  - apply andb_true_iff in H. destruct H as [Ha Hs]. now rewrite Ha, IH.
  - now apply IH.
Qed.

Lemma dropEndDashes_empty (s : string) :
  dropEndDashes s = EmptyString -> allChars isDash s = true.
Proof.
  destruct s as [|c s]; [reflexivity|]. cbn [dropEndDashes].
  destruct (allChars isDash (String c s)); [reflexivity | discriminate].
Qed.

Lemma dropEndDashes_end (s : string) : endsWithDash (dropEndDashes s) = false.
Proof.
  induction s as [|c s IH]; [reflexivity|]. cbn [dropEndDashes].
  destruct (allChars isDash (String c s)) eqn:E; [reflexivity|].
  cbn [endsWithDash]. destruct (dropEndDashes s) as [|d rest] eqn:Ed; [|exact IH].
  apply dropEndDashes_empty in Ed. simpl in E. rewrite Ed, andb_true_r in E. exact E.
Qed.

Lemma span_spec (p : ascii -> bool) (s : string) :
  forall w r,
    span p s = (w, r) ->
    s = w ++ r /\ allChars p w = true
    /\ match r with
       | EmptyString => True
       | String d _ => p d = false
       end.
Proof.
  induction s as [|c s IH]; simpl; intros w r H.
  - injection H as <- <-. repeat split.
  - destruct (p c) eqn:E.
    + destruct (span p s) as [w' r'] eqn:Es. injection H as <- <-.
      destruct (IH _ _ eq_refl) as (-> & Hw & Hr). simpl. rewrite E. repeat split; assumption.
    + injection H as <- <-. simpl. repeat split. exact E.
Qed.

Lemma allChars_append (p : ascii -> bool) (a b : string) :
  allChars p (a ++ b) = allChars p a && allChars p b.
Proof.
  induction a as [|c a IH]; simpl; [reflexivity|]. now rewrite IH, andb_assoc.
Qed.

Lemma singleDashes_word (w r : string) (afterDash : bool) :
  allChars isLowerAlnum w = true -> w <> EmptyString ->
  singleDashes afterDash (w ++ r) = singleDashes false r.
Proof.
  revert afterDash. induction w as [|c w IH]; intros afterDash Hw Hne; [now elim Hne|].
  simpl in *. apply andb_true_iff in Hw. destruct Hw as [Hc Hw].
  assert (Hd : isDash c = false).
  { unfold isDash. destruct (Ascii.eqb_spec c "-") as [->|_]; [discriminate Hc | reflexivity]. }
  rewrite Hd. destruct w as [|c' w']; [reflexivity|].
  apply IH; [exact Hw | discriminate].
Qed.

Lemma endsWithDash_append (w : string) (d : ascii) (r : string) :
  endsWithDash (w ++ String d r) = endsWithDash (String d r).
Proof.
  induction w as [|c w IH]; [reflexivity|].
  change (String c w ++ String d r) with (String c (w ++ String d r)).
  cbn [endsWithDash]. destruct (w ++ String d r) eqn:E; [|exact IH].
  destruct w; discriminate E.
Qed.

(** A text of slug characters, with no dash at either end and no two
    dashes in a row, is a sequence of words joined by dashes. *)
Lemma slug_words (n : nat) :
  forall s,
    String.length s < n ->
    allChars isSlugChar s = true -> singleDashes true s = true ->
    endsWithDash s = false ->
    exists words, s = join "-" words /\ Forall slugWord words.
Proof.
  induction n as [|n IH]; intros s Hlen Hc Hs He; [lia|].
  destruct s as [|c s']; [exists []; split; [reflexivity | constructor]|].
  destruct (span isLowerAlnum (String c s')) as [w r] eqn:Esp.
  destruct (span_spec _ _ _ _ Esp) as (Hsplit & Hw & Hr).
  assert (Hfirst : isLowerAlnum c = true).
  { simpl in Hs, Hc. apply andb_true_iff in Hc. destruct Hc as [Hc _].
    unfold isSlugChar in Hc. destruct (isDash c); [discriminate Hs|].
    now rewrite orb_false_r in Hc. }
  assert (Hne : w <> EmptyString).
  { simpl in Esp. rewrite Hfirst in Esp. destruct (span isLowerAlnum s').
    injection Esp as <- _. discriminate. }
  destruct r as [|d r'].
  - exists [w]. rewrite append_nil_r in Hsplit. split; [exact Hsplit|].
    constructor; [now split | constructor].
  - rewrite Hsplit in Hc, Hs, He, Hlen.
    rewrite allChars_append in Hc. apply andb_true_iff in Hc. destruct Hc as [_ Hc].
    simpl in Hc. apply andb_true_iff in Hc. destruct Hc as [Hd Hc].
    unfold isSlugChar in Hd. rewrite Hr in Hd. cbn [orb] in Hd.
    rewrite (singleDashes_word _ _ _ Hw Hne) in Hs. simpl in Hs. rewrite Hd in Hs.
    cbn [negb andb] in Hs.
    rewrite endsWithDash_append in He.
    rewrite length_append in Hlen. simpl in Hlen.
    assert (Hr' : r' <> EmptyString).
    { intros ->. simpl in He. congruence. }
    assert (He' : endsWithDash r' = false).
    { destruct r' as [|x r'']; [now elim Hr' | exact He]. }
    destruct (IH r' ltac:(lia) Hc Hs He') as (words & -> & Hwords).
    assert (Hd' : d = "-"%char).
    { unfold isDash in Hd. now apply Ascii.eqb_eq in Hd. }
    subst d. exists (w :: words). split.
    + rewrite Hsplit. destruct words as [|w' words']; [now elim Hr'|]. reflexivity.
    + constructor; [now split | exact Hwords].
Qed.

(** X15.  Whatever the heading, its slug is a sequence of words joined by
    single dashes, each word made of lower-case letters and digits and
    none of them empty: no other character, no dash at either end, no
    two dashes in a row.  The slug may be empty: no words at all. *)
Theorem slugify_shape (value : string) :
  exists words, slugify value = join "-" words /\ Forall slugWord words.
Proof.
  unfold slugify.
  set (step2 := filterString isSlugInput (toLowerCase (trim value))).
  assert (H2 : allChars isSlugInput step2 = true) by apply filterString_all.
  set (step4 := replaceRuns isDash "-" false (replaceRuns isSpace "-" false step2)).
  assert (H4 : allChars isSlugChar step4 = true)
    by (apply replaceRuns_dash_slug, replaceRuns_space_slug, H2).
  assert (S4 : singleDashes false step4 = true) by apply replaceRuns_dash_single.
  apply (slug_words (S (String.length (dropEndDashes (dropDashes step4))))).
  - lia.
  - now apply dropEndDashes_slug, dropDashes_slug.
  - apply dropEndDashes_single. exact (dropDashes_single _ _ S4).
  - apply dropEndDashes_end.
Qed.

Lemma splitOnSpace_pieces (s : string) :
  forall inRun piece,
    allChars (fun c => negb (isSpace c)) piece = true ->
    Forall (fun token => allChars (fun c => negb (isSpace c)) token = true)
      (splitOnSpace inRun piece s).
Proof.
  induction s as [|c s IH]; intros inRun piece Hp; simpl.
  - now repeat constructor.
  - destruct (isSpace c) eqn:E.
    + destruct inRun; [now apply IH|]. constructor; [exact Hp | now apply IH].
    + apply IH. rewrite allChars_append, Hp. simpl. now rewrite E.
Qed.

(** X16.  The tokens of a query hold no whitespace and are never empty;
    a token of one character is a lower-case letter or a digit, so a
    lone punctuation mark is no token.  A query that is empty or all
    whitespace has no tokens. *)
Theorem tokenize_tokens (query : string) :
  Forall (fun token =>
            token <> EmptyString
            /\ allChars (fun c => negb (isSpace c)) token = true)
    (tokenize query)
  /\ (forall c, In (str1 c) (tokenize query) -> isLowerAlnum c = true)
  /\ (allSpace query = true -> tokenize query = []).
Proof.
  unfold tokenize. split; [|split].
  - apply Forall_forall. intros token Hin. apply filter_In in Hin.
    destruct Hin as [Hin Hk]. split.
    + intros ->. discriminate Hk.
    + pose proof (splitOnSpace_pieces (toLowerCase (trim query)) false EmptyString eq_refl)
        as Hf.
      rewrite Forall_forall in Hf. now apply Hf.
  - intros c Hin. apply filter_In in Hin. destruct Hin as [_ Hk].
    unfold keepToken in Hk. simpl in Hk. now rewrite orb_false_r in Hk.
  - intro H. unfold trim. now rewrite (allSpace_trimEnd _ H).
Qed.

End Slugs.

Section Ranking.
Import Search.

Lemma tokenScore_spec (document : SearchDocument) (tokens : list string) :
  forall acc,
    let f := fun (score : Z) (token : string) =>
               let currentScore := score in
               let currentScore :=
                 if includesText (titleLower document) token then (currentScore + 3)%Z
                 else currentScore in
               let currentScore :=
                 if includesText (contentLower document) token then (currentScore + 1)%Z
                 else currentScore in
               currentScore in
    (acc <= fold_left f tokens acc <= acc + 4 * Z.of_nat (length tokens))%Z
    /\ ((acc < fold_left f tokens acc)%Z
        <-> exists token,
              In token tokens
              /\ (includesText (titleLower document) token = true
                  \/ includesText (contentLower document) token = true)).
Proof.
  induction tokens as [|token tokens IH]; intros acc f.
  - simpl. split; [lia|]. split; [lia | intros (t & [] & _)].
  - cbn [fold_left]. specialize (IH (f acc token)). cbv zeta in IH. fold f in IH.
    destruct IH as [Hb Hp].
    assert (Hstep : (acc <= f acc token <= acc + 4)%Z
                    /\ ((acc < f acc token)%Z
                        <-> includesText (titleLower document) token = true
                            \/ includesText (contentLower document) token = true)).
    { unfold f. destruct (includesText (titleLower document) token),
        (includesText (contentLower document) token); split; try lia;
        split; intro H; try lia; try tauto; destruct H; discriminate. }
    destruct Hstep as [Hs1 Hs2].
    split; [rewrite length_cons; lia|]. split.
    + intro H. destruct (Z.eq_dec (f acc token) acc) as [E|E].
      * rewrite E in Hp, H. apply Hp in H. destruct H as (t & Hin & Ht).
        exists t. split; [now right | exact Ht].
      * exists token. split; [now left|]. apply Hs2. lia.
    + intros (t & [<- | Hin] & Ht).
      * apply Hs2 in Ht. lia.
      * assert (f acc token < fold_left f tokens (f acc token))%Z
          by (apply Hp; now exists t).
        lia.
Qed.

Lemma computeScore_matches (document : SearchDocument) (query : string)
  (tokens : list string) :
  (0 < computeScore document query tokens)%Z <-> matches document query tokens.
Proof.
  unfold computeScore, matches.
  destruct (tokenScore_spec document tokens 0%Z) as [Hb Hp]. cbv zeta in Hb, Hp.
  destruct (includesText (titleLower document) query),
    (includesText (contentLower document) query);
    (split; [intro H; try tauto; right; right; apply Hp; lia
            | intros [H | [H | H]]; try discriminate H; try lia;
              apply Hp in H; lia]).
Qed.

(** X17.  The score of a document is positive exactly when the document
    matches: the query, or one of its tokens, occurs in the lower-cased
    title or content.  It is never negative, and at most 9 plus 4 for
    each token. *)
Theorem computeScore_positive (document : SearchDocument) (query : string)
  (tokens : list string) :
  ((0 < computeScore document query tokens)%Z <-> matches document query tokens)
  /\ (0 <= computeScore document query tokens <= 9 + 4 * Z.of_nat (length tokens))%Z.
Proof.
  split; [apply computeScore_matches|].
  unfold computeScore.
  destruct (tokenScore_spec document tokens 0%Z) as [Hb _]. cbv zeta in Hb.
  destruct (includesText (titleLower document) query),
    (includesText (contentLower document) query); lia.
Qed.

Lemma mapWithIndex_In {A B : Type} (f : A -> Z -> B) (l : list A) :
  forall start y,
    In y (mapWithIndex f start l) ->
    exists n x, nth_error l n = Some x /\ y = f x (start + Z.of_nat n)%Z.
Proof.
  induction l as [|x l IH]; intros start y; simpl; [intros []|].
  intros [<- | H].
  - exists 0, x. split; [reflexivity|]. now rewrite Z.add_0_r.
  - apply IH in H. destruct H as (n & x' & Hn & ->).
    exists (S n), x'. split; [exact Hn|]. f_equal. lia.
Qed.

Lemma mapWithIndex_nth {A B : Type} (f : A -> Z -> B) (l : list A) :
  forall start n x,
    nth_error l n = Some x -> In (f x (start + Z.of_nat n)%Z) (mapWithIndex f start l).
Proof.
  induction l as [|x l IH]; intros start n x' H; [destruct n; discriminate H|].
  destruct n as [|n]; simpl in *.
  - injection H as ->. left. now rewrite Z.add_0_r.
  - right. replace (start + Z.pos (Pos.of_succ_nat n))%Z with (start + 1 + Z.of_nat n)%Z by lia.
    now apply IH.
Qed.

Lemma StronglySorted_impl_In {A : Type} (R S : A -> A -> Prop) (l : list A) :
  (forall a b, In a l -> In b l -> R a b -> S a b) ->
  StronglySorted R l -> StronglySorted S l.
Proof.
  intros H Hs. induction Hs as [|x l Hs IH Hx]; constructor.
  - apply IH. intros a b Ha Hb. apply H; now right.
  - rewrite Forall_forall in *. intros y Hy.
    apply H; [now left | now right | now apply Hx].
Qed.

Lemma compareScored_orders (bound : Z) (l : list Scored) :
  (forall entry, In entry l -> (0 <= index entry < bound)%Z) ->
  OrdersBy compareScored (rankKey bound) l.
Proof.
  intros Hb x y Hx Hy. pose proof (Hb x Hx). pose proof (Hb y Hy).
  unfold sortCompare, compareScored, rankKey.
  destruct (Z.eqb_spec (score y) (score x)) as [E|E].
  - rewrite E. destruct (Z.leb_spec (index x - index y) 0);
      destruct (Z.leb_spec (- score x * bound + index x) (- score x * bound + index y));
      try reflexivity; lia.
  - destruct (Z.leb_spec (score y - score x) 0);
      destruct (Z.leb_spec (- score x * bound + index x) (- score y * bound + index y));
      try reflexivity; exfalso; nia.
Qed.

Lemma rankKey_ranks (bound : Z) (a b : Scored) :
  (0 <= index a < bound)%Z -> (0 <= index b < bound)%Z ->
  (rankKey bound a <= rankKey bound b)%Z -> ranksBefore a b.
Proof.
  unfold rankKey, ranksBefore. intros Ha Hb H.
  destruct (Z.lt_trichotomy (score a) (score b)) as [Hlt | [Heq | Hgt]].
  - exfalso. nia.
  - right. split; [exact Heq|]. rewrite Heq in H. lia.
  - now left.
Qed.

(** The entries of [search] before the sort: one for each matching
    document, with its place. *)
Lemma entries_spec (documents : list SearchDocument) (query : string) (tokens : list string)
  (entry : Scored) :
  In entry
    (filter (fun entry => (0 <? score entry)%Z)
       (mapWithIndex
          (fun doc index =>
             {| doc := doc; score := computeScore doc query tokens; index := index |})
          0%Z documents))
  <-> (exists n,
          nth_error documents n = Some (doc entry)
          /\ index entry = Z.of_nat n)
      /\ score entry = computeScore (doc entry) query tokens
      /\ (0 < score entry)%Z.
Proof.
  rewrite filter_In. split.
  - intros [Hin Hpos]. apply mapWithIndex_In in Hin. destruct Hin as (n & x & Hn & ->).
    cbn [doc score index] in *. split; [exists n; split; [exact Hn | lia]|].
    split; [reflexivity | now apply Z.ltb_lt].
  - intros ((n & Hn & Hi) & Hs & Hpos). split; [|now apply Z.ltb_lt].
    destruct entry as [d s i]. cbn [doc score index] in *. subst s i.
    exact (mapWithIndex_nth
             (fun doc index =>
                {| doc := doc; score := computeScore doc query tokens; index := index |})
             documents 0%Z n d Hn).
Qed.

(** X18.  What [search] returns for a query that is not blank: the
    matching documents, at most [max(1, limit)] of them, the higher
    scores first and, among equal scores, in the order of the
    documents.  Each result stands for a document of the list whose
    score is positive, and no matching document is left out while there
    is room: the documents left out rank after those returned.  A query
    that is empty or all whitespace returns nothing. *)
Theorem search_ranked (documents : list SearchDocument) (query : string) (limit : Z) :
  let trimmed := trim query in
  let out := scored documents trimmed limit in
  (isEmpty trimmed = true -> search documents query (Some limit) = [])
  /\ (isEmpty trimmed = false ->
      search documents query (Some limit)
      = map (fun entry =>
               {| resultId := id (doc entry);
                  resultTitle := title (doc entry);
                  resultUrl := url (doc entry) |}) out)
  /\ (Z.of_nat (length out) <= Z.max 1 limit)%Z
  /\ StronglySorted ranksBefore out
  /\ (forall entry,
         In entry out ->
         nth_error documents (Z.to_nat (index entry)) = Some (doc entry)
         /\ score entry = computeScore (doc entry) (toLowerCase trimmed) (tokenize trimmed)
         /\ matches (doc entry) (toLowerCase trimmed) (tokenize trimmed))
  /\ (exists rest,
         (rest <> [] -> Z.of_nat (length out) = Z.max 1 limit)
         /\ (forall a b, In a out -> In b rest -> ranksBefore a b)
         /\ forall n document,
              nth_error documents n = Some document ->
              matches document (toLowerCase trimmed) (tokenize trimmed) ->
              exists entry,
                In entry (out ++ rest)%list
                /\ doc entry = document /\ index entry = Z.of_nat n).
Proof.
  intros trimmed out.
  set (q := toLowerCase trimmed). set (tokens := tokenize trimmed).
  set (entries :=
         filter (fun entry => (0 <? score entry)%Z)
           (mapWithIndex
              (fun doc index =>
                 {| doc := doc; score := computeScore doc q tokens; index := index |})
              0%Z documents)).
  set (ranked := sort compareScored entries).
  assert (Hout : out = firstn (Z.to_nat (Z.max 1 limit)) ranked) by reflexivity.
  set (bound := Z.of_nat (length documents)).
  assert (Hentries : forall entry, In entry entries ->
             (0 <= index entry < bound)%Z
             /\ nth_error documents (Z.to_nat (index entry)) = Some (doc entry)
             /\ score entry = computeScore (doc entry) q tokens
             /\ (0 < score entry)%Z).
  { intros entry Hin. apply entries_spec in Hin.
    destruct Hin as ((n & Hn & Hi) & Hs & Hpos).
    assert (n < length documents) by (apply nth_error_Some; congruence).
    rewrite Hi, Nat2Z.id. unfold bound. repeat split; try assumption; lia. }
  assert (Hranked : forall entry, In entry ranked -> In entry entries).
  { intros entry Hin. exact (Permutation_in _ (sort_perm compareScored entries) Hin). }
  assert (Hsorted : StronglySorted ranksBefore ranked).
  { apply (StronglySorted_impl_In (fun a b => (rankKey bound a <= rankKey bound b)%Z)).
    - intros a b Ha Hb. apply rankKey_ranks; now apply Hentries, Hranked.
    - apply sort_sorted, compareScored_orders. intros entry Hin. now apply Hentries. }
  split; [|split; [|split; [|split; [|split]]]].
  - intro H. unfold search. fold trimmed. now rewrite H.
  - intro H. unfold search. fold trimmed. now rewrite H.
  - rewrite Hout. pose proof (firstn_le_length (Z.to_nat (Z.max 1 limit)) ranked). lia.
  - rewrite Hout. now apply StronglySorted_firstn.
  - intros entry Hin. rewrite Hout in Hin. apply In_firstn in Hin.
    destruct (Hentries entry (Hranked entry Hin)) as (_ & Hn & Hs & Hpos).
    split; [exact Hn|]. split; [exact Hs|].
    apply computeScore_matches. now rewrite <- Hs.
  - exists (skipn (Z.to_nat (Z.max 1 limit)) ranked). split; [|split].
    + intro Hr. rewrite Hout, length_firstn.
      destruct (Nat.le_gt_cases (length ranked) (Z.to_nat (Z.max 1 limit))) as [Hle|Hgt];
        [|lia].
      rewrite skipn_all2 in Hr by exact Hle. congruence.
    + rewrite Hout. apply StronglySorted_app_cross. now rewrite firstn_skipn.
    + intros n document Hn Hm. rewrite Hout, firstn_skipn.
      exists {| doc := document; score := computeScore document q tokens;
                index := Z.of_nat n |}.
      split; [|split; reflexivity].
      apply (Permutation_in _ (Permutation_sym (sort_perm compareScored entries))).
      apply entries_spec. cbn [doc score index].
      split; [now exists n|]. split; [reflexivity|]. now apply computeScore_matches.
Qed.

Lemma find_unique (documents : list SearchDocument) (document : SearchDocument) :
  NoDup (map id documents) -> In document documents ->
  find (fun d => String.eqb (id d) (id document)) documents = Some document.
Proof.
  induction documents as [|d rest IH]; simpl; intros Hn Hin; [destruct Hin|].
  inversion Hn as [|? ? Hd Hrest]; subst.
  destruct (String.eqb_spec (id d) (id document)) as [E|E].
  - destruct Hin as [-> | Hin]; [reflexivity|].
    elim Hd. rewrite E. now apply in_map.
  - destruct Hin as [-> | Hin]; [now elim E | now apply IH].
Qed.

Lemma scored_document (documents : list SearchDocument) (trimmed : string) (limit : Z)
  (entry : Scored) :
  In entry (scored documents trimmed limit) -> In (doc entry) documents.
Proof.
  unfold scored, sliceTo. intro Hin. apply In_firstn in Hin.
  apply (Permutation_in _ (sort_perm compareScored _)) in Hin.
  apply entries_spec in Hin. destruct Hin as ((n & Hn & _) & _).
  exact (nth_error_In _ _ Hn).
Qed.

(** X19.  Searching and fetching fit together.  When the identifiers of
    the documents are distinct, not empty and carry no whitespace at
    either end, every result of [search] can be fetched by its
    identifier, and what is fetched is the document the result stands
    for: same identifier, title and address.  An identifier that is
    empty or all whitespace is refused, "Document id is required"; one
    that no document carries is reported with the identifier trimmed. *)
Theorem search_then_fetch (documents : list SearchDocument) (query : string)
  (limit : option Z) (found : SearchResult) :
  NoDup (map id documents) ->
  (forall document, In document documents ->
     trim (id document) = id document /\ id document <> EmptyString) ->
  In found (search documents query limit) ->
  (exists document,
      In document documents
      /\ fetchDocument documents (resultId found)
         = Ok {| fetchedId := resultId found;
                 fetchedTitle := resultTitle found;
                 fetchedText := content document;
                 fetchedUrl := resultUrl found;
                 fetchedMetadata := DEFAULT_METADATA |})
  /\ (forall identifier,
         isEmpty (trim identifier) = true ->
         fetchDocument documents identifier = Throw (Error "Document id is required"))
  /\ (forall identifier,
         isEmpty (trim identifier) = false ->
         (forall document, In document documents -> id document <> trim identifier) ->
         fetchDocument documents identifier
         = Throw (Error ("No document found for id '" ++ trim identifier ++ "'"))).
Proof.
  intros Hn Hids Hin. split; [|split].
  - unfold search in Hin. destruct (isEmpty (trim query)); [destruct Hin|].
    apply in_map_iff in Hin. destruct Hin as (entry & <- & Hin).
    cbn [resultId resultTitle resultUrl].
    pose proof (scored_document documents (trim query)
                  (match limit with Some l => l | None => MAX_RESULTS end) entry Hin)
      as Hd.
    exists (doc entry). split; [exact Hd|]. unfold fetchDocument.
    destruct (Hids _ Hd) as [Ht Hne]. rewrite Ht.
    destruct (isEmpty (id (doc entry))) eqn:E; [apply isEmpty_true in E; now elim Hne|].
    now rewrite (find_unique _ _ Hn Hd).
  - intros identifier H. unfold fetchDocument. now rewrite H.
  - intros identifier H Hnone. unfold fetchDocument. rewrite H.
    destruct (find (fun d => String.eqb (id d) (trim identifier)) documents)
      as [d|] eqn:E; [|reflexivity].
    apply find_some in E. destruct E as [Hd He]. apply String.eqb_eq in He.
    now elim (Hnone d Hd).
Qed.

End Ranking.

(* ================================================================= *)
(** ** The parser on well-formed texts *)

Section Literals.
Context `{RT : JsRuntime}.
Import Parser.

Lemma space_facts (c : ascii) :
  isSpace c = true ->
  isPlainChar c = true /\ isKeyChar c = false /\ isDigitChar c = false
  /\ c <> "."%char /\ c <> "-"%char.
Proof.
  destruct c as [[|] [|] [|] [|] [|] [|] [|] [|]]; vm_compute; intro H;
    try discriminate H; repeat split; discriminate.
Qed.

Lemma digit_facts (c : ascii) :
  isDigitChar c = true ->
  isPlainChar c = true /\ isSpace c = false /\ c <> "-"%char
  /\ c <> "m"%char /\ c <> "t"%char /\ c <> "f"%char
  /\ c <> "{"%char /\ c <> DQUOTE /\ c <> "="%char.
Proof.
  destruct c as [[|] [|] [|] [|] [|] [|] [|] [|]]; vm_compute; intro H;
    try discriminate H; repeat split; discriminate.
Qed.

Lemma key_facts (c : ascii) :
  isKeyChar c = true -> isPlainChar c = true /\ isSpace c = false.
Proof.
  destruct c as [[|] [|] [|] [|] [|] [|] [|] [|]]; vm_compute; intro H;
    try discriminate H; repeat split; discriminate.
Qed.

Lemma allSpace_allChars (ws : string) : allSpace ws = allChars isSpace ws.
Proof. induction ws as [|c ws IH]; simpl; [reflexivity | now rewrite IH]. Qed.

Lemma Balanced_append (a b : string) : Balanced a -> Balanced b -> Balanced (a ++ b).
Proof.
  intros Ha Hb. induction Ha as [ | c g Hq Ho Hc _ IH | body text g He _ IH
                                  | inner g Hi _ _ IH ].
  - exact Hb.
  - simpl. now constructor.
  - rewrite append_assoc. now apply Balanced_literal with text.
  - simpl. rewrite append_assoc. simpl. now constructor.
Qed.

Lemma Undelimited_append (a b : string) :
  Undelimited a -> Undelimited b -> Undelimited (a ++ b).
Proof.
  intros Ha Hb. induction Ha as [ | c g Hq Ho Hc H1 H2 _ IH | body text g He _ IH
                                  | inner g Hi _ IH ].
  - exact Hb.
  - simpl. now constructor.
  - rewrite append_assoc. now apply Undelimited_literal with text.
  - simpl. rewrite append_assoc. simpl. now constructor.
Qed.

Lemma plain_shape (s : string) :
  allChars isPlainChar s = true -> Balanced s /\ Undelimited s.
Proof.
  induction s as [|c s IH]; simpl; [split; constructor|].
  intro H. apply andb_true_iff in H. destruct H as [Hc Hs].
  destruct (IH Hs) as [Hb Hu]. unfold isPlainChar in Hc.
  apply negb_true_iff in Hc. repeat (apply orb_false_iff in Hc; destruct Hc as [Hc ?]).
  assert (c <> DQUOTE) by now apply Ascii.eqb_neq.
  assert (c <> "{"%char) by now apply Ascii.eqb_neq.
  assert (c <> "}"%char) by now apply Ascii.eqb_neq.
  assert (c <> ":"%char) by now apply Ascii.eqb_neq.
  assert (c <> ","%char) by now apply Ascii.eqb_neq.
  split; now constructor.
Qed.

Lemma spaces_plain (ws : string) : allSpace ws = true -> allChars isPlainChar ws = true.
Proof.
  rewrite allSpace_allChars. apply allChars_impl. intros c H. now apply space_facts.
Qed.

Lemma literal_shape (body text : string) :
  Escaped body text -> Balanced (quoted body) /\ Undelimited (quoted body).
Proof.
  intro H. rewrite <- (append_nil_r (quoted body)). split.
  - apply Balanced_literal with text; [exact H | constructor].
  - apply Undelimited_literal with text; [exact H | constructor].
Qed.

Lemma group_shape (inner : string) :
  Balanced inner ->
  Balanced (String "{" (inner ++ "}")) /\ Undelimited (String "{" (inner ++ "}")).
Proof. intro H. split; constructor; (exact H || constructor). Qed.

Lemma number_plain (literal : string) :
  NumberLiteral literal -> allChars isPlainChar literal = true.
Proof.
  intros (sign & whole & fraction & -> & Hsign & _ & Hw & Hf).
  rewrite !allChars_append.
  assert (Hd : forall s, allChars isDigitChar s = true -> allChars isPlainChar s = true).
  { intro s. apply allChars_impl. intros c H. now apply digit_facts. }
  rewrite (Hd _ Hw). destruct Hsign as [-> | ->];
    (destruct Hf as [-> | (digits & -> & Hdig)]; [reflexivity|]);
    simpl; now rewrite (Hd _ Hdig).
Qed.

Lemma Boundary_spaces (ws : string) (c : ascii) (rest : string) :
  allSpace ws = true -> c = ","%char \/ c = "}"%char -> Boundary (ws ++ String c rest).
Proof.
  intros Hws Hc. destruct ws as [|w ws]; simpl.
  - tauto.
  - simpl in Hws. apply andb_true_iff in Hws. tauto.
Qed.

Lemma skipWhitespace_allSpace (ws x : string) :
  allSpace ws = true -> skipWhitespace (ws ++ x) = skipWhitespace x.
Proof.
  intro H. induction ws as [|w ws IH]; simpl; [reflexivity|].
  simpl in H. apply andb_true_iff in H. destruct H as [Hw Hws].
  rewrite Hw. now apply IH.
Qed.

Lemma skipWhitespace_idem (x : string) :
  skipWhitespace (skipWhitespace x) = skipWhitespace x.
Proof.
  induction x as [|c x IH]; simpl; [reflexivity|].
  destruct (isSpace c) eqn:E; [exact IH|]. simpl. now rewrite E.
Qed.

Lemma skipWhitespace_first (c : ascii) (x : string) :
  isSpace c = false -> skipWhitespace (String c x) = String c x.
Proof. intro H. simpl. now rewrite H. Qed.

Lemma parseValueWith_skip (classify : string -> result bool) (fuel : nat) (x : string) :
  parseValueWith classify fuel (skipWhitespace x) = parseValueWith classify fuel x.
Proof.
  destruct fuel as [|fuel]; [reflexivity|]. cbn [parseValueWith].
  now rewrite skipWhitespace_idem.
Qed.

Lemma parseValueWith_spaces (classify : string -> result bool) (fuel : nat)
  (ws x : string) :
  allSpace ws = true ->
  parseValueWith classify fuel (ws ++ x) = parseValueWith classify fuel x.
Proof.
  intro H. rewrite <- parseValueWith_skip, (skipWhitespace_allSpace _ _ H).
  apply parseValueWith_skip.
Qed.

Lemma parseItems_skip (classify : string -> result bool) (fuel n : nat)
  (acc : list AppleScriptValue) (x : string) :
  parseItems (parseValueWith classify fuel) n acc (skipWhitespace x)
  = parseItems (parseValueWith classify fuel) n acc x.
Proof.
  destruct n as [|n]; [reflexivity|]. cbn [parseItems]. now rewrite parseValueWith_skip.
Qed.

Lemma parseKey_skip (x : string) : parseKey (skipWhitespace x) = parseKey x.
Proof. unfold parseKey. now rewrite skipWhitespace_idem. Qed.

Lemma parseFields_skip (classify : string -> result bool) (fuel n : nat)
  (record : list (string * AppleScriptValue)) (x : string) :
  parseFields (parseValueWith classify fuel) n record (skipWhitespace x)
  = parseFields (parseValueWith classify fuel) n record x.
Proof.
  destruct n as [|n]; [reflexivity|]. cbn [parseFields]. now rewrite parseKey_skip.
Qed.

Lemma span_append (p : ascii -> bool) (w r : string) :
  allChars p w = true ->
  match r with
  | EmptyString => True
  | String d _ => p d = false
  end ->
  span p (w ++ r) = (w, r).
Proof.
  intros Hw Hr. induction w as [|c w IH]; simpl.
  - destruct r as [|d r]; [reflexivity|]. simpl. now rewrite Hr.
  - simpl in Hw. apply andb_true_iff in Hw. destruct Hw as [Hc Hw].
    now rewrite Hc, (IH Hw).
Qed.

Lemma startsWith_first (d : ascii) (keyword : string) (c : ascii) (x : string) :
  c <> d -> startsWith (String d keyword) (String c x) = false.
Proof.
  intro H. unfold startsWith. simpl.
  destruct (Ascii.ascii_dec d c) as [E|_]; [now elim H | reflexivity].
Qed.

(** A string literal, whatever follows it. *)
Lemma parseValueWith_literal (classify : string -> result bool) (fuel : nat)
  (body text rest : string) :
  Escaped body text ->
  parseValueWith classify (S fuel) (quoted body ++ rest) = Ok (VString text, rest).
Proof.
  intro H. destruct (parseStringLoop_Escaped _ _ H EmptyString) as (A & _ & _).
  rewrite quoted_append. cbn [parseValueWith skipWhitespace isWhitespaceChar].
  change (isSpace DQUOTE) with false. cbn [peek].
  change (Ascii.eqb DQUOTE "{") with false.
  change (Ascii.eqb DQUOTE DQUOTE) with true. cbv iota.
  change (parseString (String DQUOTE (body ++ String DQUOTE rest)))
    with (parseStringLoop EmptyString (body ++ String DQUOTE rest)).
  now rewrite A.
Qed.

(** A number literal, followed by the end, a comma, a brace or
    whitespace. *)
Lemma Boundary_first (rest : string) :
  Boundary rest ->
  match rest with
  | EmptyString => True
  | String d _ => isDigitChar d = false /\ d <> "."%char
  end.
Proof.
  destruct rest as [|d rest]; [trivial|]. intros [-> | [-> | H]].
  - split; [reflexivity | discriminate].
  - split; [reflexivity | discriminate].
  - split; now apply space_facts.
Qed.

Lemma parseNumber_literal (literal rest : string) :
  NumberLiteral literal -> Boundary rest ->
  parseNumber (literal ++ rest) = Ok (Number_of_string literal, rest).
Proof.
  intros (sign & whole & fraction & -> & Hsign & Hne & Hw & Hf) Hb.
  apply Boundary_first in Hb. rewrite !append_assoc. unfold parseNumber.
  assert (Hacc : match accept "-" (sign ++ whole ++ fraction ++ rest) with
                 | Some s' => ("-", s')
                 | None => (EmptyString, sign ++ whole ++ fraction ++ rest)
                 end = (sign, whole ++ fraction ++ rest)).
  { destruct Hsign as [-> | ->]; [|reflexivity].
    destruct whole as [|d whole']; [now elim Hne|]. simpl in Hw.
    apply andb_true_iff in Hw. destruct Hw as [Hd _].
    simpl. rewrite ascii_eqb_false; [reflexivity | now apply digit_facts]. }
  rewrite Hacc.
  assert (Hspan : span isDigitChar (whole ++ fraction ++ rest) = (whole, fraction ++ rest)).
  { apply span_append; [exact Hw|].
    destruct Hf as [-> | (digits & -> & _)]; [|reflexivity].
    destruct rest as [|d rest']; [trivial | apply Hb]. }
  rewrite Hspan.
  destruct Hf as [-> | (digits & -> & Hdig)].
  - assert (Hdot : accept "." rest = None).
    { destruct rest as [|d rest']; [reflexivity|]. simpl.
      rewrite ascii_eqb_false; [reflexivity | apply Hb]. }
    simpl append at 1. rewrite Hdot. reflexivity.
  - assert (Hspan2 : span isDigitChar (digits ++ rest) = (digits, rest)).
    { apply span_append; [exact Hdig|].
      destruct rest as [|d rest']; [trivial | apply Hb]. }
    simpl. rewrite Hspan2. reflexivity.
Qed.

Lemma number_first (literal : string) :
  NumberLiteral literal ->
  exists c s', literal = String c s' /\ (c = "-"%char \/ isDigitChar c = true).
Proof.
  intros (sign & whole & fraction & -> & Hsign & Hne & Hw & _).
  destruct Hsign as [-> | ->].
  - destruct whole as [|d whole']; [now elim Hne|]. simpl in Hw.
    apply andb_true_iff in Hw. exists d, (whole' ++ fraction). split; [reflexivity | tauto].
  - exists "-"%char, (whole ++ fraction). split; [reflexivity | now left].
Qed.

Lemma parseValueWith_number (classify : string -> result bool) (fuel : nat)
  (literal rest : string) :
  NumberLiteral literal -> Boundary rest ->
  parseValueWith classify (S fuel) (literal ++ rest)
  = Ok (VNumber (Number_of_string literal), rest).
Proof.
  intros Hn Hb. pose proof (parseNumber_literal _ _ Hn Hb) as Hp.
  destruct (number_first _ Hn) as (c & s' & -> & Hc).
  assert (Hfacts : isSpace c = false /\ c <> "{"%char /\ c <> DQUOTE
                   /\ c <> "m"%char /\ c <> "t"%char /\ c <> "f"%char).
  { destruct Hc as [-> | Hd]; [repeat split; (reflexivity || discriminate)|].
    pose proof (digit_facts c Hd) as (_ & Hs & _ & Hm & Ht & Hf & Ho & Hq & _).
    repeat split; assumption. }
  destruct Hfacts as (Hs & Ho & Hq & Hm & Ht & Hf).
  simpl append in *. cbn [parseValueWith]. rewrite (skipWhitespace_first _ _ Hs).
  cbn [peek]. rewrite !(ascii_eqb_false c) by assumption.
  rewrite !startsWith_first by assumption.
  assert (Hdig : Ascii.eqb c "-" || isDigit (Some c) = true).
  { destruct Hc as [-> | Hd]; [reflexivity|]. simpl. rewrite Hd. apply orb_true_r. }
  rewrite Hdig, Hp. reflexivity.
Qed.

Lemma parseKey_KeyText (k key ws rest : string) :
  KeyText k key -> allSpace ws = true ->
  match rest with
  | EmptyString => True
  | String d _ => isKeyChar d = false
  end ->
  parseKey (ws ++ k ++ rest) = Ok (key, rest).
Proof.
  intros Hk Hws Hr. unfold parseKey. rewrite (skipWhitespace_allSpace _ _ Hws).
  destruct Hk as [key Hne Hkey | body text He].
  - destruct key as [|c key']; [now elim Hne|].
    pose proof Hkey as Hall. simpl in Hkey. apply andb_true_iff in Hkey.
    destruct Hkey as [Hc _]. destruct (key_facts c Hc) as [Hp Hs].
    change (String c key' ++ rest) with (String c (key' ++ rest)).
    rewrite (skipWhitespace_first _ _ Hs). cbn [peek].
    assert (Hq : Ascii.eqb c DQUOTE = false).
    { unfold isPlainChar in Hp. apply negb_true_iff in Hp.
      repeat (apply orb_false_iff in Hp; destruct Hp as [Hp ?]). exact Hp. }
    rewrite Hq.
    change (String c (key' ++ rest)) with (String c key' ++ rest).
    now rewrite (span_append _ _ _ Hall Hr).
  - destruct (parseStringLoop_Escaped _ _ He EmptyString) as (A & _ & _).
    rewrite quoted_append. cbn [skipWhitespace isWhitespaceChar].
    change (isSpace DQUOTE) with false. cbn [peek].
    change (Ascii.eqb DQUOTE DQUOTE) with true. cbv iota.
    change (parseString (String DQUOTE (body ++ String DQUOTE rest)))
      with (parseStringLoop EmptyString (body ++ String DQUOTE rest)).
    now rewrite A.
Qed.

Lemma KeyText_shape (k key : string) :
  KeyText k key ->
  Balanced k /\ Undelimited k
  /\ exists c k', k = String c k' /\ isSpace c = false /\ c <> "}"%char.
Proof.
  intros [key' Hne Hkey | body text He].
  - assert (Hp : allChars isPlainChar key' = true).
    { revert Hkey. apply allChars_impl. intros c H. now apply key_facts. }
    destruct (plain_shape _ Hp) as [Hb Hu]. split; [exact Hb|]. split; [exact Hu|].
    destruct key' as [|c key'']; [now elim Hne|].
    simpl in Hkey, Hp. apply andb_true_iff in Hkey, Hp.
    exists c, key''. split; [reflexivity|]. split; [now apply key_facts|].
    destruct Hp as [Hp _]. unfold isPlainChar in Hp. apply negb_true_iff in Hp.
    repeat (apply orb_false_iff in Hp; destruct Hp as [Hp ?]).
    now apply Ascii.eqb_neq.
  - destruct (literal_shape _ _ He) as [Hb Hu]. split; [exact Hb|]. split; [exact Hu|].
    exists DQUOTE, (body ++ str1 DQUOTE). repeat split; discriminate.
Qed.

Lemma after_key (ws : string) (x : string) :
  allSpace ws = true ->
  match ws ++ String ":" x with
  | EmptyString => True
  | String d _ => isKeyChar d = false
  end.
Proof.
  intro H. destruct ws as [|w ws]; simpl; [reflexivity|].
  simpl in H. apply andb_true_iff in H. now apply space_facts.
Qed.

Lemma accept_close (ws s x : string) :
  allSpace ws = true -> WellShaped s ->
  accept "}" (skipWhitespace (ws ++ s ++ x)) = None.
Proof.
  intros Hws (_ & _ & c & s' & -> & Hs & Hc).
  rewrite (skipWhitespace_allSpace _ _ Hws).
  change (String c s' ++ x) with (String c (s' ++ x)).
  rewrite (skipWhitespace_first _ _ Hs). simpl. now rewrite ascii_eqb_false.
Qed.

Lemma keyword_parses (keyword : string) (v : AppleScriptValue) :
  allChars isPlainChar keyword = true ->
  (exists c s', keyword = String c s' /\ isSpace c = false /\ c <> "}"%char) ->
  (forall fuel rest,
      parseValueWith isRecordCollection (S fuel) (keyword ++ rest) = Ok (v, rest)) ->
  ValueParses keyword v.
Proof.
  intros Hp Hc H. destruct (plain_shape _ Hp) as [Hb Hu].
  split; [repeat split; assumption|].
  intros [|fuel] rest Hlen _; [lia | apply H].
Qed.

Lemma isRecordCollection_skip (x : string) :
  isRecordCollection (skipWhitespace x) = isRecordCollection x.
Proof. apply scanFrom_skipWhitespace. Qed.

Lemma collection_parses (inner rest : string) (fuel : nat) (isRecord : bool)
  (v : AppleScriptValue) :
  accept "}" (skipWhitespace (inner ++ String "}" rest)) = None ->
  scanFrom 0 (inner ++ String "}" rest) = Ok isRecord ->
  (if isRecord
   then exists record,
          parseFields (parseValueWith isRecordCollection fuel) fuel []
            (inner ++ String "}" rest) = Ok (record, String "}" rest)
          /\ v = VRecord record
   else exists items,
          parseItems (parseValueWith isRecordCollection fuel) fuel []
            (inner ++ String "}" rest) = Ok (items, String "}" rest)
          /\ v = VList items) ->
  parseValueWith isRecordCollection (S fuel) (String "{" (inner ++ "}") ++ rest)
  = Ok (v, rest).
Proof.
  intros Ha Hs Hp.
  change (String "{" (inner ++ "}") ++ rest) with (String "{" ((inner ++ "}") ++ rest)).
  rewrite append_assoc. change ("}" ++ rest) with (String "}" rest).
  cbn [parseValueWith].
  change (skipWhitespace (String "{" (inner ++ String "}" rest)))
    with (String "{" (inner ++ String "}" rest)).
  cbn [peek]. change (Ascii.eqb "{" "{") with true. cbv iota.
  unfold parseCollection. cbn [consume]. change (Ascii.eqb "{" "{") with true.
  cbv iota. cbn [bind]. rewrite Ha.
  change (scanFrom 0 (inner ++ String "}" rest))
    with (isRecordCollection (inner ++ String "}" rest)) in Hs.
  rewrite isRecordCollection_skip, Hs. cbn [bind].
  destruct isRecord.
  - destruct Hp as (record & Hp & ->). rewrite parseFields_skip, Hp. reflexivity.
  - destruct Hp as (items & Hp & ->). rewrite parseItems_skip, Hp. reflexivity.
Qed.

Lemma Denotes_parses :
  (forall s v, Denotes s v -> ValueParses s v)
  /\ (forall items values, DenotesItems items values -> ItemsParse items values)
  /\ (forall fields entries, DenotesFields fields entries -> FieldsParse fields entries).
Proof.
  apply Denotes_mutual.
  - (* missing value *)
    apply keyword_parses;
      [reflexivity | | intros fuel rest; simpl; destruct rest; reflexivity].
    eexists; eexists; split; [reflexivity|]. split; [reflexivity | discriminate].
  - apply keyword_parses;
      [reflexivity | | intros fuel rest; simpl; destruct rest; reflexivity].
    eexists; eexists; split; [reflexivity|]. split; [reflexivity | discriminate].
  - apply keyword_parses;
      [reflexivity | | intros fuel rest; simpl; destruct rest; reflexivity].
    eexists; eexists; split; [reflexivity|]. split; [reflexivity | discriminate].
  - (* string *)
    intros body text He. destruct (literal_shape _ _ He) as [Hb Hu]. split.
    + split; [exact Hb|]. split; [exact Hu|].
      exists DQUOTE, (body ++ str1 DQUOTE). repeat split; discriminate.
    + intros [|fuel] rest Hlen _; [lia | now apply parseValueWith_literal].
  - (* number *)
    intros literal Hn. destruct (plain_shape _ (number_plain _ Hn)) as [Hb Hu]. split.
    + split; [exact Hb|]. split; [exact Hu|].
      destruct (number_first _ Hn) as (c & s' & -> & Hc). exists c, s'.
      split; [reflexivity|].
      destruct Hc as [-> | Hd]; [split; [reflexivity | discriminate]|].
      split; [now apply digit_facts|].
      pose proof (digit_facts c Hd) as (Hp & _). unfold isPlainChar in Hp.
      apply negb_true_iff in Hp.
      repeat (apply orb_false_iff in Hp; destruct Hp as [Hp ?]).
      now apply Ascii.eqb_neq.
    + intros [|fuel] rest Hlen Hbd; [lia | now apply parseValueWith_number].
  - (* empty list *)
    intros ws Hws. destruct (plain_shape _ (spaces_plain _ Hws)) as [Hb _]. split.
    + destruct (group_shape _ Hb) as [Hg Hu]. split; [exact Hg|]. split; [exact Hu|].
      eexists; eexists; split; [reflexivity|]. split; [reflexivity | discriminate].
    + intros [|fuel] rest Hlen _; [lia|].
      change (String "{" (ws ++ "}") ++ rest) with (String "{" ((ws ++ "}") ++ rest)).
      rewrite append_assoc. change ("}" ++ rest) with (String "}" rest).
      cbn [parseValueWith].
      change (skipWhitespace (String "{" (ws ++ String "}" rest)))
        with (String "{" (ws ++ String "}" rest)).
      cbn [peek]. change (Ascii.eqb "{" "{") with true. cbv iota.
      now apply parseCollection_empty.
  - (* list *)
    intros items values _ (Hb & Hscan & Hacc & Hparse). split.
    + destruct (group_shape _ Hb) as [Hg Hu]. split; [exact Hg|]. split; [exact Hu|].
      eexists; eexists; split; [reflexivity|]. split; [reflexivity | discriminate].
    + intros [|fuel] rest Hlen _; [lia|].
      simpl in Hlen. rewrite length_append in Hlen. simpl in Hlen.
      apply (collection_parses items rest fuel false); [apply Hacc | apply Hscan|].
      exists values. split; [|reflexivity].
      now rewrite (Hparse fuel fuel [] rest) by lia.
  - (* record *)
    intros fields entries _ (Hb & Hscan & Hacc & Hparse). split.
    + destruct (group_shape _ Hb) as [Hg Hu]. split; [exact Hg|]. split; [exact Hu|].
      eexists; eexists; split; [reflexivity|]. split; [reflexivity | discriminate].
    + intros [|fuel] rest Hlen _; [lia|].
      simpl in Hlen. rewrite length_append in Hlen. simpl in Hlen.
      apply (collection_parses fields rest fuel true); [apply Hacc | apply Hscan|].
      eexists. split; [|reflexivity].
      now rewrite (Hparse fuel fuel [] rest) by lia.
  - (* the last item *)
    intros ws1 s ws2 value H1 H2 _ (Hshape & Hparse).
    destruct (plain_shape _ (spaces_plain _ H1)) as [Hb1 Hu1].
    destruct (plain_shape _ (spaces_plain _ H2)) as [Hb2 Hu2].
    pose proof Hshape as (Hb & Hu & _).
    split; [now repeat apply Balanced_append|]. split; [|split].
    + intro x. rewrite scanFrom_Undelimited; [reflexivity|].
      now repeat apply Undelimited_append.
    + intro x. rewrite !append_assoc. now apply accept_close.
    + intros fuel [|n] acc rest Hf Hn; [lia|].
      rewrite !length_append in Hf. rewrite !append_assoc. cbn [parseItems].
      rewrite (parseValueWith_spaces _ _ _ _ H1).
      rewrite (Hparse fuel (ws2 ++ String "}" rest)) by
        (lia || (apply Boundary_spaces; [exact H2 | now right])).
      cbn [bind]. rewrite (skipWhitespace_spaces _ _ _ H2) by reflexivity.
      reflexivity.
  - (* an item and more *)
    intros ws1 s ws2 value items values H1 H2 _ (Hshape & Hparse) _
           (Hbi & Hscan & Hacc & Hitems).
    destruct (plain_shape _ (spaces_plain _ H1)) as [Hb1 Hu1].
    destruct (plain_shape _ (spaces_plain _ H2)) as [Hb2 Hu2].
    pose proof Hshape as (Hb & Hu & _).
    split; [|split; [|split]].
    + repeat apply Balanced_append; try assumption.
      constructor; (discriminate || assumption).
    + intro x. rewrite !append_assoc.
      change (String "," items ++ String "}" x) with (String "," (items ++ String "}" x)).
      rewrite <- !append_assoc. rewrite scanFrom_Undelimited; [reflexivity|].
      rewrite append_assoc. now repeat apply Undelimited_append.
    + intro x. rewrite !append_assoc. now apply accept_close.
    + intros fuel [|n] acc rest Hf Hn; [lia|].
      rewrite !length_append in Hf, Hn. simpl in Hf, Hn.
      rewrite !append_assoc.
      change (String "," items ++ String "}" rest)
        with (String "," (items ++ String "}" rest)).
      cbn [parseItems].
      rewrite (parseValueWith_spaces _ _ _ _ H1).
      rewrite (Hparse fuel (ws2 ++ String "," (items ++ String "}" rest))) by
        (lia || (apply Boundary_spaces; [exact H2 | now left])).
      cbn [bind]. rewrite (skipWhitespace_spaces _ _ _ H2) by reflexivity.
      cbn [accept]. change (Ascii.eqb "," ",") with true. cbv iota.
      rewrite (Hitems fuel n (acc ++ [value])%list rest) by lia.
      now rewrite <- app_assoc.
  - (* the last field *)
    intros ws1 k ws2 ws3 s ws4 key value H1 H2 H3 H4 Hk _ (Hshape & Hparse).
    destruct (plain_shape _ (spaces_plain _ H1)) as [Hb1 Hu1].
    destruct (plain_shape _ (spaces_plain _ H2)) as [Hb2 Hu2].
    destruct (plain_shape _ (spaces_plain _ H3)) as [Hb3 Hu3].
    destruct (plain_shape _ (spaces_plain _ H4)) as [Hb4 Hu4].
    pose proof Hshape as (Hb & Hu & _).
    pose proof (KeyText_shape _ _ Hk) as (Hbk & Huk & Hck).
    split; [|split; [|split]].
    + repeat apply Balanced_append; try assumption.
      constructor; try discriminate. now repeat apply Balanced_append.
    + intro x. rewrite !append_assoc.
      change (String ":" (ws3 ++ s ++ ws4) ++ x)
        with (String ":" ((ws3 ++ s ++ ws4) ++ x)).
      rewrite <- !append_assoc. rewrite scanFrom_Undelimited; [reflexivity|].
      rewrite append_assoc. now repeat apply Undelimited_append.
    + intro x. rewrite !append_assoc.
      apply accept_close; [exact H1 | repeat split; assumption].
    + intros fuel [|n] record rest Hf Hn; [lia|].
      rewrite !length_append in Hf. simpl in Hf. rewrite !length_append in Hf.
      rewrite !append_assoc.
      change (String ":" (ws3 ++ s ++ ws4) ++ String "}" rest)
        with (String ":" ((ws3 ++ s ++ ws4) ++ String "}" rest)).
      rewrite !append_assoc. cbn [parseFields].
      rewrite (parseKey_KeyText _ _ _ _ Hk H1) by now apply after_key.
      cbn [bind]. rewrite (skipWhitespace_spaces _ _ _ H2) by reflexivity.
      cbn [consume]. change (Ascii.eqb ":" ":") with true. cbv iota. cbn [bind].
      rewrite (parseValueWith_spaces _ _ _ _ H3).
      rewrite (Hparse fuel (ws4 ++ String "}" rest)) by
        (lia || (apply Boundary_spaces; [exact H4 | now right])).
      cbn [bind]. rewrite (skipWhitespace_spaces _ _ _ H4) by reflexivity.
      reflexivity.
  - (* a field and more *)
    intros ws1 k ws2 ws3 s ws4 key value fields entries H1 H2 H3 H4 Hk _
           (Hshape & Hparse) _ (Hbf & Hscan & Hacc & Hfields).
    destruct (plain_shape _ (spaces_plain _ H1)) as [Hb1 Hu1].
    destruct (plain_shape _ (spaces_plain _ H2)) as [Hb2 Hu2].
    destruct (plain_shape _ (spaces_plain _ H3)) as [Hb3 Hu3].
    destruct (plain_shape _ (spaces_plain _ H4)) as [Hb4 Hu4].
    pose proof Hshape as (Hb & Hu & _).
    pose proof (KeyText_shape _ _ Hk) as (Hbk & Huk & Hck).
    split; [|split; [|split]].
    + repeat apply Balanced_append; try assumption.
      constructor; try discriminate. repeat apply Balanced_append; try assumption.
      constructor; (discriminate || assumption).
    + intro x. rewrite !append_assoc.
      change (String ":" (ws3 ++ s ++ ws4 ++ String "," fields) ++ x)
        with (String ":" ((ws3 ++ s ++ ws4 ++ String "," fields) ++ x)).
      rewrite <- !append_assoc. rewrite scanFrom_Undelimited; [reflexivity|].
      rewrite append_assoc. now repeat apply Undelimited_append.
    + intro x. rewrite !append_assoc.
      apply accept_close; [exact H1 | repeat split; assumption].
    + intros fuel [|n] record rest Hf Hn; [lia|].
      rewrite !length_append in Hf, Hn. simpl in Hf, Hn.
      rewrite !length_append in Hf, Hn. simpl in Hf, Hn.
      rewrite !append_assoc.
      change (String ":" (ws3 ++ s ++ ws4 ++ String "," fields) ++ String "}" rest)
        with (String ":" ((ws3 ++ s ++ ws4 ++ String "," fields) ++ String "}" rest)).
      rewrite !append_assoc.
      change (String "," fields ++ String "}" rest)
        with (String "," (fields ++ String "}" rest)).
      cbn [parseFields].
      rewrite (parseKey_KeyText _ _ _ _ Hk H1) by now apply after_key.
      cbn [bind]. rewrite (skipWhitespace_spaces _ _ _ H2) by reflexivity.
      cbn [consume]. change (Ascii.eqb ":" ":") with true. cbv iota. cbn [bind].
      rewrite (parseValueWith_spaces _ _ _ _ H3).
      rewrite (Hparse fuel (ws4 ++ String "," (fields ++ String "}" rest))) by
        (lia || (apply Boundary_spaces; [exact H4 | now left])).
      cbn [bind]. rewrite (skipWhitespace_spaces _ _ _ H4) by reflexivity.
      cbn [accept]. change (Ascii.eqb "," ",") with true. cbv iota.
      now rewrite (Hfields fuel n (setField key value record) rest) by lia.
Qed.

Lemma Denotes_first (s : string) (v : AppleScriptValue) :
  Denotes s v ->
  exists c s', s = String c s' /\ isSpace c = false /\ c <> "="%char.
Proof.
  intros [ | | | body text _ | literal Hn | ws _ | items values _ | fields entries _ ];
    try (eexists; eexists; split; [reflexivity|]; split; [reflexivity | discriminate]).
  destruct (number_first _ Hn) as (c & s' & -> & Hc). exists c, s'.
  split; [reflexivity|].
  destruct Hc as [-> | Hd]; [split; [reflexivity | discriminate]|].
  split; now apply digit_facts.
Qed.

Lemma trimEnd_spaces (s ws : string) :
  allChars (fun c => negb (isSpace c)) s = true -> allSpace ws = true ->
  trimEnd (s ++ ws) = s.
Proof.
  intros Hs Hws. induction s as [|c s IH]; [now apply allSpace_trimEnd|].
  simpl in Hs. apply andb_true_iff in Hs. destruct Hs as [Hc Hs].
  apply negb_true_iff in Hc.
  change (String c s ++ ws) with (String c (s ++ ws)).
  rewrite trimEnd_cons by (simpl; now rewrite Hc). now rewrite IH.
Qed.

Lemma trimEnd_closed (a : string) (c : ascii) (ws : string) :
  isSpace c = false -> allSpace ws = true ->
  trimEnd (a ++ String c ws) = a ++ str1 c.
Proof.
  intros Hc Hws. rewrite trimEnd_append by exact Hc. now rewrite (allSpace_trimEnd _ Hws).
Qed.

Lemma Denotes_trimEnd (s : string) (v : AppleScriptValue) (ws : string) :
  Denotes s v -> allSpace ws = true -> trimEnd (s ++ ws) = s.
Proof.
  intros H Hws.
  destruct H as [ | | | body text _ | literal Hn | ws0 _ | items values _
                  | fields entries _ ].
  - change ("missing value" ++ ws) with ("missing valu" ++ String "e" ws).
    now rewrite trimEnd_closed.
  - now apply trimEnd_spaces.
  - now apply trimEnd_spaces.
  - unfold quoted. change (String DQUOTE (body ++ str1 DQUOTE) ++ ws)
      with (String DQUOTE ((body ++ str1 DQUOTE) ++ ws)).
    rewrite append_snoc.
    change (String DQUOTE (body ++ String DQUOTE ws))
      with (String DQUOTE body ++ String DQUOTE ws).
    now rewrite trimEnd_closed.
  - apply trimEnd_spaces; [|exact Hws].
    destruct Hn as (sign & whole & fraction & -> & Hsign & _ & Hw & Hf).
    assert (Hd : forall t, allChars isDigitChar t = true ->
                   allChars (fun c => negb (isSpace c)) t = true).
    { intro t. apply allChars_impl. intros c H.
      apply negb_true_iff. now apply digit_facts. }
    rewrite !allChars_append, (Hd _ Hw).
    destruct Hsign as [-> | ->];
      (destruct Hf as [-> | (digits & -> & Hdig)]; [reflexivity|]);
      simpl; now rewrite (Hd _ Hdig).
  - change (String "{" (ws0 ++ "}") ++ ws) with (String "{" ((ws0 ++ "}") ++ ws)).
    change "}" with (str1 "}"). rewrite append_snoc.
    change (String "{" (ws0 ++ String "}" ws)) with (String "{" ws0 ++ String "}" ws).
    now rewrite trimEnd_closed.
  - change (String "{" (items ++ "}") ++ ws) with (String "{" ((items ++ "}") ++ ws)).
    change "}" with (str1 "}"). rewrite append_snoc.
    change (String "{" (items ++ String "}" ws)) with (String "{" items ++ String "}" ws).
    now rewrite trimEnd_closed.
  - change (String "{" (fields ++ "}") ++ ws) with (String "{" ((fields ++ "}") ++ ws)).
    change "}" with (str1 "}"). rewrite append_snoc.
    change (String "{" (fields ++ String "}" ws))
      with (String "{" fields ++ String "}" ws).
    now rewrite trimEnd_closed.
Qed.

Lemma allSpace_Boundary (ws : string) : allSpace ws = true -> Boundary ws.
Proof.
  destruct ws as [|c ws]; simpl; [trivial|]. intro H. apply andb_true_iff in H. tauto.
Qed.


End Literals.

(* ================================================================= *)
(** ** The further properties on the samples *)

Section FurtherRuns.
Import Ref Samples.

Ltac evaluated H :=
  match type of H with
  | ?a = ?b =>
      let a' := eval vm_compute in a in
      let b' := eval vm_compute in b in
      change (a' = b') in H
  end.

(** The witness of X2: a blank answer, and the prefix after a space with
    a list and with nothing behind it. *)
Lemma parseAppleScriptResult_blank_and_prefix_witness :
  allSpace "  " = true
  /\ parseAppleScriptResult (Some (VString "  ")) = Ok VNull
  /\ parseAppleScriptResult (Some (VString (" " ++ "=>" ++ "{1}")))
     = Parser.parse (trim "{1}")
  /\ parseAppleScriptResult (Some (VString (" " ++ "=>" ++ "  ")))
     = Throw (Error "Unexpected end of AppleScript result").
Proof.
  destruct parseAppleScriptResult_blank_and_prefix as (A & B & C).
  split; [reflexivity|]. split; [apply A; reflexivity|].
  split; [apply B; reflexivity | apply C; reflexivity].
Defined.



Example parse_backspace_quoted :
  Parser.parse (Reminders.toAppleScriptString (Some (str1 (ascii_of_nat 8))))
  = Ok (VString "b").
Proof. reflexivity. Qed.

Example parse_tab_quoted :
  Parser.parse (Reminders.toAppleScriptString (Some ("a" ++ str1 TAB ++ quoted "b")))
  = Ok (VString ("a" ++ str1 TAB ++ quoted "b")).
Proof. reflexivity. Qed.

(** The witness of X5: the two versions agree on "yes". *)
Lemma coerceBoolean_versions_witness :
  Calendar.coerceBoolean (Some (VString "yes")) false
  = Reminders.coerceBoolean (Some (VString "yes")) false
  /\ Calendar.coerceBoolean (Some (VString "1")) false = true
  /\ Reminders.coerceBoolean (Some (VString "1")) false = false.
Proof.
  destruct (coerceBoolean_versions false) as (_ & _ & A & _ & B & _ & C).
  split; [apply C; discriminate|]. split; [exact A | exact B].
Defined.


(** The witness of X7: the events of 1 to 3 January 2024, two at most. *)
Lemma fetchEventsResult_window_witness :
  exists out,
    Calendar.fetchEventsResult 2 (Some 1704067200000%Z) (Some 1704326400000%Z) january
    = Ok out
    /\ (Z.of_nat (length out) <= Calendar.maxEvents 2)%Z
    /\ StronglySorted
         (fun a b => (Calendar.getEventSortKey a <= Calendar.getEventSortKey b)%Z) out.
Proof.
  destruct (Calendar.fetchEventsResult 2 (Some 1704067200000%Z) (Some 1704326400000%Z)
              january) as [out|e] eqn:E.
  - exists out. split; [reflexivity|].
    destruct (fetchEventsResult_window _ _ _ _ _ E) as (A & _ & B & _).
    split; [exact A | exact B].
  - evaluated E. discriminate E.
Defined.

Example fetchEventsResult_january :
  match Calendar.fetchEventsResult 2 (Some 1704067200000%Z) (Some 1704326400000%Z)
          january with
  | Ok out => map Calendar.title out
  | Throw _ => []
  end
  = ["first"; "second"].
Proof. reflexivity. Qed.

(** The witness of X8: the event of 1 January 2024. *)
Lemma toEvent_sort_key_witness :
  exists i event,
    Calendar.toEvent newYear = Ok (i, event)
    /\ Calendar.startDate event = Some "2024-01-01T00:00:00.000Z"
    /\ Calendar.getEventSortKey event = 1704067200000%Z.
Proof.
  destruct (Calendar.toEvent newYear) as [[i event]|e] eqn:E.
  - exists i, event. split; [reflexivity|].
    apply (toEvent_sort_key newYear (Finite 17040672 2) 1704067200000 i event E);
      [reflexivity | reflexivity | intro H; evaluated H; discriminate H | reflexivity].
  - evaluated E. discriminate E.
Defined.

(** The witness of X9: a range given upside down, from the epoch. *)
Lemma ensureDateRange_ordered_witness :
  Calendar.start (Calendar.ensureDateRange (Some 1000%Z) (Some 5%Z) 7) = 1000%Z
  /\ Calendar.end_ (Calendar.ensureDateRange (Some 1000%Z) (Some 5%Z) 7)
     = Some (1000 + Z.max 1 7 * Calendar.ONE_DAY_MS)%Z.
Proof.
  destruct (ensureDateRange_ordered (Some 1000%Z) (Some 5%Z) 7)
    as (A & _ & _ & B);
    [lia | lia | unfold Calendar.ONE_DAY_MS; lia |].
  split; [exact A|]. apply B. right. exists 5%Z. split; [reflexivity | lia].
Defined.

(** The witness of X10: a reminder named, and reported as not created. *)
Lemma string_answer_maps_to_nothing_witness :
  isEmpty (trim "Buy milk") = false
  /\ Reminders.createReminder "Buy milk" "Home" None (VString "{name:Buy milk}")
     = Throw (Error "Failed to create reminder.")
  /\ Calendar.getEvents (Some 5%Z) None None (VString "{{id:E1}}") = Ok [].
Proof.
  destruct (string_answer_maps_to_nothing "{name:Buy milk}")
    as (_ & _ & _ & _ & _ & _ & _ & _ & A).
  destruct (string_answer_maps_to_nothing "{{id:E1}}") as (_ & _ & B & _).
  split; [reflexivity|]. split; [apply A; reflexivity | apply B].
Defined.

(** The witness of X11: the two most recent of the sample notes. *)
Lemma fetchNotesResult_most_recent_witness :
  exists out,
    Notes.fetchNotesResult (Some 2%Z) None someNotes = Ok out
    /\ (Z.of_nat (length out) <= Notes.maxNotes (Some 2%Z))%Z
    /\ (Notes.mapNoteRecords someNotes <> [] -> out <> []).
Proof.
  destruct (Notes.fetchNotesResult (Some 2%Z) None someNotes) as [out|e] eqn:E.
  - exists out. split; [reflexivity|].
    destruct (fetchNotesResult_most_recent _ _ _ _ E) as (_ & A & B & _).
    split; [exact A | exact B].
  - evaluated E. discriminate E.
Defined.

Example fetchNotesResult_two :
  match Notes.fetchNotesResult (Some 2%Z) None someNotes with
  | Ok out => map Notes.name out
  | Throw _ => []
  end
  = ["new"; "created"].
Proof. reflexivity. Qed.

(** The witness of X12: the notes created from 25 to 60 seconds after
    the epoch. *)
Lemma getNotesByDateRange_window_witness :
  exists out,
    Notes.getNotesByDateRange "Work" (Some "1970-01-01T00:00:25.000Z")
      (Some "1970-01-01T00:01:00.000Z") None notesText = Ok out
    /\ (Z.of_nat (length out) <= Z.max 1 (Z.min 20 50))%Z.
Proof.
  destruct (Notes.getNotesByDateRange "Work" (Some "1970-01-01T00:00:25.000Z")
              (Some "1970-01-01T00:01:00.000Z") None notesText) as [out|e] eqn:E.
  - exists out. split; [reflexivity|].
    exact (proj1 (getNotesByDateRange_window _ _ _ _ _ _ E)).
  - evaluated E. discriminate E.
Defined.

Example getNotesByDateRange_sample :
  match Notes.getNotesByDateRange "Work" (Some "1970-01-01T00:00:25.000Z")
          (Some "1970-01-01T00:01:00.000Z") None notesText with
  | Ok out => map Notes.name out
  | Throw _ => []
  end
  = ["second"; "third"].
Proof. reflexivity. Qed.


Example createNote_sample :
  match Notes.createNote "Plan" "Elsewhere" createdText with
  | Notes.Created (Some note) folderUsed usedDefault =>
      (Notes.name note, folderUsed, usedDefault)
  | _ => (EmptyString, EmptyString, true)
  end
  = ("Plan", "Work", false).
Proof. reflexivity. Qed.

(** The witness of X14: a reminder with a name only is kept. *)
Lemma mapReminderRecords_drop_rule_witness :
  In namedReminder [blankReminder; namedReminder]
  /\ isObjectItem namedReminder = true
  /\ In (Reminders.toReminder None namedReminder)
        (Reminders.mapReminderRecords (VList [blankReminder; namedReminder]) None).
Proof.
  assert (Hin : In namedReminder [blankReminder; namedReminder])
    by (right; left; reflexivity).
  assert (Hobj : isObjectItem namedReminder = true) by reflexivity.
  split; [exact Hin|]. split; [exact Hobj|].
  destruct (mapReminderRecords_drop_rule _ None _ Hin Hobj) as (_ & Hkeep & _).
  apply Hkeep. right. intro H. evaluated H. discriminate H.
Defined.

Example mapReminderRecords_sample :
  map Reminders.name
    (Reminders.mapReminderRecords (VList [blankReminder; namedReminder]) None)
  = ["Buy milk"].
Proof. reflexivity. Qed.

(** Slugs and tokens. *)
Example slugify_heading :
  Search.slugify "  Notes & Reminders -- (beta)! " = "notes-reminders-beta".
Proof. reflexivity. Qed.

Example slugify_symbols : Search.slugify " -- !? -- " = EmptyString.
Proof. reflexivity. Qed.

(** The witness of X16: a query of two words and a lone mark. *)
Lemma tokenize_tokens_witness :
  Search.tokenize "  Apple   MCP ! " = ["apple"; "mcp"]
  /\ allSpace "   " = true
  /\ Search.tokenize "   " = [].
Proof.
  split; [reflexivity|]. split; [reflexivity|].
  apply (proj2 (proj2 (tokenize_tokens "   "))). reflexivity.
Defined.

(** The witness of X18: the documents that match "mail", the title
    first. *)
Lemma search_ranked_witness :
  isEmpty (trim " Mail ") = false
  /\ Search.search readme " Mail " (Some 5%Z)
     = map (fun entry =>
              {| Search.resultId := Search.id (Search.doc entry);
                 Search.resultTitle := Search.title (Search.doc entry);
                 Search.resultUrl := Search.url (Search.doc entry) |})
         (Search.scored readme (trim " Mail ") 5)
  /\ StronglySorted ranksBefore (Search.scored readme (trim " Mail ") 5).
Proof.
  destruct (search_ranked readme " Mail " 5) as (_ & A & _ & B & _).
  split; [reflexivity|]. split; [apply A; reflexivity | exact B].
Defined.

Example search_sample :
  map Search.resultId (Search.search readme " Mail " None)
  = ["readme-section-0"; "readme-overview"].
Proof. reflexivity. Qed.

Example search_blank : Search.search readme "   " None = [].
Proof. reflexivity. Qed.

(** The witness of X19: what the search finds can be fetched. *)
Lemma search_then_fetch_witness :
  NoDup (map Search.id readme)
  /\ In {| Search.resultId := "readme-section-0";
           Search.resultTitle := "Mail";
           Search.resultUrl := "https://github.com/supermemoryai/apple-mcp#mail" |}
        (Search.search readme " Mail " None)
  /\ exists document,
       In document readme
       /\ Search.fetchDocument readme "readme-section-0"
          = Ok {| Search.fetchedId := "readme-section-0";
                  Search.fetchedTitle := "Mail";
                  Search.fetchedText := Search.content document;
                  Search.fetchedUrl := "https://github.com/supermemoryai/apple-mcp#mail";
                  Search.fetchedMetadata := Search.DEFAULT_METADATA |}.
Proof.
  assert (Hn : NoDup (map Search.id readme)).
  { repeat constructor; simpl; intuition discriminate. }
  assert (Hids : forall document, In document readme ->
             trim (Search.id document) = Search.id document
             /\ Search.id document <> EmptyString).
  { intros document [<- | [<- | [<- | []]]]; split; (reflexivity || discriminate). }
  assert (Hin : In {| Search.resultId := "readme-section-0";
                      Search.resultTitle := "Mail";
                      Search.resultUrl := "https://github.com/supermemoryai/apple-mcp#mail" |}
                   (Search.search readme " Mail " None))
    by (left; reflexivity).
  split; [exact Hn|]. split; [exact Hin|].
  exact (proj1 (search_then_fetch readme " Mail " None _ Hn Hids Hin)).
Defined.

Example fetchDocument_sample :
  match Search.fetchDocument readme " readme-section-0 " with
  | Ok fetched => Search.fetchedText fetched
  | Throw _ => EmptyString
  end
  = "Send and read mail".
Proof. reflexivity. Qed.

Example fetchDocument_unknown :
  Search.fetchDocument readme " nothing "
  = Throw (Error "No document found for id 'nothing'").
Proof. reflexivity. Qed.

End FurtherRuns.
